(** * omni-chat: the model response adapter, the conversation relay,
      sign-up and sign-in, and the client state store

    A shallow embedding of the sources, followed by the properties the
    specification states about them:
    - [src/lib/ai.ts], the adapter over the three model providers;
    - the relay ([createConversation], [sendMessage]), which the application
      imports as [./lib/api];
    - [src/lib/auth.ts]: [signUp] and [signIn], and, in its second half, the
      zustand store the application imports as [./store];
    - [src/types/index.ts]: the types and, after them, the application
      component with its [SIGNED_OUT] handler;
    - the SQL migration that creates the tables, their constraints and
      their row-level policies.

    JavaScript strings are modelled as [string]: a sequence of 8-bit
    characters, read as the UTF-8 encoding of the text.  The delimiters the
    code looks for (newline, the marker [data: ]) are ASCII, so splitting and
    slicing agree on both readings.  Logging ([console.error]) is left
    out. *)

From Stdlib Require Import List String Ascii Bool Arith ZArith QArith Lia.
From Stdlib Require Import Strings.Byte DecimalString.
From Stdlib Require Import Permutation Sorted.
Import ListNotations.

Local Open Scope string_scope.
Local Open Scope list_scope.

(* ================================================================== *)
(** * Part I: definitions *)
(* ================================================================== *)

(** ** src/types/index.ts: the types *)

Module Types.

(** ['user' | 'assistant'] *)
Inductive Role := role_user | role_assistant.

Definition Role_text (r : Role) : string :=
  match r with role_user => "user" | role_assistant => "assistant" end.

Record User := mkUser {
  user_id_ : string;
  user_email : string;
  user_created_at : string
}.

Record Message := mkMessage {
  msg_id : string;
  msg_conversation_id : string;
  msg_content : string;
  msg_role : Role;
  msg_created_at : string;
  msg_file_url : option string
}.

(** [model] is typed as the union of the three model identifiers; at run
    time it is whatever string the store's [model] column holds. *)
Record Conversation := mkConversation {
  conv_id : string;
  conv_title : string;
  conv_user_id : string;
  conv_model : string;
  conv_created_at : string;
  conv_last_message : option string
}.

(** [{ ...conv, last_message: text }] *)
Definition with_last_message (conv : Conversation) (text : string) : Conversation :=
  mkConversation (conv_id conv) (conv_title conv) (conv_user_id conv)
                 (conv_model conv) (conv_created_at conv) (Some text).

End Types.

(** ** The JavaScript values and control flow the adapter relies on *)

Module JS.

#[local] Set Warnings "-register-all".

(** A value as [JSON.parse] or a provider SDK hands it over, and
    [undefined] for the properties that are not there.  An object lists
    its own properties, each key once. *)
Inductive value :=
| VUndefined
| VNull
| VBool (b : bool)
| VNum (q : Q)
| VStr (s : string)
| VArr (items : list value)
| VObj (fields : list (string * value)).

(** What a [throw] or a rejected promise carries: an [Error] instance
    with its [message], or any other value. *)
Inductive thrown :=
| ErrorObject (message : string)
| Thrown (v : value).

(** How an evaluation or an awaited promise completes. *)
Inductive completion (A : Type) :=
| Normal (a : A)
| Throw (e : thrown).
Arguments Normal {A} a.
Arguments Throw {A} e.

Inductive parsed :=
| Parsed (v : value)
| SyntaxError (message : string).

(** The built-ins of the JavaScript engine the code calls.  The texts of
    the engine's own error messages and the conversion of numbers and
    objects to strings differ between engines and are left open. *)
Class Engine := {
  JSON_parse : string -> parsed;
  TextDecoder_decode : list byte -> string;
  ToString : value -> string;
  TypeError_message : value -> string -> string
}.

Class Monad (M : Type -> Type) := {
  ret : forall {A}, A -> M A;
  bind : forall {A B}, M A -> (A -> M B) -> M B
}.

#[export] Instance completion_monad : Monad completion := {
  ret := fun A a => Normal a;
  bind := fun A B m k =>
    match m with
    | Normal a => k a
    | Throw e => Throw e
    end
}.

(** [try { m } catch (error) { h error }] *)
Definition try_catch {A} (m : completion A) (h : thrown -> completion A) : completion A :=
  match m with
  | Normal a => Normal a
  | Throw e => h e
  end.

(** An async generator run to its end: the values it yielded, in order,
    and how its body completed. *)
Definition Gen (Y A : Type) : Type := (list Y * completion A)%type.

#[export] Instance Gen_monad {Y} : Monad (Gen Y) := {
  ret := fun A a => ([], Normal a);
  bind := fun A B m k =>
    match m with
    | (ys, Normal a) => let (zs, c) := k a in (ys ++ zs, c)
    | (ys, Throw e) => (ys, Throw e)
    end
}.

Definition yield {Y} (y : Y) : Gen Y unit := ([y], Normal tt).

Definition await {Y A} (c : completion A) : Gen Y A := ([], c).

(** [try { m } catch (error) { h error }] in a generator body: what was
    yielded before the throw stays yielded. *)
Definition gen_try_catch {Y A} (m : Gen Y A) (h : thrown -> Gen Y A) : Gen Y A :=
  match m with
  | (ys, Normal a) => (ys, Normal a)
  | (ys, Throw e) => let (zs, c) := h e in (ys ++ zs, c)
  end.

Definition yielded {Y A} (g : Gen Y A) : list Y := fst g.
Definition outcome {Y A} (g : Gen Y A) : completion A := snd g.

(** Truthiness, for [||]. *)
Definition truthy (v : value) : bool :=
  match v with
  | VUndefined | VNull => false
  | VBool b => b
  | VNum q => negb (Qeq_bool q 0)
  | VStr s => negb (s =? "")%string
  | VArr _ | VObj _ => true
  end.

(** [a || b] *)
Definition or_else (a b : value) : value := if truthy a then a else b.

Fixpoint own_property (k : string) (fields : list (string * value)) : value :=
  match fields with
  | [] => VUndefined
  | (k', v) :: rest => if (k' =? k)%string then v else own_property k rest
  end.

Definition nullish (v : value) : bool :=
  match v with
  | VUndefined | VNull => true
  | _ => false
  end.

Section WithEngine.
Context {engine : Engine}.

(** [v.name] for the property names the adapter reads ([choices],
    [delta], [message], [content]): none of them is defined on a
    built-in prototype, so only an object can have one. *)
Definition get (v : value) (name : string) : completion value :=
  match v with
  | VUndefined | VNull => Throw (ErrorObject (TypeError_message v name))
  | VObj fields => Normal (own_property name fields)
  | _ => Normal VUndefined
  end.

(** [v[0]] *)
Definition get_first (v : value) : completion value :=
  match v with
  | VUndefined | VNull => Throw (ErrorObject (TypeError_message v "0"))
  | VArr items => Normal (nth 0 items VUndefined)
  | VObj fields => Normal (own_property "0" fields)
  | VStr (String c _) => Normal (VStr (String c ""))
  | _ => Normal VUndefined
  end.

(** [v?.name] *)
Definition get_opt (v : value) (name : string) : completion value :=
  if nullish v then Normal VUndefined else get v name.

(** [acc += v] on a string [acc] *)
Definition append_value (acc : string) (v : value) : string :=
  match v with
  | VStr s => acc ++ s
  | _ => acc ++ ToString v
  end.

Definition parse (text : string) : completion value :=
  match JSON_parse text with
  | Parsed v => Normal v
  | SyntaxError message => Throw (ErrorObject message)
  end.

End WithEngine.

Declare Scope js_scope.
Delimit Scope js_scope with js.
Notation "x <- m ;; k" := (bind m (fun x => k))
  (at level 61, m at next level, right associativity) : js_scope.
Notation "m ;; k" := (bind m (fun _ => k))
  (at level 61, right associativity) : js_scope.

(** ** Strings *)

(** [s.split('\n')] *)
Fixpoint split_lines (s : string) : list string :=
  match s with
  | EmptyString => [EmptyString]
  | String c rest =>
      if (c =? "010")%char then EmptyString :: split_lines rest
      else match split_lines rest with
           | [] => [String c EmptyString]
           | line :: lines => String c line :: lines
           end
  end.

(** A string of the program is held as its text in UTF-8, one [ascii]
    per byte.  The functions below that look at characters ([trim],
    [length]) read the bytes as the engine reads the UTF-16 string with
    that text; [split], [startsWith], [slice] after an ASCII prefix and
    [includes] of an ASCII text see the same on both.  A text that is not
    well-formed UTF-8 stands for no string of the program. *)

Definition code (c : ascii) : nat := nat_of_ascii c.

(** The white space of [trim] (the WhiteSpace and LineTerminator code
    points of the language) by the length of its UTF-8 encoding.  One
    byte: U+0009 to U+000D and U+0020. *)
Definition space1 (a : ascii) : bool :=
  (code a =? 32)%nat || ((9 <=? code a)%nat && (code a <=? 13)%nat).

(** Two bytes: U+00A0 (C2 A0). *)
Definition space2 (a b : ascii) : bool :=
  (code a =? 194)%nat && (code b =? 160)%nat.

(** Three bytes: U+1680 (E1 9A 80); U+2000 to U+200A, U+2028, U+2029 and
    U+202F (E2 80 80 to 8A, A8, A9, AF); U+205F (E2 81 9F); U+3000
    (E3 80 80); U+FEFF (EF BB BF). *)
Definition space3 (a b c : ascii) : bool :=
  ((code a =? 225)%nat && (code b =? 154)%nat && (code c =? 128)%nat)
  || ((code a =? 226)%nat && (code b =? 128)%nat
      && (((128 <=? code c)%nat && (code c <=? 138)%nat)
          || (code c =? 168)%nat || (code c =? 169)%nat || (code c =? 175)%nat))
  || ((code a =? 226)%nat && (code b =? 129)%nat && (code c =? 159)%nat)
  || ((code a =? 227)%nat && (code b =? 128)%nat && (code c =? 128)%nat)
  || ((code a =? 239)%nat && (code b =? 187)%nat && (code c =? 191)%nat).

(** [s.trimStart()] *)
Fixpoint trim_start (s : string) : string :=
  match s with
  | EmptyString => EmptyString
  | String a rest1 =>
      if space1 a then trim_start rest1
      else match rest1 with
           | EmptyString => s
           | String b rest2 =>
               if space2 a b then trim_start rest2
               else match rest2 with
                    | EmptyString => s
                    | String c rest3 =>
                        if space3 a b c then trim_start rest3 else s
                    end
           end
  end.

(** The same on a text read from its end: the bytes of a character come
    last byte first. *)
Fixpoint trim_start_reversed (s : string) : string :=
  match s with
  | EmptyString => EmptyString
  | String a rest1 =>
      if space1 a then trim_start_reversed rest1
      else match rest1 with
           | EmptyString => s
           | String b rest2 =>
               if space2 b a then trim_start_reversed rest2
               else match rest2 with
                    | EmptyString => s
                    | String c rest3 =>
                        if space3 c b a then trim_start_reversed rest3 else s
                    end
           end
  end.

Definition reverse (s : string) : string :=
  string_of_list_ascii (rev (list_ascii_of_string s)).

(** [s.trim()] *)
Definition trim (s : string) : string :=
  reverse (trim_start_reversed (reverse (trim_start s))).

(** The UTF-16 code units of the character a byte starts: none for a
    continuation byte, two for the first byte of a four-byte sequence (a
    code point above U+FFFF), one otherwise. *)
Definition utf16_units (a : ascii) : nat :=
  if (code a <? 128)%nat then 1
  else if (code a <? 192)%nat then 0
  else if (code a <? 240)%nat then 1
  else 2.

(** [s.length] *)
Fixpoint utf16_length (s : string) : nat :=
  match s with
  | EmptyString => 0
  | String a rest => utf16_units a + utf16_length rest
  end.

(** The text with the given bytes. *)
Definition text_of_bytes (codes : list nat) : string :=
  string_of_list_ascii (map ascii_of_nat codes).

(** [s.startsWith(p)] *)
Definition startsWith (s p : string) : bool := String.prefix p s.

(** [s.slice(n)] for a non-negative [n] *)
Fixpoint slice (s : string) (n : nat) : string :=
  match n, s with
  | O, _ => s
  | S n', String _ rest => slice rest n'
  | S _, EmptyString => EmptyString
  end.

(** [s.includes(p)] *)
Fixpoint includes (s p : string) : bool :=
  String.prefix p s
  || match s with
     | EmptyString => false
     | String _ rest => includes rest p
     end.

End JS.

(** ** src/lib/ai.ts: the model response adapter *)

Module Ai.
Import Types JS.
Local Open Scope js_scope.

Record AIResponse := mkAIResponse {
  content : value;
  error : option string
}.

Record AIStreamResponse := mkAIStreamResponse {
  stream_content : value;
  done : bool;
  stream_error : option string
}.

(** One entry of [conversationHistory]. *)
Record Turn := mkTurn {
  turn_role : Role;
  turn_content : string
}.

(** One entry of the [messages] array sent to a chat-completion
    endpoint. *)
Record ChatMessage := mkChatMessage {
  role : string;
  text : string
}.

(** The argument of [openai.chat.completions.create] and the JSON body
    posted to the Deepseek endpoint; [stream] is [None] where the object
    literal has no [stream] key. *)
Record ChatParams := mkChatParams {
  model : string;
  messages : list ChatMessage;
  temperature : Q;
  max_tokens : Z;
  stream : option bool
}.

(** What iterating the stream returned by the OpenAI SDK delivers: the
    chunks, then the end of the stream or an error. *)
Record ChunkStream := mkChunkStream {
  chunks : list value;
  chunks_failure : option thrown
}.

(** What [reader.read()] delivers call after call: the byte chunks, then
    [done] or a rejection. *)
Record Reader := mkReader {
  reads : list (list byte);
  read_failure : option thrown
}.

Record Response := mkResponse {
  ok : bool;
  statusText : string;
  json : completion value;
  body : option Reader
}.

Record Request := mkRequest {
  url : string;
  method : string;
  headers : list (string * string);
  request_body : ChatParams
}.

(** One entry of the [history] given to the Gemini SDK's [startChat]. *)
Record GeminiContent := mkGeminiContent {
  gemini_role : Role;
  parts : string
}.

(** [import.meta.env] *)
Class Env := {
  VITE_DEEPSEEK_API_ENDPOINT : string;
  VITE_DEEPSEEK_API_KEY : string
}.

(** The three upstream providers, as seen from the calls the adapter
    makes.  [openai_create] is [openai.chat.completions.create] without
    [stream], [openai_create_stream] the same call with [stream: true];
    [gemini_chat model history message] is the whole exchange with the
    Gemini SDK ([getGenerativeModel], [startChat], [sendMessage], the
    awaited [response] and its [text()]), any step of which may throw. *)
Class Providers := {
  openai_create : ChatParams -> completion value;
  openai_create_stream : ChatParams -> completion ChunkStream;
  gemini_chat : string -> list GeminiContent -> string -> completion string;
  fetch : Request -> completion Response
}.

Definition fallback : string :=
  "I apologize, but I encountered an error processing your request.".

(** [error instanceof Error ? error.message : 'Unknown error occurred'] *)
Definition error_message (e : thrown) : string :=
  match e with
  | ErrorObject message => message
  | Thrown _ => "Unknown error occurred"
  end.

Definition chat_message_of_turn (t : Turn) : ChatMessage :=
  mkChatMessage (Role_text (turn_role t)) (turn_content t).

(** [[{ role: 'system', ... }, ...conversationHistory, { role: 'user',
    content: message }]] *)
Definition chat_messages (message : string) (conversationHistory : list Turn)
  : list ChatMessage :=
  mkChatMessage "system" "You are a helpful AI assistant."
  :: map chat_message_of_turn conversationHistory
  ++ [mkChatMessage "user" message].

Definition chat_params (model_name : string) (message : string)
           (conversationHistory : list Turn) (stream_flag : option bool) : ChatParams :=
  mkChatParams model_name (chat_messages message conversationHistory)
               (7 # 10) 1000 stream_flag.

(** The catch block of the three single-shot functions. *)
Definition error_response (e : thrown) : completion AIResponse :=
  Normal (mkAIResponse (VStr fallback) (Some (error_message e))).

(** The catch block of the two streaming paths. *)
Definition error_snapshot (e : thrown) : AIStreamResponse :=
  mkAIStreamResponse (VStr fallback) true (Some (error_message e)).

Section WithWorld.
Context {engine : Engine} {env : Env} {providers : Providers}.

Definition generateOpenAIResponse (message : string)
           (conversationHistory : list Turn) : completion AIResponse :=
  try_catch
    (completion <-
       openai_create (chat_params "gpt-3.5-turbo" message conversationHistory None) ;;
     choices <- get completion "choices" ;;
     choice <- get_first choices ;;
     msg <- get choice "message" ;;
     c <- get msg "content" ;;
     ret (mkAIResponse (or_else c (VStr "")) None))
    error_response.

Definition generateGeminiResponse (message : string)
           (conversationHistory : list Turn) : completion AIResponse :=
  try_catch
    (t <- gemini_chat "gemini-pro"
            (map (fun msg => mkGeminiContent (turn_role msg) (turn_content msg))
                 conversationHistory)
            message ;;
     ret (mkAIResponse (VStr t) None))
    error_response.

Definition deepseek_request (message : string) (conversationHistory : list Turn)
           (stream_flag : option bool) : Request :=
  mkRequest VITE_DEEPSEEK_API_ENDPOINT "POST"
            [ ("Content-Type", "application/json");
              ("Authorization", ("Bearer " ++ VITE_DEEPSEEK_API_KEY)%string) ]
            (chat_params "deepseek-chat" message conversationHistory stream_flag).

Definition generateDeepseekResponse (message : string)
           (conversationHistory : list Turn) : completion AIResponse :=
  try_catch
    (response <- fetch (deepseek_request message conversationHistory None) ;;
     (if negb (ok response)
      then Throw (ErrorObject ("Deepseek API error: " ++ statusText response)%string)
      else ret tt) ;;
     data <- json response ;;
     choices <- get data "choices" ;;
     choice <- get_first choices ;;
     msg <- get choice "message" ;;
     c <- get msg "content" ;;
     ret (mkAIResponse c None))
    error_response.

(** The body of [for (const line of lines)]: the accumulator goes in and
    comes out. *)
Definition deepseek_line (accumulatedContent : string) (line : string)
  : Gen AIStreamResponse string :=
  if startsWith line "data: " then
    data <- await (parse (slice line 6)) ;;
    choices <- await (get data "choices") ;;
    choice <- await (get_first choices) ;;
    delta <- await (get choice "delta") ;;
    c <- await (get delta "content") ;;
    let accumulatedContent' := append_value accumulatedContent (or_else c (VStr "")) in
    yield (mkAIStreamResponse (VStr accumulatedContent') false None) ;;
    ret accumulatedContent'
  else ret accumulatedContent.

Fixpoint deepseek_lines (accumulatedContent : string) (lines : list string)
  : Gen AIStreamResponse string :=
  match lines with
  | [] => ret accumulatedContent
  | line :: rest =>
      accumulatedContent' <- deepseek_line accumulatedContent line ;;
      deepseek_lines accumulatedContent' rest
  end.

(** [chunk.split('\n').filter(line => line.trim() !== '')] *)
Definition lines_of_chunk (chunk : string) : list string :=
  filter (fun line => negb (trim line =? "")%string) (split_lines chunk).

(** The [while (true)] loop over [reader.read()]. *)
Fixpoint deepseek_read_loop (rs : list (list byte)) (failure : option thrown)
         (accumulatedContent : string) : Gen AIStreamResponse string :=
  match rs with
  | [] =>
      match failure with
      | Some e => await (Throw e)
      | None => ret accumulatedContent
      end
  | value :: rest =>
      let chunk := TextDecoder_decode value in
      accumulatedContent' <- deepseek_lines accumulatedContent (lines_of_chunk chunk) ;;
      deepseek_read_loop rest failure accumulatedContent'
  end.

(** The [try] block of [streamDeepseekResponse]. *)
Definition streamDeepseekResponse_try (message : string)
           (conversationHistory : list Turn) : Gen AIStreamResponse unit :=
  response <- await (fetch (deepseek_request message conversationHistory (Some true))) ;;
  (if negb (ok response)
   then await (Throw (ErrorObject ("Deepseek API error: " ++ statusText response)%string))
   else ret tt) ;;
  reader <- match body response with
            | Some reader => ret reader
            | None => await (Throw (ErrorObject "Response body is not readable"))
            end ;;
  accumulatedContent <- deepseek_read_loop (reads reader) (read_failure reader) "" ;;
  yield (mkAIStreamResponse (VStr accumulatedContent) true None).

Definition streamDeepseekResponse (message : string)
           (conversationHistory : list Turn) : Gen AIStreamResponse unit :=
  gen_try_catch (streamDeepseekResponse_try message conversationHistory)
                (fun e => yield (error_snapshot e)).

Definition generateAIResponse (message : string) (model_id : string)
           (conversationHistory : list Turn) : completion AIResponse :=
  if (model_id =? "gemini")%string then
    generateGeminiResponse message conversationHistory
  else if (model_id =? "deepseek-chat")%string then
    generateDeepseekResponse message conversationHistory
  else
    generateOpenAIResponse message conversationHistory.

(** The body of [for await (const chunk of stream)]. *)
Definition openai_chunk (accumulatedContent : string) (chunk : value)
  : Gen AIStreamResponse string :=
  choices <- await (get chunk "choices") ;;
  choice <- await (get_first choices) ;;
  delta <- await (get_opt choice "delta") ;;
  c <- await (get_opt delta "content") ;;
  let accumulatedContent' := append_value accumulatedContent (or_else c (VStr "")) in
  yield (mkAIStreamResponse (VStr accumulatedContent') false None) ;;
  ret accumulatedContent'.

Fixpoint openai_chunks (cs : list value) (failure : option thrown)
         (accumulatedContent : string) : Gen AIStreamResponse string :=
  match cs with
  | [] =>
      match failure with
      | Some e => await (Throw e)
      | None => ret accumulatedContent
      end
  | chunk :: rest =>
      accumulatedContent' <- openai_chunk accumulatedContent chunk ;;
      openai_chunks rest failure accumulatedContent'
  end.

(** The [try] block of the [default] case of [streamAIResponse]. *)
Definition streamOpenAIResponse_try (message : string)
           (conversationHistory : list Turn) : Gen AIStreamResponse unit :=
  s <- await (openai_create_stream
                (chat_params "gpt-3.5-turbo" message conversationHistory (Some true))) ;;
  accumulatedContent <- openai_chunks (chunks s) (chunks_failure s) "" ;;
  yield (mkAIStreamResponse (VStr accumulatedContent) true None).

(** The [default] case of [streamAIResponse]. *)
Definition streamOpenAIResponse (message : string)
           (conversationHistory : list Turn) : Gen AIStreamResponse unit :=
  gen_try_catch (streamOpenAIResponse_try message conversationHistory)
                (fun e => yield (error_snapshot e)).

Definition streamAIResponse (message : string) (model_id : string)
           (conversationHistory : list Turn) : Gen AIStreamResponse unit :=
  if (model_id =? "gemini")%string then
    response <- await (generateGeminiResponse message conversationHistory) ;;
    yield (mkAIStreamResponse (content response) true (error response))
  else if (model_id =? "deepseek-chat")%string then
    streamDeepseekResponse message conversationHistory
  else
    streamOpenAIResponse message conversationHistory.

(** *** The marked lines the Deepseek adapter sees, read by read *)

(** The non-blank lines of one read that carry the marker.  A line of the
    upstream's text that a read boundary cuts is seen as two lines, one at
    the end of a read and one at the start of the next; what the upstream
    sent as a whole is [Upstream.frames_sent]. *)
Definition frames_of_chunk (value : list byte) : list string :=
  filter (fun line => startsWith line "data: ")
         (lines_of_chunk (TextDecoder_decode value)).

Definition frames (rs : list (list byte)) : list string :=
  flat_map frames_of_chunk rs.

(** What a frame carries: its payload parsed and the delta read from
    it, [''] standing in for a missing or empty one. *)
Definition frame_content (frame : string) : completion value :=
  data <- parse (slice frame 6) ;;
  choices <- get data "choices" ;;
  choice <- get_first choices ;;
  delta <- get choice "delta" ;;
  c <- get delta "content" ;;
  ret (or_else c (VStr "")).

(** The text a frame contributes to the accumulator, converted as [+=]
    converts it. *)
Definition frame_delta (frame : string) : completion string :=
  v <- frame_content frame ;;
  ret (append_value "" v).

(** What a chunk of the OpenAI stream carries. *)
Definition chunk_content (chunk : value) : completion value :=
  choices <- get chunk "choices" ;;
  choice <- get_first choices ;;
  delta <- get_opt choice "delta" ;;
  c <- get_opt delta "content" ;;
  ret (or_else c (VStr "")).

(** [data.choices[0].message.content] *)
Definition message_content (data : value) : completion value :=
  choices <- get data "choices" ;;
  choice <- get_first choices ;;
  msg <- get choice "message" ;;
  get msg "content".

(** *** What "the upstream failed" means *)

(** The exchange with the provider selected by [model_id] in single-shot
    mode: the content of the completion, or what was thrown on the
    way (the call rejected, the status was not a success, the payload
    did not have the expected shape). *)
Definition single_shot_exchange (message : string) (model_id : string)
           (conversationHistory : list Turn) : completion value :=
  if (model_id =? "gemini")%string then
    t <- gemini_chat "gemini-pro"
           (map (fun msg => mkGeminiContent (turn_role msg) (turn_content msg))
                conversationHistory)
           message ;;
    ret (VStr t)
  else if (model_id =? "deepseek-chat")%string then
    response <- fetch (deepseek_request message conversationHistory None) ;;
    if ok response
    then data <- json response ;; message_content data
    else Throw (ErrorObject ("Deepseek API error: " ++ statusText response)%string)
  else
    completion <-
      openai_create (chat_params "gpt-3.5-turbo" message conversationHistory None) ;;
    c <- message_content completion ;;
    ret (or_else c (VStr "")).

(** The failure of a streaming exchange, if there is one: what the
    guarded block of the selected provider's path throws. *)
Definition stream_failure (message : string) (model_id : string)
           (conversationHistory : list Turn) : option thrown :=
  let thrown_by {A} (c : completion A) : option thrown :=
    match c with
    | Throw e => Some e
    | Normal _ => None
    end in
  if (model_id =? "gemini")%string then
    thrown_by (single_shot_exchange message model_id conversationHistory)
  else if (model_id =? "deepseek-chat")%string then
    thrown_by (outcome (streamDeepseekResponse_try message conversationHistory))
  else
    thrown_by (outcome (streamOpenAIResponse_try message conversationHistory)).

End WithWorld.

(** The snapshot yielded inside the loops for the accumulated text [t]. *)
Definition snap (t : string) : AIStreamResponse :=
  mkAIStreamResponse (VStr t) false None.

(** The snapshots expected for the deltas [ds] on top of the text [acc]:
    one per delta, each carrying all the text so far. *)
Fixpoint running (acc : string) (ds : list string) : list AIStreamResponse :=
  match ds with
  | [] => []
  | d :: rest =>
      mkAIStreamResponse (VStr (acc ++ d)%string) false None
      :: running (acc ++ d)%string rest
  end.

(** [a + b + c + ...] *)
Definition concat_all (ds : list string) : string :=
  fold_left String.append ds "".

(** The text of a snapshot, when its content is a string. *)
Definition snapshot_text (s : AIStreamResponse) : option string :=
  match stream_content s with
  | VStr t => Some t
  | _ => None
  end.

(** A snapshot that is not the last one: not done, no error. *)
Definition partial (s : AIStreamResponse) : Prop :=
  done s = false /\ stream_error s = None.

(** Each snapshot's text starts with the text of the one before. *)
Fixpoint extends_previous (prev : string) (ss : list AIStreamResponse) : Prop :=
  match ss with
  | [] => True
  | s :: rest =>
      match snapshot_text s with
      | Some t => String.prefix prev t = true /\ extends_previous t rest
      | None => False
      end
  end.

End Ai.

(** ** A small engine and sample upstreams, to run the adapter on concrete
       inputs *)

Module Demo.
Import Types JS Ai.

(** A reader for the fragment of JSON the sample frames are written in:
    objects, arrays, strings with the two-character escapes, integers,
    [true], [false] and [null].  Anything else is reported as a syntax
    error. *)
Definition is_json_space (c : ascii) : bool :=
  let n := nat_of_ascii c in
  (n =? 32)%nat || (n =? 9)%nat || (n =? 10)%nat || (n =? 13)%nat.

Fixpoint skip_space (s : string) : string :=
  match s with
  | String c rest => if is_json_space c then skip_space rest else s
  | EmptyString => s
  end.

Definition quote : ascii := "034"%char.
Definition backslash : ascii := "092"%char.

Definition unescape (c : ascii) : option ascii :=
  if (c =? quote)%char then Some quote
  else if (c =? backslash)%char then Some backslash
  else if (c =? "/")%char then Some "/"%char
  else if (c =? "n")%char then Some "010"%char
  else if (c =? "t")%char then Some "009"%char
  else if (c =? "r")%char then Some "013"%char
  else if (c =? "b")%char then Some "008"%char
  else if (c =? "f")%char then Some "012"%char
  else None.

(** The characters after an opening quote, up to the closing one. *)
Fixpoint read_string (s : string) : option (string * string) :=
  match s with
  | EmptyString => None
  | String c rest =>
      if (c =? quote)%char then Some (EmptyString, rest)
      else if (c =? backslash)%char then
        match rest with
        | String e rest' =>
            match unescape e, read_string rest' with
            | Some c', Some (body, after) => Some (String c' body, after)
            | _, _ => None
            end
        | EmptyString => None
        end
      else if (nat_of_ascii c <? 32)%nat then None
      else match read_string rest with
           | Some (body, after) => Some (String c body, after)
           | None => None
           end
  end.

Definition digit (c : ascii) : option Z :=
  let n := nat_of_ascii c in
  if ((48 <=? n)%nat && (n <=? 57)%nat)%bool then Some (Z.of_nat (n - 48)) else None.

Fixpoint read_digits (acc : Z) (s : string) : Z * string :=
  match s with
  | String c rest =>
      match digit c with
      | Some d => read_digits (10 * acc + d)%Z rest
      | None => (acc, s)
      end
  | EmptyString => (acc, s)
  end.

Definition read_number (negative : bool) (s : string) : option (value * string) :=
  match s with
  | String c rest =>
      match digit c with
      | Some d =>
          let '(n, after) :=
            if (d =? 0)%Z then (0%Z, rest) else read_digits d rest in
          match after with
          | String c' _ =>
              if ((c' =? ".")%char || (c' =? "e")%char || (c' =? "E")%char
                  || match digit c' with Some _ => true | None => false end)%bool
              then None
              else Some (VNum (inject_Z (if negative then - n else n)), after)
          | EmptyString =>
              Some (VNum (inject_Z (if negative then - n else n)), after)
          end
      | None => None
      end
  | EmptyString => None
  end.

Fixpoint set_property (k : string) (v : value) (fields : list (string * value))
  : list (string * value) :=
  match fields with
  | [] => [(k, v)]
  | (k', v') :: rest =>
      if (k' =? k)%string then (k, v) :: rest else (k', v') :: set_property k v rest
  end.

Fixpoint read_value (fuel : nat) (s : string) : option (value * string) :=
  match fuel with
  | O => None
  | S fuel' =>
      match skip_space s with
      | String c rest =>
          if (c =? "{")%char then
            match skip_space rest with
            | String c' rest' =>
                if (c' =? "}")%char then Some (VObj [], rest')
                else read_members fuel' [] rest
            | EmptyString => None
            end
          else if (c =? "[")%char then
            match skip_space rest with
            | String c' rest' =>
                if (c' =? "]")%char then Some (VArr [], rest')
                else read_items fuel' [] rest
            | EmptyString => None
            end
          else if (c =? quote)%char then
            match read_string rest with
            | Some (body, after) => Some (VStr body, after)
            | None => None
            end
          else if (c =? "-")%char then read_number true rest
          else if String.prefix "true" (String c rest) then Some (VBool true, slice rest 3)
          else if String.prefix "false" (String c rest) then Some (VBool false, slice rest 4)
          else if String.prefix "null" (String c rest) then Some (VNull, slice rest 3)
          else read_number false (String c rest)
      | EmptyString => None
      end
  end

with read_members (fuel : nat) (seen : list (string * value)) (s : string)
  : option (value * string) :=
  match fuel with
  | O => None
  | S fuel' =>
      match skip_space s with
      | String c rest =>
          if (c =? quote)%char then
            match read_string rest with
            | Some (key, after) =>
                match skip_space after with
                | String c' after' =>
                    if (c' =? ":")%char then
                      match read_value fuel' after' with
                      | Some (v, after'') =>
                          let seen' := set_property key v seen in
                          match skip_space after'' with
                          | String c'' more =>
                              if (c'' =? ",")%char then read_members fuel' seen' more
                              else if (c'' =? "}")%char then Some (VObj seen', more)
                              else None
                          | EmptyString => None
                          end
                      | None => None
                      end
                    else None
                | EmptyString => None
                end
            | None => None
            end
          else None
      | EmptyString => None
      end
  end

with read_items (fuel : nat) (seen : list value) (s : string)
  : option (value * string) :=
  match fuel with
  | O => None
  | S fuel' =>
      match read_value fuel' s with
      | Some (v, after) =>
          match skip_space after with
          | String c more =>
              if (c =? ",")%char then read_items fuel' (seen ++ [v]) more
              else if (c =? "]")%char then Some (VArr (seen ++ [v]), more)
              else None
          | EmptyString => None
          end
      | None => None
      end
  end.

Definition read_json (text : string) : parsed :=
  match read_value (2 * String.length text + 2) text with
  | Some (v, after) =>
      match skip_space after with
      | EmptyString => Parsed v
      | String _ _ => SyntaxError "Unexpected non-whitespace character after JSON"
      end
  | None => SyntaxError "Unexpected token in JSON"
  end.

Definition decimal (z : Z) : string := NilEmpty.string_of_int (Z.to_int z).

(** String conversion of the values the sample payloads can hold. *)
Fixpoint to_string (v : value) : string :=
  match v with
  | VUndefined => "undefined"
  | VNull => "null"
  | VBool true => "true"
  | VBool false => "false"
  | VNum q => decimal (Qnum q / Zpos (Qden q))
  | VStr s => s
  | VArr items =>
      String.concat ","
        (map (fun item => if nullish item then EmptyString else to_string item) items)
  | VObj _ => "[object Object]"
  end.

#[export] Instance engine : Engine := {
  JSON_parse := read_json;
  TextDecoder_decode := string_of_list_byte;
  ToString := to_string;
  TypeError_message := fun v name =>
    ("Cannot read properties of " ++ to_string v ++ " (reading '" ++ name ++ "')")%string
}.

#[export] Instance env : Env := {
  VITE_DEEPSEEK_API_ENDPOINT := "https://api.deepseek.com/v1/chat/completions";
  VITE_DEEPSEEK_API_KEY := "sk-test"
}.

(** Sample texts are written with ['] where JSON has a double quote. *)
Fixpoint json_text (s : string) : string :=
  match s with
  | EmptyString => EmptyString
  | String c rest =>
      String (if (c =? "'")%char then quote else c) (json_text rest)
  end.

Definition bytes (s : string) : list byte := list_byte_of_string (json_text s).

Definition offline {A} : completion A := Throw (ErrorObject "Failed to fetch").

(** An upstream whose Deepseek endpoint answers with the given response
    and whose other providers are unreachable. *)
Definition deepseek_answers (r : completion Response) : Providers := {|
  openai_create := fun _ => offline;
  openai_create_stream := fun _ => offline;
  gemini_chat := fun _ _ _ => offline;
  fetch := fun _ => r
|}.

Definition streaming_body (rs : list (list byte)) (failure : option thrown) : Response :=
  mkResponse true "OK" offline (Some (mkReader rs failure)).

(** The scenario of the specification: two frames with the deltas [Hi]
    and [ there], then the upstream closes the stream. *)
Definition hi_there_reads : list (list byte) :=
  [ bytes "data: {'choices':[{'delta':{'content':'Hi'}}]}
";
    bytes "
data: {'choices':[{'index':0,'delta':{'content':' there'}}]}

" ].

Definition hi_there : Providers :=
  deepseek_answers (Normal (streaming_body hi_there_reads None)).

(** The same two frames followed by the end marker of the provider. *)
Definition hi_there_DONE : Providers :=
  deepseek_answers
    (Normal (streaming_body (hi_there_reads ++ [bytes "data: [DONE]
"]) None)).

(** The connection drops after the first frame. *)
Definition hi_then_drop : Providers :=
  deepseek_answers
    (Normal (streaming_body [bytes "data: {'choices':[{'delta':{'content':'Hi'}}]}
"] (Some (ErrorObject "network error")))).

Definition bad_gateway : Providers :=
  deepseek_answers (Normal (mkResponse false "Bad Gateway" offline None)).

(** An OpenAI stream of two chunks that ends normally, and one that breaks
    after the first chunk. *)
Definition delta_chunk (text : string) : value :=
  VObj [("choices", VArr [VObj [("delta", VObj [("content", VStr text)])]])].

Definition openai_streams (s : completion ChunkStream) : Providers := {|
  openai_create := fun _ =>
    Normal (VObj [("choices",
                   VArr [VObj [("message", VObj [("content", VStr "Hello!")])]])]);
  openai_create_stream := fun _ => s;
  gemini_chat := fun _ _ _ => Normal "Bonjour";
  fetch := fun _ => offline
|}.

Definition openai_ok : Providers :=
  openai_streams (Normal (mkChunkStream [delta_chunk "Hi"; delta_chunk " there"] None)).

Definition openai_breaks : Providers :=
  openai_streams
    (Normal (mkChunkStream [delta_chunk "Hi"] (Some (ErrorObject "Connection error.")))).

End Demo.

(** ** The managed store: the tables, constraints and row-level policies of
       the initial migration *)

Module Db.

Definition uuid := string.
Definition timestamptz := string.

Record profiles_row := mk_profile {
  profile_id : uuid;
  profile_email : string;
  profile_created_at : timestamptz;
  profile_updated_at : timestamptz
}.

Record conversations_row := mk_conversation {
  id : uuid;
  title : string;
  user_id : uuid;
  model : string;
  created_at : timestamptz;
  updated_at : timestamptz;
  last_message : option string
}.

Record messages_row := mk_message {
  message_id : uuid;
  conversation_id : uuid;
  content : string;
  role : string;
  file_url : option string;
  message_created_at : timestamptz;
  message_updated_at : timestamptz
}.

(** The [error] of an answer of the store client: a statement refused by
    the database, or a request that got no answer. *)
Inductive PostgrestError :=
| row_level_security (table : string)
| not_null_violation (table column : string)
| foreign_key_violation (table column : string)
| check_violation (table constraint : string)
| request_failed (message : string).

(** [gen_random_uuid()] and [now()], as functions of the number of
    statements executed so far. *)
Class Server := {
  gen_random_uuid : nat -> uuid;
  now : nat -> timestamptz
}.

(** The store as a client sees it: the three tables, the user of the
    session the client holds ([auth.uid()], [None] for the anonymous role),
    the number of statements executed, and what happens to the requests to
    come: [Some e] for a request that fails with [e] before it reaches the
    database, [None] (or nothing left) for one that goes through.  The
    store client does not throw: a failed request is answered with an
    [error]. *)
Record Database := mk_database {
  profiles : list profiles_row;
  conversations : list conversations_row;
  messages : list messages_row;
  session : option uuid;
  statements : nat;
  transport : list (option PostgrestError)
}.

(** The [{ data, error }] answer of a request. *)
Inductive answer (A : Type) :=
| data (a : A)
| error (e : PostgrestError).
Arguments data {A} a.
Arguments error {A} e.

Definition with_tables (db : Database) (cs : list conversations_row)
           (ms : list messages_row) : Database :=
  mk_database (profiles db) cs ms (session db) (S (statements db)) (transport db).

(** A request leaves the client: the next entry of [transport] decides
    whether it reaches the database. *)
Definition send (db : Database) : option PostgrestError * Database :=
  match transport db with
  | [] => (None, db)
  | fault :: rest =>
      (fault,
       mk_database (profiles db) (conversations db) (messages db) (session db)
                   (statements db) rest)
  end.

(** [auth.uid() = user_id], for a possibly null [user_id]; no row passes
    for the anonymous role, the policies being granted [TO authenticated]. *)
Definition is_session_user (db : Database) (u : option uuid) : bool :=
  match session db, u with
  | Some uid, Some u' => (uid =? u')%string
  | _, _ => false
  end.

Definition has_profile (db : Database) (u : uuid) : bool :=
  existsb (fun p => (profile_id p =? u)%string) (profiles db).

(** [EXISTS (SELECT 1 FROM conversations WHERE conversations.id = c AND
    conversations.user_id = auth.uid())] *)
Definition owns_conversation (db : Database) (c : uuid) : bool :=
  existsb (fun row => (id row =? c)%string && is_session_user db (Some (user_id row)))
          (conversations db).

Section WithServer.
Context {server : Server}.

(** [INSERT INTO conversations (title, model, user_id) ... RETURNING *]:
    the policy's [WITH CHECK], then [NOT NULL], then the foreign key to
    [profiles]; [id], [created_at] and [updated_at] take their defaults and
    [last_message] is null. *)
Definition insert_conversation (new_title new_model : string) (new_user_id : option uuid)
           (db : Database) : Database * answer conversations_row :=
  match send db with
  | (Some e, db) => (db, error e)
  | (None, db) =>
      if negb (is_session_user db new_user_id) then
        (db, error (row_level_security "conversations"))
      else
        match new_user_id with
        | None => (db, error (not_null_violation "conversations" "user_id"))
        | Some u =>
            if negb (has_profile db u) then
              (db, error (foreign_key_violation "conversations" "user_id"))
            else
              let row := mk_conversation (gen_random_uuid (statements db))
                                         new_title u new_model
                                         (now (statements db)) (now (statements db))
                                         None in
              (with_tables db (conversations db ++ [row]) (messages db), data row)
        end
  end.

(** [INSERT INTO messages (conversation_id, content, role, file_url) ...
    RETURNING *]: the policy's [WITH CHECK], then the [CHECK] on [role];
    the foreign key to [conversations] holds whenever the policy does. *)
Definition insert_message (new_conversation_id : uuid) (new_content new_role : string)
           (new_file_url : option string) (db : Database)
  : Database * answer messages_row :=
  match send db with
  | (Some e, db) => (db, error e)
  | (None, db) =>
      if negb (owns_conversation db new_conversation_id) then
        (db, error (row_level_security "messages"))
      else if negb ((new_role =? "user")%string || (new_role =? "assistant")%string) then
        (db, error (check_violation "messages" "messages_role_check"))
      else
        let row := mk_message (gen_random_uuid (statements db))
                              new_conversation_id new_content new_role new_file_url
                              (now (statements db)) (now (statements db)) in
        (with_tables db (conversations db) (messages db ++ [row]), data row)
  end.

(** What [UPDATE conversations SET last_message = text WHERE id = c] does to
    one row: the rows the policy lets the session see and that have the id
    are updated, and the trigger refreshes [updated_at]. *)
Definition touch (db : Database) (c : uuid) (text : string)
           (row : conversations_row) : conversations_row :=
  if (id row =? c)%string && is_session_user db (Some (user_id row)) then
    mk_conversation (id row) (title row) (user_id row) (model row)
                    (created_at row) (now (statements db)) (Some text)
  else row.

Definition update_last_message (c : uuid) (text : string) (db : Database)
  : Database * answer unit :=
  match send db with
  | (Some e, db) => (db, error e)
  | (None, db) =>
      (with_tables db (map (touch db c text) (conversations db)) (messages db), data tt)
  end.

(** [supabase.auth.getUser()], reduced to [data.user?.id]. *)
Definition auth_getUser_id (db : Database) : option uuid := session db.

End WithServer.

End Db.

(** ** The conversation relay: [createConversation] and [sendMessage] *)

Module Api.
Import Types Db.

(** How a call of the relay ends for its caller. *)
Inductive result (A : Type) :=
| returns (a : A)
| throws (e : PostgrestError).
Arguments returns {A} a.
Arguments throws {A} e.

(** The order in which the two requests of [sendMessage], issued together,
    reach the store. *)
Inductive arrival := insert_first | update_first.

(** The error classes of the specification. *)
Inductive ErrorClass :=
| AuthRequired
| AuthFailed
| ValidationError
| StoreError
| ProviderError
| TimeoutError.

(** Modelled from the spec: the error taxonomy of the specification is not
    in the code; there a store error is "any failure from the managed
    backend, including authorization denial", which is what every
    [PostgrestError] is. *)
Definition error_class (e : PostgrestError) : ErrorClass := StoreError.

Section WithServer.
Context {server : Server}.

Definition createConversation (new_title new_model : string) (db : Database)
  : Database * result conversations_row :=
  let user := auth_getUser_id db in
  match insert_conversation new_title new_model user db with
  | (db', error e) => (db', throws e)
  | (db', data row) => (db', returns row)
  end.

(** [await Promise.all([messagePromise, updatePromise])]: both requests are
    sent, and both answers are awaited. *)
Definition sendMessage_requests (order : arrival) (conversationId content : string)
           (role : Role) (fileUrl : option string) (db : Database)
  : Database * answer messages_row * answer unit :=
  match order with
  | insert_first =>
      let (db1, messageResult) :=
        insert_message conversationId content (Role_text role) fileUrl db in
      let (db2, updateResult) := update_last_message conversationId content db1 in
      (db2, messageResult, updateResult)
  | update_first =>
      let (db1, updateResult) := update_last_message conversationId content db in
      let (db2, messageResult) :=
        insert_message conversationId content (Role_text role) fileUrl db1 in
      (db2, messageResult, updateResult)
  end.

Definition sendMessage (order : arrival) (conversationId content : string)
           (role : Role) (fileUrl : option string) (db : Database)
  : Database * result messages_row :=
  let '(db', messageResult, updateResult) :=
    sendMessage_requests order conversationId content role fileUrl db in
  match messageResult, updateResult with
  | error e, _ => (db', throws e)
  | data _, error e => (db', throws e)
  | data row, data _ => (db', returns row)
  end.

(** What a message row inserted for the given arguments looks like: the
    columns given by the client as given, the others assigned by the
    server. *)
Definition inserted_message (conversationId text : string) (r : Role)
           (fileUrl : option string) (row : messages_row) : Prop :=
  conversation_id row = conversationId
  /\ content row = text
  /\ role row = Role_text r
  /\ file_url row = fileUrl
  /\ exists n, message_id row = gen_random_uuid n
               /\ message_created_at row = now n
               /\ message_updated_at row = now n.

End WithServer.

(** What the update has done: the same conversations in the same order,
    and [last_message] set in those with the given id that the session
    owns. *)
Definition last_message_set (who : option uuid) (conversationId text : string)
           (before after : list conversations_row) : Prop :=
  map id after = map id before
  /\ map user_id after = map user_id before
  /\ Forall (fun row => id row = conversationId -> who = Some (user_id row) ->
                        last_message row = Some text) after.

(** Sample data: a server that numbers its rows, a store where [u1] has a
    profile and one conversation, seen with and without a session. *)
#[export] Instance server : Server := {
  gen_random_uuid := fun n => ("row-" ++ Demo.decimal (Z.of_nat n))%string;
  now := fun n => ("t" ++ Demo.decimal (Z.of_nat n))%string
}.

Definition sample_tables (who : option uuid) (faults : list (option PostgrestError))
  : Database :=
  mk_database [mk_profile "u1" "alice@example.org" "t0" "t0"]
              [mk_conversation "c1" "New Chat" "u1" "gpt-3.5-turbo" "t1" "t1" None]
              [] who 2 faults.

Definition signed_in : Database := sample_tables (Some "u1") [].
Definition signed_out : Database := sample_tables None [].

(** The insert goes through and the update gets no answer, and the other
    way round. *)
Definition update_lost : Database :=
  sample_tables (Some "u1") [None; Some (request_failed "TypeError: Failed to fetch")].

Definition insert_lost : Database :=
  sample_tables (Some "u1") [Some (request_failed "TypeError: Failed to fetch"); None].

Definition both_lost : Database :=
  sample_tables (Some "u1") [Some (request_failed "insert"); Some (request_failed "update")].

End Api.

(** ** src/lib/auth.ts: [signUp] and [signIn] *)

Module Auth.
Import JS.

Record AuthUser := mkAuthUser {
  auth_user_id : string;
  auth_user_email : string
}.

(** The [data] of an answer of the authentication service. *)
Record AuthData := mkAuthData {
  auth_user : option AuthUser;
  auth_session : option string
}.

(** The [{ data, error }] answer; [error] is an [Error] with a message. *)
Record AuthAnswer := mkAuthAnswer {
  answer_data : AuthData;
  answer_error : option string
}.

(** A request sent to the authentication service. *)
Inductive AuthRequest :=
| signUp_request (email password emailRedirectTo : string)
| signInWithPassword_request (email password : string).

(** A request the handlers send to the store; its answer is not looked
    at. *)
Inductive StoreRequest :=
| insert_profile (id email : string).

(** The promise held in the module variable [authRequest]: its identity and
    the request whose answer settles it. *)
Record Pending := mkPending {
  promise : nat;
  request : AuthRequest
}.

(** The state of the module and of its surroundings: the variable
    [authRequest], the requests sent to the authentication service so far,
    oldest first, and the number of promises created. *)
Record Module_state := mkState {
  authRequest : option Pending;
  sent : list AuthRequest;
  created : nat
}.

Definition idle : Module_state := mkState None [] 0.

(** What the caller of [signUp] or [signIn] holds: a promise rejected with
    the error thrown by the function body, or a promise resolved with the
    promise [authRequest], which settles as that one does. *)
Inductive Returned :=
| rejected (e : thrown)
| follows (p : nat).

(** [!s] on a string *)
Definition is_empty (s : string) : bool := (s =? "")%string.

(** [window.location.origin] *)
Class Browser := {
  window_location_origin : string
}.

Section WithBrowser.
Context {browser : Browser}.

(** The start of a request: the promise chain is built and stored in
    [authRequest]. *)
Definition start (r : AuthRequest) (m : Module_state) : Module_state * Returned :=
  (mkState (Some (mkPending (created m) r)) (sent m ++ [r]) (S (created m)),
   follows (created m)).

Definition signUp (email password : string) (m : Module_state)
  : Module_state * Returned :=
  if is_empty email || is_empty password then
    (m, rejected (ErrorObject "Email and password are required"))
  else if (utf16_length password <? 6)%nat then
    (m, rejected (ErrorObject "Password must be at least 6 characters long"))
  else
    match authRequest m with
    | Some pending => (m, follows (promise pending))
    | None => start (signUp_request email password window_location_origin) m
    end.

Definition signIn (email password : string) (m : Module_state)
  : Module_state * Returned :=
  if is_empty email || is_empty password then
    (m, rejected (ErrorObject "Email and password are required"))
  else
    match authRequest m with
    | Some pending => (m, follows (promise pending))
    | None => start (signInWithPassword_request email password) m
    end.

(** The [then] callback of [signUp]: how the promise settles, and what it
    sends to the store on the way. *)
Definition signUp_then (a : AuthAnswer) : completion AuthData * list StoreRequest :=
  match answer_error a with
  | Some message =>
      if includes message "already registered" then
        (Throw (ErrorObject "This email is already registered. Please sign in instead."),
         [])
      else (Throw (ErrorObject message), [])
  | None =>
      match auth_user (answer_data a) with
      | Some u =>
          (Normal (answer_data a), [insert_profile (auth_user_id u) (auth_user_email u)])
      | None => (Normal (answer_data a), [])
      end
  end.

(** The [then] callback of [signIn]. *)
Definition signIn_then (a : AuthAnswer) : completion AuthData * list StoreRequest :=
  match answer_error a with
  | Some message =>
      if includes message "Invalid login credentials" then
        (Throw (ErrorObject "Invalid email or password. Please try again."), [])
      else (Throw (ErrorObject message), [])
  | None => (Normal (answer_data a), [])
  end.

(** The authentication service answers, or the call to it rejects: the
    pending promise, if there is one, settles through the callback of the
    function that created it, and the [finally] callback resets
    [authRequest]. *)
Definition settle (a : completion AuthAnswer) (m : Module_state)
  : Module_state * option (nat * completion AuthData * list StoreRequest) :=
  match authRequest m with
  | None => (m, None)
  | Some pending =>
      let '(how, requests) :=
        match a with
        | Throw e => (Throw e, [])
        | Normal answer =>
            match request pending with
            | signUp_request _ _ _ => signUp_then answer
            | signInWithPassword_request _ _ => signIn_then answer
            end
        end in
      (mkState None (sent m) (created m), Some (promise pending, how, requests))
  end.

(** A call made by the application. *)
Inductive Call :=
| call_signUp (email password : string)
| call_signIn (email password : string).

Definition call (c : Call) (m : Module_state) : Module_state * Returned :=
  match c with
  | call_signUp email password => signUp email password m
  | call_signIn email password => signIn email password m
  end.

(** Calls made one after the other with no answer arriving in between:
    the state they leave and what each caller holds. *)
Fixpoint calls (cs : list Call) (m : Module_state) : Module_state * list Returned :=
  match cs with
  | [] => (m, [])
  | c :: rest =>
      let (m1, r) := call c m in
      let (m2, rs) := calls rest m1 in
      (m2, r :: rs)
  end.

(** The error with which the argument checks of a call reject it, if they
    do. *)
Definition refused (c : Call) : option thrown :=
  match c with
  | call_signUp email password =>
      if is_empty email || is_empty password then
        Some (ErrorObject "Email and password are required")
      else if (utf16_length password <? 6)%nat then
        Some (ErrorObject "Password must be at least 6 characters long")
      else None
  | call_signIn email password =>
      if is_empty email || is_empty password then
        Some (ErrorObject "Email and password are required")
      else None
  end.

(** The request a call sends when it is the one that starts the exchange. *)
Definition request_of (c : Call) : AuthRequest :=
  match c with
  | call_signUp email password => signUp_request email password window_location_origin
  | call_signIn email password => signInWithPassword_request email password
  end.



End WithBrowser.

#[export] Instance browser : Browser := {
  window_location_origin := "https://chat.example.org"
}.

(** Sample data: a sign-in is in flight. *)
Definition in_flight : Module_state :=
  fst (signIn "alice@example.org" "secret1" idle).

End Auth.

(** ** The zustand store (second half of src/lib/auth.ts) *)

Module Store.
Import Types.

Record ChatStore := mkChatStore {
  user : option User;
  conversations : list Conversation;
  currentConversation : option Conversation;
  messages : list Message;
  selectedModel : string;
  isDarkMode : bool;
  isAuthenticated : bool
}.

(** The initial state passed to [create]. *)
Definition initial : ChatStore :=
  mkChatStore None [] None [] "gpt-3.5-turbo" false false.

(** One key of the object literal handed to zustand's [set]. *)
Inductive Assign :=
| assign_user (u : option User)
| assign_conversations (cs : list Conversation)
| assign_currentConversation (c : option Conversation)
| assign_messages (ms : list Message)
| assign_selectedModel (m : string)
| assign_isDarkMode (b : bool)
| assign_isAuthenticated (b : bool).

Definition assign (s : ChatStore) (a : Assign) : ChatStore :=
  match a with
  | assign_user u =>
      mkChatStore u (conversations s) (currentConversation s) (messages s)
                  (selectedModel s) (isDarkMode s) (isAuthenticated s)
  | assign_conversations cs =>
      mkChatStore (user s) cs (currentConversation s) (messages s)
                  (selectedModel s) (isDarkMode s) (isAuthenticated s)
  | assign_currentConversation c =>
      mkChatStore (user s) (conversations s) c (messages s)
                  (selectedModel s) (isDarkMode s) (isAuthenticated s)
  | assign_messages ms =>
      mkChatStore (user s) (conversations s) (currentConversation s) ms
                  (selectedModel s) (isDarkMode s) (isAuthenticated s)
  | assign_selectedModel m =>
      mkChatStore (user s) (conversations s) (currentConversation s) (messages s)
                  m (isDarkMode s) (isAuthenticated s)
  | assign_isDarkMode b =>
      mkChatStore (user s) (conversations s) (currentConversation s) (messages s)
                  (selectedModel s) b (isAuthenticated s)
  | assign_isAuthenticated b =>
      mkChatStore (user s) (conversations s) (currentConversation s) (messages s)
                  (selectedModel s) (isDarkMode s) b
  end.

(** zustand's [set(partial)]: the partial object, possibly computed from
    the current state, is merged key by key into the state; this is one
    state change, after which the listeners are notified once. *)
Definition set (partial : ChatStore -> list Assign) (s : ChatStore) : ChatStore :=
  fold_left assign (partial s) s.

(** [!!user] on [User | null] *)
Definition truthy_user (u : option User) : bool :=
  match u with Some _ => true | None => false end.

Definition setUser (u : option User) : ChatStore -> ChatStore :=
  set (fun _ => [assign_user u; assign_isAuthenticated (truthy_user u)]).

Definition setConversations (cs : list Conversation) : ChatStore -> ChatStore :=
  set (fun _ => [assign_conversations cs]).

Definition setCurrentConversation (c : option Conversation) : ChatStore -> ChatStore :=
  set (fun _ => [assign_currentConversation c]).

Definition setMessages (ms : list Message) : ChatStore -> ChatStore :=
  set (fun _ => [assign_messages ms]).

Definition addMessage (message : Message) : ChatStore -> ChatStore :=
  set (fun state =>
    [ assign_messages (messages state ++ [message]);
      assign_conversations
        (map (fun conv =>
                if (conv_id conv =? msg_conversation_id message)%string
                then with_last_message conv (msg_content message)
                else conv)
             (conversations state)) ]).

Definition setSelectedModel (m : string) : ChatStore -> ChatStore :=
  set (fun _ => [assign_selectedModel m]).

Definition toggleDarkMode : ChatStore -> ChatStore :=
  set (fun state => [assign_isDarkMode (negb (isDarkMode state))]).

Definition setIsAuthenticated (value : bool) : ChatStore -> ChatStore :=
  set (fun _ => [assign_isAuthenticated value]).

(** A handler that calls several setters performs that many state
    changes, one after the other; [trace] lists every state the store
    goes through, the last one being the state the handler leaves. *)
Definition run (ts : list (ChatStore -> ChatStore)) (s : ChatStore) : ChatStore :=
  fold_left (fun st t => t st) ts s.

Fixpoint trace (ts : list (ChatStore -> ChatStore)) (s : ChatStore) : list ChatStore :=
  match ts with
  | [] => []
  | t :: ts' => t s :: trace ts' (t s)
  end.

(** The [SIGNED_OUT] branch of the [onAuthStateChange] handler of the
    application component (src/types/index.ts). *)
Definition on_SIGNED_OUT : list (ChatStore -> ChatStore) :=
  [ setUser None;
    setIsAuthenticated false;
    setCurrentConversation None;
    setMessages [];
    setConversations [] ].

(** What "the user is logged out" means for the state: the five fields of
    the logout transition of the specification are all cleared. *)
Definition logged_out (s : ChatStore) : Prop :=
  user s = None /\ isAuthenticated s = false /\ currentConversation s = None
  /\ messages s = [] /\ conversations s = [].

(** The content of the last message of [ms] that belongs to conversation
    [cid], if there is one. *)
Definition last_content_for (cid : string) (ms : list Message) : option string :=
  fold_left (fun acc m =>
               if (cid =? msg_conversation_id m)%string
               then Some (msg_content m) else acc)
            ms None.

(** The function [addMessage] maps over the conversation list. *)
Definition refresh (cid text : string) (conv : Conversation) : Conversation :=
  if (conv_id conv =? cid)%string then with_last_message conv text else conv.

(** The cache entry [conv] is expected to carry once the messages [ms]
    were appended in order: the content of the last of them that belongs
    to [conv], and the entry it had before when none does. *)
Definition cached (ms : list Message) (conv : Conversation) : option string :=
  match last_content_for (conv_id conv) ms with
  | Some text => Some text
  | None => conv_last_message conv
  end.

(** Sample data: a signed-in state with two conversations and one
    message, and a message arriving for the first conversation. *)
Definition alice : User := mkUser "u1" "alice@example.org" "2024-01-01".

Definition chat1 : Conversation :=
  mkConversation "c1" "New Chat" "u1" "gpt-3.5-turbo" "2024-01-02" None.

Definition chat2 : Conversation :=
  mkConversation "c2" "Plans" "u1" "gemini" "2024-01-03" (Some "See you").

Definition hello : Message :=
  mkMessage "m1" "c1" "Hello" role_user "2024-01-02" None.

Definition reply : Message :=
  mkMessage "m2" "c1" "Hi there" role_assistant "2024-01-02" None.

Definition signed_in : ChatStore :=
  mkChatStore (Some alice) [chat1; chat2] (Some chat1) [hello]
              "gpt-3.5-turbo" true true.

End Store.

(** ** More on the streams of src/lib/ai.ts: what the loops keep *)

Module Snapshots.
Import Types JS Ai.
Local Open Scope js_scope.

(** The snapshot yielded after the loops, for the accumulated text [t]. *)
Definition final_snapshot (t : string) : AIStreamResponse :=
  mkAIStreamResponse (VStr t) true None.

(** The text of the last snapshot of [ss], and [acc] when there is none
    (nothing was appended to the accumulator yet). *)
Definition last_text (acc : string) (ss : list AIStreamResponse) : option string :=
  last (map snapshot_text ss) (Some acc).

(** How a [read] loop ends once the chunks are consumed. *)
Definition end_of_stream (failure : option thrown) (acc : string)
  : Gen AIStreamResponse string :=
  match failure with
  | Some e => await (Throw e)
  | None => ret acc
  end.

(** A loop that starts with the accumulator [acc]: what it yields grows
    from [acc], and when it ends normally its result is the text of the
    last snapshot. *)
Definition grows_from (acc : string) (g : Gen AIStreamResponse string) : Prop :=
  extends_previous acc (yielded g)
  /\ forall acc', outcome g = Normal acc' -> last_text acc (yielded g) = Some acc'.

Section WithEngine.
Context {engine : Engine}.

(** The text a chunk of the OpenAI stream contributes to the accumulator. *)
Definition chunk_delta (chunk : value) : completion string :=
  v <- chunk_content chunk ;;
  ret (append_value "" v).

End WithEngine.

End Snapshots.

(** ** More sample upstreams *)

Module Samples.
Import Types JS Ai Demo.

(** The two frames of [hi_there] sent as one chunk, with a comment line and
    an event line between them. *)
Definition hi_there_one_chunk : Providers :=
  deepseek_answers
    (Normal (streaming_body
               [ bytes ": keep-alive
data: {'choices':[{'delta':{'content':'Hi'}}]}
event: message
data: {'choices':[{'index':0,'delta':{'content':' there'}}]}
" ] None)).

(** A chunk of the OpenAI stream that has no choice, as the last chunk of
    a stream that reports usage. *)
Definition no_choice : value := VObj [("choices", VArr []); ("usage", VObj [])].

End Samples.

(** ** Reading from the store: [getConversations], [getMessages] (the relay)
       and [getCurrentUser] (src/lib/auth.ts) *)

Module Reads.
Import Types Db Api.

(** The order of [timestamptz] values, as [ORDER BY] compares them. *)
Class Chronology := {
  not_after : timestamptz -> timestamptz -> bool
}.

(** [ORDER BY]: the rows sorted with respect to [leb]; rows with equal keys
    come in some order, here the one of the table. *)
Fixpoint insert_ordered {A} (leb : A -> A -> bool) (x : A) (l : list A) : list A :=
  match l with
  | [] => [x]
  | y :: rest => if leb x y then x :: l else y :: insert_ordered leb x rest
  end.

Definition order_by {A} (leb : A -> A -> bool) (l : list A) : list A :=
  fold_right (insert_ordered leb) [] l.

(** Why [.single()] has no row to give: the statement did not select
    exactly one row, or the request failed. *)
Inductive SingleError :=
| not_a_single_row
| failed (e : PostgrestError).

(** The [{ data, error }] answer of a request that ends with [.single()]. *)
Inductive single_answer (A : Type) :=
| found (a : A)
| nothing (e : SingleError).
Arguments found {A} a.
Arguments nothing {A} e.

(** The rows of [profiles] the policy [auth.uid() = id] lets the session
    read. *)
Definition readable_profiles (db : Database) : list profiles_row :=
  filter (fun p => is_session_user db (Some (profile_id p))) (profiles db).

(** The rows of [conversations] the policy [auth.uid() = user_id] lets the
    session read. *)
Definition readable_conversations (db : Database) : list conversations_row :=
  filter (fun c => is_session_user db (Some (user_id c))) (conversations db).

(** The rows of [messages] the policy lets the session read: those of the
    conversations it owns. *)
Definition readable_messages (db : Database) : list messages_row :=
  filter (fun m => owns_conversation db (conversation_id m)) (messages db).

(** [supabase.from('profiles').select('*').eq('id', wanted).single()] *)
Definition select_profile (wanted : uuid) (db : Database)
  : Database * single_answer profiles_row :=
  match send db with
  | (Some e, db) => (db, nothing (failed e))
  | (None, db) =>
      match filter (fun p => (profile_id p =? wanted)%string) (readable_profiles db) with
      | [p] => (db, found p)
      | _ => (db, nothing not_a_single_row)
      end
  end.

Section WithChronology.
Context {chronology : Chronology}.

Definition getConversations (db : Database)
  : Database * result (list conversations_row) :=
  match send db with
  | (Some e, db) => (db, throws e)
  | (None, db) =>
      (db, returns (order_by (fun a b => not_after (updated_at b) (updated_at a))
                             (readable_conversations db)))
  end.

Definition getMessages (conversationId : string) (db : Database)
  : Database * result (list messages_row) :=
  match send db with
  | (Some e, db) => (db, throws e)
  | (None, db) =>
      (db, returns (order_by (fun a b => not_after (message_created_at a)
                                                   (message_created_at b))
                             (filter (fun m => (conversation_id m =? conversationId)%string)
                                     (readable_messages db))))
  end.

End WithChronology.

(** [getCurrentUser]: [null] without a session, before anything is asked
    of the store; [null] when the profile cannot be read; the profile
    otherwise. *)
Definition getCurrentUser (db : Database) : Database * option profiles_row :=
  match auth_getUser_id db with
  | None => (db, None)
  | Some uid =>
      match select_profile uid db with
      | (db', nothing _) => (db', None)
      | (db', found profile) => (db', Some profile)
      end
  end.

(** Sample data: timestamps compared as strings. *)
#[export] Instance chronology : Chronology := {
  not_after := String.leb
}.

Definition two_messages : Database :=
  mk_database [mk_profile "u1" "alice@example.org" "t0" "t0";
               mk_profile "u2" "bob@example.org" "t0" "t0"]
              [mk_conversation "c1" "New Chat" "u1" "gpt-3.5-turbo" "t1" "t5" (Some "Hi");
               mk_conversation "c2" "Plans" "u2" "gemini" "t2" "t4" None;
               mk_conversation "c3" "Notes" "u1" "gemini" "t3" "t6" None]
              [mk_message "m2" "c1" "Hi" "assistant" None "t5" "t5";
               mk_message "m3" "c2" "Secret" "user" None "t4" "t4";
               mk_message "m1" "c1" "Hello" "user" None "t4" "t4"]
              (Some "u1") 6 [].

End Reads.

(** ** What the schema of the migration guarantees *)

Module Schema.
Import Types Db.

(** The foreign keys and the [CHECK] of the migration, as facts about the
    tables: every message belongs to a conversation of the table, every
    conversation to a user with a profile, and every role is one of the two
    admitted. *)
Definition references_hold (db : Database) : Prop :=
  Forall (fun m => In (conversation_id m) (map id (conversations db))) (messages db)
  /\ Forall (fun c => has_profile db (user_id c) = true) (conversations db)
  /\ Forall (fun m => role m = "user" \/ role m = "assistant") (messages db).

(** The rows of the other users: the conversations the session does not
    own, and the messages of those conversations. *)
Definition foreign_conversation (db : Database) (c : conversations_row) : Prop :=
  session db <> Some (user_id c).

End Schema.

(** ** Series of writes of the relay *)

Module Writes.
Import Types Db Api.

(** A call of one of the two writing functions of the relay. *)
Inductive Write :=
| create (new_title new_model : string)
| send_message (order : arrival) (conversationId text : string) (r : Role)
               (fileUrl : option string).

Section WithServer.
Context {server : Server}.

(** The store after the call, whether it returned or threw. *)
Definition write (w : Write) (db : Database) : Database :=
  match w with
  | create new_title new_model => fst (createConversation new_title new_model db)
  | send_message order conversationId text r fileUrl =>
      fst (sendMessage order conversationId text r fileUrl db)
  end.

Definition writes (ws : list Write) (db : Database) : Database :=
  fold_left (fun d w => write w d) ws db.

End WithServer.

End Writes.

(** ** The application component (src/types/index.ts, after the types) *)

Module App.
Import Types JS.

(** *** [generateTitle] *)

(** [s.split(sep)] for a one-character separator. *)
Fixpoint split_on (sep : ascii) (s : string) : list string :=
  match s with
  | EmptyString => [EmptyString]
  | String c rest =>
      if (c =? sep)%char then EmptyString :: split_on sep rest
      else match split_on sep rest with
           | [] => [String c EmptyString]
           | piece :: pieces => String c piece :: pieces
           end
  end.

Definition generateTitle (content : string) : string :=
  let words := firstn 4 (split_on " " content) in
  (String.concat " " words
   ++ (if (4 <=? List.length words)%nat then "..." else ""))%string.

(** *** [validateForm] and the call [handleAuth] makes *)

(** [None] when the form is valid; otherwise the message given to
    [setError]. *)
Definition validateForm (email password : string) (isRegistering : bool)
  : option string :=
  if (trim email =? "")%string then Some "Email is required"
  else if (trim password =? "")%string then Some "Password is required"
  else if isRegistering && (utf16_length password <? 6)%nat then
    Some "Password must be at least 6 characters long"
  else None.

(** The call in the [try] block of [handleAuth]. *)
Definition auth_call (email password : string) (isRegistering : bool) : Auth.Call :=
  if isRegistering then Auth.call_signUp (trim email) password
  else Auth.call_signIn (trim email) password.

(** [handleAuth] up to its call: nothing is called for an invalid form. *)
Definition handleAuth_call {browser : Auth.Browser} (email password : string)
           (isRegistering : bool) (m : Auth.Module_state)
  : Auth.Module_state * option Auth.Returned :=
  match validateForm email password isRegistering with
  | Some _ => (m, None)
  | None =>
      let (m', r) := Auth.call (auth_call email password isRegistering) m in
      (m', Some r)
  end.

(** *** The loop of [handleSendMessage] over the stream *)

(** What the loop writes: the text shown while streaming, the local
    [finalContent], and the error banner ([None] for the [''] set before
    the loop). *)
Record Reply := mkReply {
  streamingContent : value;
  finalContent : value;
  banner : option string
}.

Definition no_reply : Reply := mkReply (VStr "") (VStr "") None.

(** [if (chunk.error)] on [string | undefined] *)
Definition truthy_text (e : option string) : bool :=
  match e with
  | Some s => negb (s =? "")%string
  | None => false
  end.

(** [for await (const chunk of stream) { ... }], with its [break]. *)
Fixpoint consume (chunks : list Ai.AIStreamResponse) (st : Reply) : Reply :=
  match chunks with
  | [] => st
  | chunk :: rest =>
      let shown := if Ai.done chunk then VStr "" else Ai.stream_content chunk in
      let final := if Ai.done chunk then Ai.stream_content chunk else finalContent st in
      if truthy_text (Ai.stream_error chunk) then
        mkReply shown final (Some "Failed to get AI response. Please try again.")
      else consume rest (mkReply shown final (banner st))
  end.

(** [if (finalContent)]: what is sent to [sendMessage] as the assistant's
    message, if anything. *)
Definition reply_to_save (st : Reply) : option value :=
  if truthy (finalContent st) then Some (finalContent st) else None.

(** *** [handleNewChat] *)

(** [data as Conversation]: the row as the client types it. *)
Definition Conversation_of_row (row : Db.conversations_row) : Conversation :=
  mkConversation (Db.id row) (Db.title row) (Db.user_id row) (Db.model row)
                 (Db.created_at row) (Db.last_message row).

(** The component state the handlers below write. *)
Record Screen := mkScreen {
  showAuthModal : bool;
  error : string
}.

(** The handler runs with the values of the last render, which are those
    of the store when it is called; no other event is handled while it
    awaits the relay. *)
Definition handleNewChat {server : Db.Server}
           (db : Db.Database) (store : Store.ChatStore) (screen : Screen)
  : Db.Database * Store.ChatStore * Screen :=
  if negb (Store.isAuthenticated store) then
    (db, store, mkScreen true (error screen))
  else
    match Api.createConversation "New Chat" (Store.selectedModel store) db with
    | (db', Api.returns row) =>
        let newConversation := Conversation_of_row row in
        (db',
         Store.run [ Store.setCurrentConversation (Some newConversation);
                     Store.setConversations (newConversation :: Store.conversations store);
                     Store.setMessages [] ] store,
         screen)
    | (db', Api.throws _) =>
        (db', store,
         mkScreen (showAuthModal screen) "Failed to create new chat. Please try again.")
    end.

(** *** The store transitions of the effect that runs on mount *)

(** The callback given to [getCurrentUser().then]. *)
Definition on_mount (u : option User) : list (Store.ChatStore -> Store.ChatStore) :=
  [ Store.setUser u; Store.setIsAuthenticated (Store.truthy_user u) ].

(** The [SIGNED_IN] branch of the [onAuthStateChange] handler, for the
    [profile] the store answered ([None] for [null]). *)
Definition on_SIGNED_IN (profile : option User)
  : list (Store.ChatStore -> Store.ChatStore) :=
  [ Store.setUser profile; Store.setIsAuthenticated true ].

(** The flag and the user agree. *)
Definition consistent (s : Store.ChatStore) : Prop :=
  Store.isAuthenticated s = Store.truthy_user (Store.user s).

(** A call of one of the setters that do not write the flag alone. *)
Inductive Setter :=
| set_user (u : option User)
| set_conversations (cs : list Conversation)
| set_current (c : option Conversation)
| set_messages (ms : list Message)
| add_message (m : Message)
| set_model (m : string)
| toggle_dark.

Definition setter (a : Setter) : Store.ChatStore -> Store.ChatStore :=
  match a with
  | set_user u => Store.setUser u
  | set_conversations cs => Store.setConversations cs
  | set_current c => Store.setCurrentConversation c
  | set_messages ms => Store.setMessages ms
  | add_message m => Store.addMessage m
  | set_model m => Store.setSelectedModel m
  | toggle_dark => Store.toggleDarkMode
  end.

End App.

(** ** Series of calls and answers of src/lib/auth.ts *)

Module AuthTrace.
Import JS Auth.

(** What happens to the module: a call of [signUp] or [signIn], or the
    arrival of the answer of the authentication service. *)
Inductive Event :=
| made (c : Call)
| answered (a : completion AuthAnswer).

Section WithBrowser.
Context {browser : Browser}.

Definition step (e : Event) (m : Module_state) : Module_state :=
  match e with
  | made c => fst (call c m)
  | answered a => fst (settle a m)
  end.

Definition after (es : list Event) (m : Module_state) : Module_state :=
  fold_left (fun m e => step e m) es m.

(** The number of answers of [es] that settled a pending promise. *)
Fixpoint settled (es : list Event) (m : Module_state) : nat :=
  match es with
  | [] => 0
  | e :: rest =>
      match e, authRequest m with
      | answered _, Some _ => S (settled rest (step e m))
      | _, _ => settled rest (step e m)
      end
  end.

End WithBrowser.

(** The requests sent and the promises created correspond, and the
    pending promise, if any, is the last one created, for the last request
    sent. *)
Definition well_formed (m : Module_state) : Prop :=
  created m = List.length (sent m)
  /\ forall pending,
       authRequest m = Some pending ->
       S (promise pending) = created m
       /\ nth_error (sent m) (promise pending) = Some (request pending).

Definition pending_count (m : Module_state) : nat :=
  match authRequest m with
  | Some _ => 1
  | None => 0
  end.

End AuthTrace.

(** ** [handleSendMessage] of the application component *)

Module Chat.
Import Types JS.

(** The component state the handler writes. *)
Record Composer := mkComposer {
  messageInput : string;
  isSending : bool;
  streamingContent : value;
  error : string
}.

Definition failed_to_send : string := "Failed to send message. Please try again.".

(** [messages.map(msg => ({ role: msg.role, content: msg.content }))] *)
Definition history_of (messages : list Message) : list Ai.Turn :=
  map (fun msg => Ai.mkTurn (msg_role msg) (msg_content msg)) messages.

(** [for await (const chunk of stream) { ... }] as a whole: the loop ends
    at the [break], or when the generator returns; it throws when the
    generator throws before a [break]. *)
Definition for_await (stream : Gen Ai.AIStreamResponse unit) : completion App.Reply :=
  if existsb (fun chunk => App.truthy_text (Ai.stream_error chunk)) (yielded stream)
  then Normal (App.consume (yielded stream) App.no_reply)
  else match outcome stream with
       | Normal _ => Normal (App.consume (yielded stream) App.no_reply)
       | Throw e => Throw e
       end.

(** [conversations.map(conv => conv.id === updatedConv.id ? updatedConv :
    conv)] *)
Definition replace_conversation (updatedConv : Conversation) (conv : Conversation)
  : Conversation :=
  if (conv_id conv =? conv_id updatedConv)%string then updatedConv else conv.

Section WithWorld.
Context {engine : Engine} {env : Ai.Env} {providers : Ai.Providers}
        {server : Db.Server}.

(** What [UPDATE conversations SET title = t WHERE id = c] does to one
    row: as for [last_message], the policy decides which rows are seen and
    the trigger refreshes [updated_at]. *)
Definition retitle (db : Db.Database) (c : Db.uuid) (t : string)
           (row : Db.conversations_row) : Db.conversations_row :=
  if (Db.id row =? c)%string && Db.is_session_user db (Some (Db.user_id row)) then
    Db.mk_conversation (Db.id row) t (Db.user_id row) (Db.model row)
                       (Db.created_at row) (Db.now (Db.statements db))
                       (Db.last_message row)
  else row.

(** [supabase.from('conversations').update({ title }).eq('id', c).select()
    .single()]: the updated row when exactly one row was updated; otherwise
    the answer is an error and nothing is changed (no row, or, were it not
    for the primary key, several rows, for which the store undoes the
    statement). *)
Definition update_title (c : Db.uuid) (t : string) (db : Db.Database)
  : Db.Database * Reads.single_answer Db.conversations_row :=
  match Db.send db with
  | (Some e, db) => (db, Reads.nothing (Reads.failed e))
  | (None, db) =>
      match filter (fun row => (Db.id row =? c)%string
                               && Db.is_session_user db (Some (Db.user_id row)))
                   (Db.conversations db) with
      | [row] =>
          (Db.with_tables db (map (retitle db c t) (Db.conversations db)) (Db.messages db),
           Reads.found (retitle db c t row))
      | _ => (db, Reads.nothing Reads.not_a_single_row)
      end
  end.

(** The block [if (messages.length === 0) { ... }]: the title is set from
    the text when the store holds no message; the error of the update is
    not looked at. *)
Definition title_first_message (currentConversation : Conversation) (text : string)
           (db : Db.Database) (store : Store.ChatStore)
  : Db.Database * Store.ChatStore :=
  match Store.messages store with
  | [] =>
      match update_title (conv_id currentConversation) (App.generateTitle text) db with
      | (db', Reads.found row) =>
          let updatedConv := App.Conversation_of_row row in
          (db',
           Store.run [ Store.setConversations
                         (map (replace_conversation updatedConv)
                              (Store.conversations store));
                       Store.setCurrentConversation (Some updatedConv) ] store)
      | (db', Reads.nothing _) => (db', store)
      end
  | _ :: _ => (db, store)
  end.

(** The rest of the [try] block: the stream is consumed and the final
    text, when there is one, is sent as the assistant's message.  The
    result is [None] where the text to save is not a string, for which the
    request that would be sent is not modelled. *)
Definition stream_and_save (second : Api.arrival) (currentConversation : Conversation)
           (text : string) (messages : list Message)
           (db : Db.Database) (store : Store.ChatStore)
  : option (Db.Database * Store.ChatStore * Composer) :=
  match for_await (Ai.streamAIResponse text (conv_model currentConversation)
                                       (history_of messages)) with
  | Throw _ => Some (db, store, mkComposer "" false (VStr "") failed_to_send)
  | Normal reply =>
      let shown := match App.banner reply with
                   | Some message => message
                   | None => ""
                   end in
      match App.reply_to_save reply with
      | None => Some (db, store, mkComposer "" false (VStr "") shown)
      | Some (VStr finalContent) =>
          match Api.sendMessage second (conv_id currentConversation)
                                finalContent role_assistant None db with
          | (db', Api.throws _) =>
              Some (db', store, mkComposer "" false (VStr "") failed_to_send)
          | (db', Api.returns _) =>
              Some (db', store, mkComposer "" false (VStr "") shown)
          end
      | Some _ => None
      end
  end.

(** The handler, run with the values of the render in which it was
    created, which are those of [store] and [ui]; [first] and [second] are
    the orders in which the requests of its two [sendMessage] calls reach
    the store.  No other client writes to the store meanwhile.  Every
    request to the store and every read of the provider's stream settles:
    a run in which one of them stays pending for ever is not a run of this
    definition, and nothing is said here about how long a run takes. *)
Definition handleSendMessage (first second : Api.arrival)
           (db : Db.Database) (store : Store.ChatStore) (ui : Composer)
  : option (Db.Database * Store.ChatStore * Composer) :=
  let text := trim (messageInput ui) in
  match Store.currentConversation store with
  | None => Some (db, store, ui)
  | Some currentConversation =>
      if (text =? "")%string || negb (Store.isAuthenticated store) then
        Some (db, store, ui)
      else
        match Api.sendMessage first (conv_id currentConversation) text role_user None db with
        | (db1, Api.throws _) =>
            Some (db1, store, mkComposer (messageInput ui) false (VStr "") failed_to_send)
        | (db1, Api.returns _) =>
            let (db2, store2) := title_first_message currentConversation text db1 store in
            stream_and_save second currentConversation text (Store.messages store)
                            db2 store2
        end
  end.

End WithWorld.

(** What the handler may add to [messages]: nothing; the user's message;
    or the user's message and then the assistant's. *)
Inductive exchange (c : Db.uuid) (text : string) : list Db.messages_row -> Prop :=
| nothing_stored : exchange c text []
| question_stored (q : Db.messages_row) :
    Db.conversation_id q = c -> Db.role q = "user" -> Db.content q = text ->
    exchange c text [q]
| both_stored (q a : Db.messages_row) :
    Db.conversation_id q = c -> Db.role q = "user" -> Db.content q = text ->
    Db.conversation_id a = c -> Db.role a = "assistant" -> Db.content a <> "" ->
    exchange c text [q; a].

(** What no request of the handler changes: the profiles, the session,
    and which conversations there are and whose they are. *)
Definition same_frame (db db' : Db.Database) : Prop :=
  Db.profiles db' = Db.profiles db
  /\ Db.session db' = Db.session db
  /\ map Db.id (Db.conversations db') = map Db.id (Db.conversations db)
  /\ map Db.user_id (Db.conversations db') = map Db.user_id (Db.conversations db).

(** Sample data: the user types a question in the conversation [c1]. *)
Definition typed (input : string) : Composer := mkComposer input false (VStr "") "".

Definition chatting : Store.ChatStore :=
  Store.mkChatStore (Some Store.alice) [Store.chat1] (Some Store.chat1) []
                    "gpt-3.5-turbo" false true.

End Chat.

(** ** What the upstream sent, and what it means that it failed *)

Module Upstream.
Import Types JS Ai.
Local Open Scope js_scope.

Section WithEngine.
Context {engine : Engine}.

(** The text of a response body as a whole: the text of its reads, one
    after the other. *)
Definition text_sent (reader : Reader) : string :=
  fold_right String.append "" (map TextDecoder_decode (reads reader)).

(** The event frames the upstream sent: the lines of the whole text that
    carry the marker, wherever the reads cut the text. *)
Definition frames_sent (reader : Reader) : list string :=
  filter (fun line => startsWith line "data: ") (split_lines (text_sent reader)).

(** A read that ends where a line ends (or is empty). *)
Definition whole_lines (value : list byte) : Prop :=
  TextDecoder_decode value = ""
  \/ exists body, TextDecoder_decode value = (body ++ String "010" "")%string.




End WithEngine.

(** Sample data.  The two frames of [Demo.hi_there], with the reads cut
    inside the marker of the second frame, and inside its payload. *)
Definition cut_in_marker_reads : list (list byte) :=
  [ Demo.bytes "data: {'choices':[{'delta':{'content':'Hi'}}]}
da";
    Demo.bytes "ta: {'choices':[{'delta':{'content':' there'}}]}
" ].

Definition cut_in_payload_reads : list (list byte) :=
  [ Demo.bytes "data: {'choices':[{'delta':{'content':'Hi'}}]}
data: {'choices':[{'del";
    Demo.bytes "ta':{'content':' there'}}]}
" ].

Definition whole_reads : list (list byte) :=
  [ Demo.bytes "data: {'choices':[{'delta':{'content':'Hi'}}]}
";
    Demo.bytes "data: {'choices':[{'delta':{'content':' there'}}]}
" ].

Definition cut_in_marker : Providers :=
  Demo.deepseek_answers (Normal (Demo.streaming_body cut_in_marker_reads None)).

Definition cut_in_payload : Providers :=
  Demo.deepseek_answers (Normal (Demo.streaming_body cut_in_payload_reads None)).

(** A provider whose client rejects with a plain object that has a
    [message] but is not an [Error]. *)
Definition rejects_with_plain_object : Providers := {|
  openai_create := fun _ =>
    Throw (Thrown (VObj [("message", VStr "Rate limit reached"); ("status", VNum 429)]));
  openai_create_stream := fun _ => Demo.offline;
  gemini_chat := fun _ _ _ => Demo.offline;
  fetch := fun _ => Demo.offline
|}.

End Upstream.

(* ================================================================== *)
(** * Part II: properties *)
(* ================================================================== *)

(** ** The string functions and the sample engine on concrete inputs *)

Section EngineExamples.
Import JS Demo.

Example split_lines_keeps_empty_pieces :
  split_lines "a

b
" = ["a"; ""; "b"; ""]
  /\ split_lines "" = [""].
Proof. split; reflexivity. Qed.

Example trim_both_ends : trim "  a b
" = "a b" /\ trim "   " = "".
Proof. split; reflexivity. Qed.

(** A no-break space, an ideographic space and a byte order mark are
    white space; a text of such characters only is blank. *)
Example trim_unicode_spaces :
  trim (text_of_bytes [194; 160]%nat) = ""
  /\ trim (text_of_bytes [227; 128; 128]%nat ++ "a b"
           ++ text_of_bytes [226; 128; 168; 32]%nat)%string
     = "a b"
  /\ trim (text_of_bytes [239; 187; 191; 9; 194; 160]%nat) = ""
  /\ trim (text_of_bytes [194; 161]%nat) = text_of_bytes [194; 161]%nat.
Proof. repeat split. Qed.

(** Three letters e with an acute accent are three characters in six
    bytes; a character outside the basic plane counts for two. *)
Example length_counts_code_units :
  utf16_length (text_of_bytes [195; 169; 195; 169; 195; 169]%nat) = 3%nat
  /\ String.length (text_of_bytes [195; 169; 195; 169; 195; 169]%nat) = 6%nat
  /\ utf16_length (text_of_bytes [240; 159; 152; 128]%nat) = 2%nat
  /\ utf16_length "secret" = 6%nat.
Proof. repeat split. Qed.

Example slice_after_marker :
  startsWith "data: {}" "data: " = true
  /\ slice "data: {}" 6 = "{}"
  /\ startsWith "data:{}" "data: " = false.
Proof. repeat split. Qed.

Example includes_substring :
  includes "User already registered" "already registered" = true
  /\ includes "Email not confirmed" "Invalid login credentials" = false.
Proof. split; reflexivity. Qed.

Example read_json_frame :
  read_json (json_text "{'choices':[{'index':0,'delta':{'content':'Hi'}}]}")
  = Parsed (VObj [("choices",
                   VArr [VObj [("index", VNum 0);
                               ("delta", VObj [("content", VStr "Hi")])]])]).
Proof. reflexivity. Qed.

Example read_json_end_marker :
  read_json "[DONE]" = SyntaxError "Unexpected token in JSON".
Proof. reflexivity. Qed.

(** A delta that is absent, null or empty contributes nothing; a payload
    without [choices] is a [TypeError]. *)
Example content_or_empty :
  or_else VUndefined (VStr "") = VStr ""
  /\ or_else VNull (VStr "") = VStr ""
  /\ or_else (VStr "") (VStr "") = VStr ""
  /\ or_else (VStr "Hi") (VStr "") = VStr "Hi".
Proof. repeat split. Qed.

Example payload_without_choices :
  Ai.frame_content (json_text "data: {'error':'overloaded'}")
  = Throw (ErrorObject "Cannot read properties of undefined (reading '0')").
Proof. reflexivity. Qed.

End EngineExamples.

(** ** The model response adapter *)

Section GeneratorLaws.
Import JS.
Context {Y : Type}.

Lemma gen_bind_normal {A B} (ys : list Y) (a : A) (k : A -> Gen Y B) :
  bind (M := Gen Y) (ys, Normal a) k = (ys ++ yielded (k a), outcome (k a)).
Proof. cbn. destruct (k a); reflexivity. Qed.

Lemma gen_bind_throw {A B} (ys : list Y) (e : thrown) (k : A -> Gen Y B) :
  bind (M := Gen Y) (ys, Throw e) k = (ys, Throw e).
Proof. reflexivity. Qed.

Lemma gen_bind_await {A B} (c : completion A) (k : A -> Gen Y B) :
  bind (await c) k
  = match c with
    | Normal a => k a
    | Throw e => ([], Throw e)
    end.
Proof. destruct c as [a|e]; cbn; [destruct (k a)|]; reflexivity. Qed.

Lemma gen_bind_ret {A B} (a : A) (k : A -> Gen Y B) :
  bind (ret a) k = k a.
Proof. cbn. destruct (k a); reflexivity. Qed.

End GeneratorLaws.

Section AdapterProperties.
Import Types JS Ai.
Local Open Scope js_scope.
Context {engine : Engine} {env : Env} {providers : Providers}.

(** ** Blank lines *)

(** A text that [trim_start_reversed] empties holds no ASCII byte other
    than white space. *)
Lemma trim_start_reversed_empty (n : nat) (s : string) :
  (String.length s <= n)%nat ->
  trim_start_reversed s = "" ->
  forall c, In c (list_ascii_of_string s) -> space1 c = true \/ (128 <= code c)%nat.
Proof.
  revert s. induction n as [|n IH]; intros s Hn He c Hin.
  { destruct s; [destruct Hin | cbn in Hn; lia]. }
  destruct s as [|a [|b [|d rest]]]; cbn [trim_start_reversed] in He.
  - destruct Hin.
  - destruct (space1 a) eqn:Ha; [|discriminate He].
    destruct Hin as [<-|[]]. now left.
  - cbn [String.length] in Hn.
    destruct (space1 a) eqn:Ha.
    + destruct Hin as [<-|Hin]; [now left|].
      apply (IH (String b "")); [cbn; lia | exact He | exact Hin].
    + destruct (space2 b a) eqn:Hab; [|discriminate He].
      unfold space2 in Hab. apply andb_true_iff in Hab. destruct Hab as [Hb Hc].
      apply Nat.eqb_eq in Hb, Hc.
      destruct Hin as [<-|[<-|[]]]; right; lia.
  - cbn [String.length] in Hn.
    destruct (space1 a) eqn:Ha.
    + destruct Hin as [<-|Hin]; [now left|].
      apply (IH (String b (String d rest))); [cbn; lia | exact He | exact Hin].
    + destruct (space2 b a) eqn:Hab.
      * unfold space2 in Hab. apply andb_true_iff in Hab. destruct Hab as [Hb Hc].
        apply Nat.eqb_eq in Hb, Hc.
        destruct Hin as [<-|[<-|Hin]]; [right; lia | right; lia|].
        apply (IH (String d rest)); [cbn; lia | exact He | exact Hin].
      * destruct (space3 d b a) eqn:Habc; [|discriminate He].
        assert (Hhigh : (128 <= code a)%nat /\ (128 <= code b)%nat /\ (128 <= code d)%nat).
        { unfold space3 in Habc.
          repeat match goal with
                 | H : (_ || _) = true |- _ => apply orb_true_iff in H; destruct H
                 | H : (_ && _) = true |- _ => apply andb_true_iff in H; destruct H
                 | H : (_ =? _)%nat = true |- _ => apply Nat.eqb_eq in H
                 | H : (_ <=? _)%nat = true |- _ => apply Nat.leb_le in H
                 end; lia. }
        destruct Hin as [<-|[<-|[<-|Hin]]]; [right; lia | right; lia | right; lia|].
        apply (IH rest); [cbn; lia | exact He | exact Hin].
Qed.

(** [trim_start] leaves a text that starts with a letter as it is. *)
Lemma trim_start_letter (rest : string) :
  trim_start (String "d" rest) = String "d" rest.
Proof. destruct rest as [|b [|c rest]]; reflexivity. Qed.

Lemma reverse_empty (s : string) : reverse s = "" -> s = "".
Proof.
  unfold reverse. intros He.
  apply (f_equal list_ascii_of_string) in He.
  rewrite list_ascii_of_string_of_list_ascii in He. cbn in He.
  destruct (list_ascii_of_string s) as [|a l] eqn:El.
  - rewrite <- (string_of_list_ascii_of_string s), El. reflexivity.
  - cbn in He. destruct (rev l); discriminate He.
Qed.

(** A line that carries the marker is not blank: the filter on blank lines
    never removes a frame. *)
Lemma marked_line_not_blank (line : string) :
  startsWith line "data: " = true -> (trim line =? "")%string = false.
Proof.
  intros Hm. apply String.eqb_neq. intros He.
  destruct line as [|c rest]; [discriminate Hm|].
  unfold startsWith in Hm. cbn [String.prefix] in Hm.
  destruct (ascii_dec "d" c) as [<-|]; [|discriminate Hm].
  unfold trim in He. apply reverse_empty in He.
  rewrite trim_start_letter in He.
  pose proof (trim_start_reversed_empty _ _ (Nat.le_refl _) He "d"%char) as Hd.
  assert (Hin : In "d"%char (list_ascii_of_string (reverse (String "d" rest)))).
  { unfold reverse. rewrite list_ascii_of_string_of_list_ascii.
    apply in_rev. rewrite rev_involutive. now left. }
  destruct (Hd Hin) as [Hs|Hh]; [discriminate Hs | cbn in Hh; lia].
Qed.

Lemma frames_of_chunk_eq (value : list byte) :
  frames_of_chunk value
  = filter (fun line => startsWith line "data: ")
           (split_lines (TextDecoder_decode value)).
Proof.
  unfold frames_of_chunk, lines_of_chunk.
  induction (split_lines (TextDecoder_decode value)) as [|line lines IH];
    [reflexivity|].
  cbn [filter].
  destruct (startsWith line "data: ") eqn:Hm.
  - rewrite (marked_line_not_blank line Hm). cbn [negb filter].
    now rewrite Hm, IH.
  - destruct (negb (trim line =? "")%string); cbn [filter]; [rewrite Hm|];
      exact IH.
Qed.

(** ** One line, one chunk *)

Lemma append_value_empty (acc : string) (v : value) :
  append_value acc v = (acc ++ append_value "" v)%string.
Proof. destruct v; reflexivity. Qed.

(** One line of a chunk: skipped without the marker; with it, either one
    snapshot with the extended accumulator or the throw of the frame. *)
Lemma deepseek_line_eq (acc line : string) :
  deepseek_line acc line
  = if startsWith line "data: " then
      match frame_content line with
      | Normal v => ([snap (append_value acc v)], Normal (append_value acc v))
      | Throw e => ([], Throw e)
      end
    else ([], Normal acc).
Proof.
  unfold deepseek_line, frame_content.
  destruct (startsWith line "data: "); [|reflexivity].
  rewrite gen_bind_await.
  destruct (parse (slice line 6)) as [data|e]; [|reflexivity].
  rewrite gen_bind_await. cbn [bind completion_monad].
  destruct (get data "choices") as [choices|e]; [|reflexivity].
  rewrite gen_bind_await.
  destruct (get_first choices) as [choice|e]; [|reflexivity].
  rewrite gen_bind_await.
  destruct (get choice "delta") as [delta|e]; [|reflexivity].
  rewrite gen_bind_await.
  destruct (get delta "content") as [c|e]; reflexivity.
Qed.

Lemma openai_chunk_eq (acc : string) (chunk : value) :
  openai_chunk acc chunk
  = match chunk_content chunk with
    | Normal v => ([snap (append_value acc v)], Normal (append_value acc v))
    | Throw e => ([], Throw e)
    end.
Proof.
  unfold openai_chunk, chunk_content.
  rewrite gen_bind_await. cbn [bind completion_monad].
  destruct (get chunk "choices") as [choices|e]; [|reflexivity].
  rewrite gen_bind_await.
  destruct (get_first choices) as [choice|e]; [|reflexivity].
  rewrite gen_bind_await.
  destruct (get_opt choice "delta") as [delta|e]; [|reflexivity].
  rewrite gen_bind_await.
  destruct (get_opt delta "content") as [c|e]; reflexivity.
Qed.

(** ** The accumulation loops *)

Lemma running_app (acc : string) (ds1 ds2 : list string) :
  running acc (ds1 ++ ds2)
  = running acc ds1 ++ running (fold_left String.append ds1 acc) ds2.
Proof.
  revert acc. induction ds1 as [|d ds1 IH]; intros acc; [reflexivity|].
  cbn. now rewrite IH.
Qed.

Lemma running_length (acc : string) (ds : list string) :
  List.length (running acc ds) = List.length ds.
Proof.
  revert acc. induction ds as [|d ds IH]; intros acc; cbn; [|rewrite IH]; reflexivity.
Qed.

Lemma running_partial (acc : string) (ds : list string) :
  Forall partial (running acc ds).
Proof.
  revert acc. induction ds as [|d ds IH]; intros acc; cbn; constructor.
  - split; reflexivity.
  - apply IH.
Qed.

Lemma append_assoc (a b c : string) :
  ((a ++ b) ++ c)%string = (a ++ (b ++ c))%string.
Proof. induction a as [|x a IH]; cbn; [|rewrite IH]; reflexivity. Qed.

Lemma append_empty_r (s : string) : (s ++ "")%string = s.
Proof. induction s as [|c s IH]; cbn; [|rewrite IH]; reflexivity. Qed.

Lemma fold_append_assoc (ds : list string) (a b : string) :
  fold_left String.append ds (a ++ b)%string
  = (a ++ fold_left String.append ds b)%string.
Proof.
  revert b. induction ds as [|d ds IH]; intros b; cbn; [reflexivity|].
  now rewrite append_assoc, IH.
Qed.

Lemma fold_append_concat_all (ds : list string) (acc : string) :
  fold_left String.append ds acc = (acc ++ concat_all ds)%string.
Proof.
  unfold concat_all. rewrite <- fold_append_assoc. now rewrite append_empty_r.
Qed.

Lemma prefix_append (a b : string) : String.prefix a (a ++ b) = true.
Proof.
  induction a as [|c a IH]; cbn; [now destruct b|].
  destruct (ascii_dec c c); [exact IH | congruence].
Qed.

Lemma running_nth (ds : list string) (acc : string) (k : nat) :
  (k < List.length ds)%nat ->
  nth_error (running acc ds) k
  = Some (snap (acc ++ concat_all (firstn (S k) ds))).
Proof.
  revert acc k. induction ds as [|d ds IH]; intros acc k Hk; cbn in Hk; [lia|].
  destruct k as [|k].
  - cbn. unfold concat_all; cbn. reflexivity.
  - cbn [running nth_error]. rewrite IH by lia.
    f_equal. f_equal.
    change (firstn (S (S k)) (d :: ds)) with (d :: firstn (S k) ds).
    unfold concat_all at 2. cbn [fold_left].
    change (fold_left String.append (firstn (S k) ds) ("" ++ d)%string)
      with (fold_left String.append (firstn (S k) ds) d).
    rewrite (fold_append_concat_all _ d).
    apply append_assoc.
Qed.

Lemma extends_previous_running (ds : list string) (acc : string)
      (tail : list AIStreamResponse) :
  extends_previous (fold_left String.append ds acc) tail ->
  extends_previous acc (running acc ds ++ tail).
Proof.
  revert acc. induction ds as [|d ds IH]; intros acc Ht; [exact Ht|].
  cbn. split; [apply prefix_append | apply IH, Ht].
Qed.

Lemma frame_delta_content (frame d : string) :
  frame_delta frame = Normal d ->
  exists v, frame_content frame = Normal v /\ append_value "" v = d.
Proof.
  unfold frame_delta. destruct (frame_content frame) as [v|e]; cbn; [|discriminate].
  intros [= <-]. now exists v.
Qed.

(** The lines of one chunk whose frames all carry a delta. *)
Lemma deepseek_lines_deltas (lines : list string) (ds : list string) (acc : string) :
  Forall2 (fun frame d => frame_delta frame = Normal d)
          (filter (fun line => startsWith line "data: ") lines) ds ->
  deepseek_lines acc lines
  = (running acc ds, Normal (fold_left String.append ds acc)).
Proof.
  revert ds acc. induction lines as [|line lines IH]; intros ds acc Hds.
  - cbn in Hds. inversion Hds; subst. reflexivity.
  - cbn [deepseek_lines]. rewrite deepseek_line_eq.
    cbn [filter] in Hds.
    destruct (startsWith line "data: ").
    + inversion Hds as [|f d fs ds' Hd Hrest]; subst.
      apply frame_delta_content in Hd. destruct Hd as (v & -> & Hv).
      rewrite gen_bind_normal, (IH ds' _ Hrest).
      rewrite append_value_empty, Hv. reflexivity.
    + rewrite gen_bind_normal, (IH ds acc Hds). reflexivity.
Qed.

Lemma frames_cons (value : list byte) (rest : list (list byte)) :
  frames (value :: rest) = frames_of_chunk value ++ frames rest.
Proof. reflexivity. Qed.

(** The whole read loop on a stream whose frames all carry a delta and
    that the upstream closes. *)
Lemma deepseek_read_loop_deltas (rs : list (list byte)) (failure : option thrown)
      (ds : list string) (acc : string) :
  Forall2 (fun frame d => frame_delta frame = Normal d) (frames rs) ds ->
  deepseek_read_loop rs failure acc
  = (running acc ds,
     match failure with
     | None => Normal (fold_left String.append ds acc)
     | Some e => Throw e
     end).
Proof.
  revert ds acc. induction rs as [|value rest IH]; intros ds acc Hds.
  - cbn in Hds. inversion Hds; subst. cbn. now destruct failure.
  - rewrite frames_cons in Hds.
    apply Forall2_app_inv_l in Hds.
    destruct Hds as (ds1 & ds2 & H1 & H2 & ->).
    cbn [deepseek_read_loop].
    rewrite (deepseek_lines_deltas _ ds1 acc H1).
    rewrite gen_bind_normal, (IH ds2 _ H2).
    cbn [yielded outcome fst snd].
    now rewrite running_app, fold_left_app.
Qed.

(** The frames before the first one that cannot be read are accumulated;
    the failing frame ends the loop. *)
Lemma deepseek_lines_failing_frame (lines : list string) (ds : list string)
      (good rest : list string) (bad : string) (e : thrown) (acc : string) :
  filter (fun line => startsWith line "data: ") lines = good ++ bad :: rest ->
  Forall2 (fun frame d => frame_delta frame = Normal d) good ds ->
  frame_content bad = Throw e ->
  deepseek_lines acc lines = (running acc ds, Throw e).
Proof.
  revert ds good acc. induction lines as [|line lines IH]; intros ds good acc Hf Hds Hbad.
  - destruct good; discriminate Hf.
  - cbn [deepseek_lines]. rewrite deepseek_line_eq. cbn [filter] in Hf.
    destruct (startsWith line "data: ") eqn:Hm.
    + destruct good as [|g good].
      * cbn in Hf. injection Hf as -> Hf. inversion Hds; subst.
        rewrite Hbad. reflexivity.
      * cbn in Hf. injection Hf as -> Hf.
        inversion Hds as [|f d fs ds' Hd Hrest]; subst.
        apply frame_delta_content in Hd. destruct Hd as (v & -> & Hv).
        rewrite gen_bind_normal, (IH ds' good _ Hf Hrest Hbad).
        rewrite append_value_empty, Hv. reflexivity.
    + rewrite gen_bind_normal, (IH ds good acc Hf Hds Hbad). reflexivity.
Qed.

Lemma deepseek_read_loop_failing_frame (rs : list (list byte)) (failure : option thrown)
      (ds : list string) (good rest : list string) (bad : string) (e : thrown)
      (acc : string) :
  frames rs = good ++ bad :: rest ->
  Forall2 (fun frame d => frame_delta frame = Normal d) good ds ->
  frame_content bad = Throw e ->
  deepseek_read_loop rs failure acc = (running acc ds, Throw e).
Proof.
  revert ds good acc. induction rs as [|value rs' IH]; intros ds good acc Hf Hds Hbad.
  - destruct good; discriminate Hf.
  - rewrite frames_cons in Hf. cbn [deepseek_read_loop].
    apply app_eq_app in Hf. destruct Hf as [tail [[Hchunk Hlater]|[Hgood Hlater]]].
    + destruct tail as [|b tail].
      * (* the chunk holds exactly the good frames *)
        rewrite app_nil_r in Hchunk. cbn in Hlater.
        assert (Hsplit : Forall2 (fun frame d => frame_delta frame = Normal d)
                                 (frames_of_chunk value) ds) by now rewrite Hchunk.
        rewrite (deepseek_lines_deltas _ ds acc Hsplit), gen_bind_normal.
        rewrite (IH [] [] _ (eq_sym Hlater) (Forall2_nil _) Hbad).
        cbn [yielded outcome fst snd running]. now rewrite app_nil_r.
      * (* the failing frame is in this chunk *)
        cbn in Hlater. injection Hlater as <- _.
        now rewrite (deepseek_lines_failing_frame _ ds good tail bad e acc Hchunk Hds Hbad).
    + (* the failing frame comes in a later chunk *)
      subst good. apply Forall2_app_inv_l in Hds.
      destruct Hds as (ds1 & ds2 & H1 & H2 & ->).
      rewrite (deepseek_lines_deltas _ ds1 acc H1), gen_bind_normal.
      rewrite (IH ds2 tail _ Hlater H2 Hbad).
      cbn [yielded outcome fst snd]. now rewrite running_app.
Qed.

(** The Deepseek (event-frame) path of [streamAIResponse] in terms of the
    lines the adapter sees, read by read.  When the request is answered
    with a success status and a readable body, the upstream closes the
    stream, and every marked line of every read carries a delta (the
    deltas being [ds], in order), the adapter yields one snapshot per such
    line with the text accumulated so far and a final snapshot with
    [done = true] that holds the concatenation of the deltas. *)
Lemma deepseek_accumulates (message : string) (history : list Turn)
        (response : Response) (reader : Reader) (ds : list string) :
  fetch (deepseek_request message history (Some true)) = Normal response ->
  ok response = true ->
  body response = Some reader ->
  read_failure reader = None ->
  Forall2 (fun frame d => frame_delta frame = Normal d) (frames (reads reader)) ds ->
  outcome (streamAIResponse message "deepseek-chat" history) = Normal tt
  /\ yielded (streamAIResponse message "deepseek-chat" history)
     = running "" ds ++ [mkAIStreamResponse (VStr (concat_all ds)) true None]
  /\ List.length (yielded (streamAIResponse message "deepseek-chat" history))
     = S (List.length (frames (reads reader)))
  /\ (forall k, (k < List.length ds)%nat ->
        nth_error (yielded (streamAIResponse message "deepseek-chat" history)) k
        = Some (snap (concat_all (firstn (S k) ds))))
  /\ extends_previous "" (yielded (streamAIResponse message "deepseek-chat" history)).
Proof.
  intros Hfetch Hok Hbody Hclosed Hds.
  assert (Hrun : streamAIResponse message "deepseek-chat" history
                 = (running "" ds ++ [mkAIStreamResponse (VStr (concat_all ds)) true None],
                    Normal tt)).
  { unfold streamAIResponse. cbn [String.eqb Ascii.eqb Bool.eqb].
    unfold streamDeepseekResponse, streamDeepseekResponse_try.
    rewrite Hfetch, gen_bind_await, Hok. cbn [negb].
    rewrite gen_bind_ret, Hbody, gen_bind_ret, Hclosed.
    rewrite (deepseek_read_loop_deltas _ None ds "" Hds), gen_bind_normal.
    rewrite (fold_append_concat_all ds ""). reflexivity. }
  rewrite Hrun. cbn [yielded outcome fst snd].
  split; [reflexivity|]. split; [reflexivity|].
  split.
  { rewrite length_app, running_length. cbn [List.length].
    rewrite (Forall2_length Hds). lia. }
  split.
  { intros k Hk. rewrite nth_error_app1 by (now rewrite running_length).
    now rewrite running_nth. }
  apply extends_previous_running. rewrite (fold_append_concat_all ds "").
  cbn. split; [|exact I].
  generalize (concat_all ds). intros s. induction s as [|c s IH]; cbn; [reflexivity|].
  destruct (ascii_dec c c); [exact IH | congruence].
Qed.

(** ** Every path ends with a terminal snapshot *)

Lemma yielded_bind {A B} (m : Gen AIStreamResponse A)
      (k : A -> Gen AIStreamResponse B) (P : AIStreamResponse -> Prop) :
  Forall P (yielded m) ->
  (forall a, Forall P (yielded (k a))) ->
  Forall P (yielded (bind m k)).
Proof.
  destruct m as [ys [a|e]]; intros Hm Hk.
  - rewrite gen_bind_normal. cbn [yielded fst] in *.
    apply Forall_app. split; [exact Hm | apply Hk].
  - exact Hm.
Qed.

Lemma deepseek_line_partial (acc line : string) :
  Forall partial (yielded (deepseek_line acc line)).
Proof.
  rewrite deepseek_line_eq.
  destruct (startsWith line "data: "); [|constructor].
  destruct (frame_content line); cbn; repeat constructor.
Qed.

Lemma deepseek_lines_partial (lines : list string) (acc : string) :
  Forall partial (yielded (deepseek_lines acc lines)).
Proof.
  revert acc. induction lines as [|line lines IH]; intros acc; [constructor|].
  cbn [deepseek_lines]. apply yielded_bind; [apply deepseek_line_partial | apply IH].
Qed.

Lemma deepseek_read_loop_partial (rs : list (list byte)) (failure : option thrown)
      (acc : string) :
  Forall partial (yielded (deepseek_read_loop rs failure acc)).
Proof.
  revert acc. induction rs as [|value rest IH]; intros acc.
  - cbn. destruct failure; constructor.
  - cbn [deepseek_read_loop].
    apply yielded_bind; [apply deepseek_lines_partial | apply IH].
Qed.

Lemma openai_chunks_partial (cs : list value) (failure : option thrown)
      (acc : string) :
  Forall partial (yielded (openai_chunks cs failure acc)).
Proof.
  revert acc. induction cs as [|chunk rest IH]; intros acc.
  - cbn. destruct failure; constructor.
  - cbn [openai_chunks]. apply yielded_bind; [|apply IH].
    rewrite openai_chunk_eq. destruct (chunk_content chunk); cbn; repeat constructor.
Qed.

(** A guarded block that accumulates and then yields the [done] snapshot,
    wrapped in the catch block that yields the error snapshot. *)
Lemma guarded_accumulation (loop : Gen AIStreamResponse string) :
  Forall partial (yielded loop) ->
  let block := bind loop (fun acc => yield (mkAIStreamResponse (VStr acc) true None)) in
  let run := gen_try_catch block (fun e => yield (error_snapshot e)) in
  outcome run = Normal tt
  /\ exists last,
       yielded run = yielded loop ++ [last]
       /\ done last = true
       /\ match outcome block with
          | Throw e => last = error_snapshot e
          | Normal _ => stream_error last = None
          end.
Proof.
  destruct loop as [ys [acc|e]]; intros Hys; cbn.
  - split; [reflexivity|]. eexists. repeat split.
  - split; [reflexivity|]. eexists. repeat split.
Qed.


Lemma streamOpenAIResponse_terminal (message : string) (history : list Turn) :
  outcome (streamOpenAIResponse message history) = Normal tt
  /\ exists pre last,
       yielded (streamOpenAIResponse message history) = pre ++ [last]
       /\ Forall partial pre
       /\ done last = true
       /\ match outcome (streamOpenAIResponse_try message history) with
          | Throw e => last = error_snapshot e
          | Normal _ => stream_error last = None
          end.
Proof.
  unfold streamOpenAIResponse, streamOpenAIResponse_try.
  rewrite gen_bind_await.
  destruct (openai_create_stream (chat_params "gpt-3.5-turbo" message history (Some true)))
    as [s|e].
  2:{ split; [reflexivity|]. exists [], (error_snapshot e). repeat split. constructor. }
  pose proof (openai_chunks_partial (chunks s) (chunks_failure s) "") as Hp.
  destruct (guarded_accumulation _ Hp) as (Hout & last & Hy & Hd & Hl).
  split; [exact Hout|]. exists (yielded (openai_chunks (chunks s) (chunks_failure s) "")), last.
  repeat split; assumption.
Qed.

Lemma fallback_not_empty : fallback <> "".
Proof. discriminate. Qed.

(** ** The kinds of failure of the Deepseek stream *)


Lemma deepseek_non_success_status (message : string) (history : list Turn)
      (response : Response) :
  fetch (deepseek_request message history (Some true)) = Normal response ->
  ok response = false ->
  streamAIResponse message "deepseek-chat" history
  = ([error_snapshot (ErrorObject ("Deepseek API error: " ++ statusText response))],
     Normal tt).
Proof.
  intros Hf Hok. unfold streamAIResponse. cbn [String.eqb Ascii.eqb Bool.eqb].
  unfold streamDeepseekResponse, streamDeepseekResponse_try.
  rewrite Hf, gen_bind_await, Hok. cbn [negb]. now rewrite gen_bind_await.
Qed.

(** The upstream delivered the frames with the deltas [ds] and the next
    read failed: the snapshots of [ds] stay yielded, followed by the error
    snapshot. *)
Lemma deepseek_read_fails (message : string) (history : list Turn)
      (response : Response) (reader : Reader) (ds : list string) (e : thrown) :
  fetch (deepseek_request message history (Some true)) = Normal response ->
  ok response = true ->
  body response = Some reader ->
  read_failure reader = Some e ->
  Forall2 (fun frame d => frame_delta frame = Normal d) (frames (reads reader)) ds ->
  streamAIResponse message "deepseek-chat" history
  = (running "" ds ++ [error_snapshot e], Normal tt).
Proof.
  intros Hfetch Hok Hbody Hfail Hds.
  unfold streamAIResponse. cbn [String.eqb Ascii.eqb Bool.eqb].
  unfold streamDeepseekResponse, streamDeepseekResponse_try.
  rewrite Hfetch, gen_bind_await, Hok. cbn [negb].
  rewrite gen_bind_ret, Hbody, gen_bind_ret.
  rewrite (deepseek_read_loop_deltas _ (read_failure reader) ds "" Hds), Hfail.
  reflexivity.
Qed.

(** A frame whose payload cannot be parsed, or that lacks the expected
    fields: the snapshots of the frames before it stay yielded, followed by
    the error snapshot; what the upstream sends after it is not read. *)
Lemma deepseek_frame_fails (message : string) (history : list Turn)
      (response : Response) (reader : Reader) (ds : list string)
      (good rest : list string) (bad : string) (e : thrown) :
  fetch (deepseek_request message history (Some true)) = Normal response ->
  ok response = true ->
  body response = Some reader ->
  frames (reads reader) = good ++ bad :: rest ->
  Forall2 (fun frame d => frame_delta frame = Normal d) good ds ->
  frame_content bad = Throw e ->
  streamAIResponse message "deepseek-chat" history
  = (running "" ds ++ [error_snapshot e], Normal tt).
Proof.
  intros Hfetch Hok Hbody Hframes Hds Hbad.
  unfold streamAIResponse. cbn [String.eqb Ascii.eqb Bool.eqb].
  unfold streamDeepseekResponse, streamDeepseekResponse_try.
  rewrite Hfetch, gen_bind_await, Hok. cbn [negb].
  rewrite gen_bind_ret, Hbody, gen_bind_ret.
  rewrite (deepseek_read_loop_failing_frame _ (read_failure reader) ds good rest bad e ""
             Hframes Hds Hbad).
  reflexivity.
Qed.

(** ** Single-shot generation *)

Lemma generateOpenAIResponse_eq (message : string) (history : list Turn) :
  generateOpenAIResponse message history
  = match (completion <- openai_create (chat_params "gpt-3.5-turbo" message history None) ;;
           c <- message_content completion ;;
           ret (or_else c (VStr ""))) with
    | Normal c => Normal (mkAIResponse c None)
    | Throw e => Normal (mkAIResponse (VStr fallback) (Some (error_message e)))
    end.
Proof.
  unfold generateOpenAIResponse, message_content. cbn [bind completion_monad].
  destruct (openai_create _) as [completion|e]; [|reflexivity].
  destruct (get completion "choices") as [choices|e]; [|reflexivity].
  destruct (get_first choices) as [choice|e]; [|reflexivity].
  destruct (get choice "message") as [msg|e]; [|reflexivity].
  destruct (get msg "content") as [c|e]; reflexivity.
Qed.

Lemma generateDeepseekResponse_eq (message : string) (history : list Turn) :
  generateDeepseekResponse message history
  = match (response <- fetch (deepseek_request message history None) ;;
           if ok response
           then data <- json response ;; message_content data
           else Throw (ErrorObject ("Deepseek API error: " ++ statusText response)%string)) with
    | Normal c => Normal (mkAIResponse c None)
    | Throw e => Normal (mkAIResponse (VStr fallback) (Some (error_message e)))
    end.
Proof.
  unfold generateDeepseekResponse, message_content. cbn [bind completion_monad].
  destruct (fetch _) as [response|e]; [|reflexivity].
  destruct (ok response); cbn [negb]; [|reflexivity].
  destruct (json response) as [data|e]; [|reflexivity].
  destruct (get data "choices") as [choices|e]; [|reflexivity].
  destruct (get_first choices) as [choice|e]; [|reflexivity].
  destruct (get choice "message") as [msg|e]; [|reflexivity].
  destruct (get msg "content") as [c|e]; reflexivity.
Qed.

Lemma generateAIResponse_cases (message model_id : string) (history : list Turn) :
  match single_shot_exchange message model_id history with
  | Throw e =>
      generateAIResponse message model_id history
      = Normal (mkAIResponse (VStr fallback) (Some (error_message e)))
  | Normal c =>
      generateAIResponse message model_id history = Normal (mkAIResponse c None)
  end.
Proof.
  unfold generateAIResponse, single_shot_exchange.
  destruct (model_id =? "gemini")%string.
  { unfold generateGeminiResponse. destruct (gemini_chat _ _ _); reflexivity. }
  destruct (model_id =? "deepseek-chat")%string.
  - rewrite generateDeepseekResponse_eq.
    match goal with |- match ?x with _ => _ end => destruct x end; reflexivity.
  - rewrite generateOpenAIResponse_eq.
    match goal with |- match ?x with _ => _ end => destruct x end; reflexivity.
Qed.

Lemma generateAIResponse_completes (message model_id : string) (history : list Turn) :
  exists r, generateAIResponse message model_id history = Normal r.
Proof.
  pose proof (generateAIResponse_cases message model_id history) as Hcase.
  destruct (single_shot_exchange message model_id history); eexists; exact Hcase.
Qed.

(** C3, as the code has it.  Whatever the model, the input and the
    behaviour of the upstream, [generateAIResponse] completes normally with
    a record: no failure of the upstream reaches the caller as an
    exception.  When the exchange with the provider fails, the record holds
    the fallback text and, in [error], the message of what was thrown when
    that is an [Error], and the text ['Unknown error occurred'] when it is
    anything else; when the exchange succeeds, it holds the content of the
    completion and no error.  The failures are: the call of the client of
    the selected provider rejects (for Deepseek the [fetch]), the Deepseek
    answer has a status that is not a success (reported with its status
    text) or a body that is not JSON, and a completion that lacks the
    expected fields. *)
Theorem C3_single_shot_fails_soft (message model_id : string) (history : list Turn) :
  let apology (reported : string) :=
    mkAIResponse
      (VStr "I apologize, but I encountered an error processing your request.")
      (Some reported) in
  let text_of (e : thrown) :=
    match e with
    | ErrorObject message => message
    | Thrown _ => "Unknown error occurred"
    end in
  (exists r, generateAIResponse message model_id history = Normal r)
  /\ match single_shot_exchange message model_id history with
     | Throw e =>
         generateAIResponse message model_id history = Normal (apology (text_of e))
     | Normal c =>
         generateAIResponse message model_id history = Normal (mkAIResponse c None)
     end
  /\ (model_id = "gemini" ->
      forall e,
        gemini_chat "gemini-pro"
                    (map (fun msg => mkGeminiContent (turn_role msg) (turn_content msg))
                         history)
                    message = Throw e ->
        generateAIResponse message model_id history = Normal (apology (text_of e)))
  /\ (model_id <> "gemini" -> model_id <> "deepseek-chat" ->
      forall e,
        openai_create (mkChatParams "gpt-3.5-turbo" (chat_messages message history)
                                    (7 # 10) 1000 None) = Throw e ->
        generateAIResponse message model_id history = Normal (apology (text_of e)))
  /\ (model_id = "deepseek-chat" ->
      (forall e,
         fetch (deepseek_request message history None) = Throw e ->
         generateAIResponse message model_id history = Normal (apology (text_of e)))
      /\ (forall response,
            fetch (deepseek_request message history None) = Normal response ->
            (ok response = false ->
             generateAIResponse message model_id history
             = Normal (apology ("Deepseek API error: " ++ statusText response)%string))
            /\ (ok response = true ->
                forall e,
                  json response = Throw e ->
                  generateAIResponse message model_id history
                  = Normal (apology (text_of e))))).
Proof.
  cbn zeta.
  assert (Hcases : match single_shot_exchange message model_id history with
                   | Throw e =>
                       generateAIResponse message model_id history
                       = Normal (mkAIResponse
                                   (VStr "I apologize, but I encountered an error processing your request.")
                                   (Some match e with
                                         | ErrorObject m => m
                                         | Thrown _ => "Unknown error occurred"
                                         end))
                   | Normal c =>
                       generateAIResponse message model_id history
                       = Normal (mkAIResponse c None)
                   end).
  { pose proof (generateAIResponse_cases message model_id history) as H.
    destruct (single_shot_exchange message model_id history) as [c|[m|v]]; exact H. }
  split; [apply generateAIResponse_completes|]. split; [exact Hcases|].
  unfold single_shot_exchange in Hcases.
  split; [|split].
  - intros -> e He. cbn [String.eqb Ascii.eqb Bool.eqb] in Hcases.
    rewrite He in Hcases. exact Hcases.
  - intros Hg Hd e He. apply String.eqb_neq in Hg, Hd. rewrite Hg, Hd in Hcases.
    unfold chat_params in Hcases. rewrite He in Hcases. exact Hcases.
  - intros ->. cbn [String.eqb Ascii.eqb Bool.eqb] in Hcases. split.
    + intros e He. rewrite He in Hcases. exact Hcases.
    + intros response Hr. rewrite Hr in Hcases. cbn [bind completion_monad] in Hcases.
      split.
      * intros Hok. rewrite Hok in Hcases. exact Hcases.
      * intros Hok e He. rewrite Hok, He in Hcases. exact Hcases.
Qed.

End AdapterProperties.

Section Dispatch.
Import Types JS Ai.
Context {engine : Engine} {env : Env}.

(** C9. A model identifier that is neither ['gemini'] nor
    ['deepseek-chat'], whether it names a listed model or not, takes the
    [default] branch of both switches: [generateAIResponse] is
    [generateOpenAIResponse] and [streamAIResponse] is the OpenAI stream.
    Both complete normally, and their result is determined by the answer
    of the OpenAI client to the request for the model [gpt-3.5-turbo]: the
    other providers are not consulted. *)
Theorem C9_unknown_model_dispatches_to_openai (P : Providers)
        (message model_id : string) (history : list Turn) :
  model_id <> "gemini" ->
  model_id <> "deepseek-chat" ->
  generateAIResponse message model_id history = generateOpenAIResponse message history
  /\ streamAIResponse message model_id history = streamOpenAIResponse message history
  /\ (exists r, generateAIResponse message model_id history = Normal r)
  /\ outcome (streamAIResponse message model_id history) = Normal tt
  /\ (forall Q : Providers,
        @openai_create Q (mkChatParams "gpt-3.5-turbo" (chat_messages message history)
                                       (7 # 10) 1000 None)
        = @openai_create P (mkChatParams "gpt-3.5-turbo" (chat_messages message history)
                                         (7 # 10) 1000 None) ->
        @generateAIResponse engine env Q message model_id history
        = @generateAIResponse engine env P message model_id history)
  /\ (forall Q : Providers,
        @openai_create_stream Q (mkChatParams "gpt-3.5-turbo" (chat_messages message history)
                                              (7 # 10) 1000 (Some true))
        = @openai_create_stream P (mkChatParams "gpt-3.5-turbo" (chat_messages message history)
                                                (7 # 10) 1000 (Some true)) ->
        @streamAIResponse engine env Q message model_id history
        = @streamAIResponse engine env P message model_id history).
Proof.
  intros Hg Hd.
  apply String.eqb_neq in Hg, Hd.
  assert (Hgen : forall Q : Providers,
            @generateAIResponse engine env Q message model_id history
            = @generateOpenAIResponse engine Q message history).
  { intros Q. unfold generateAIResponse. now rewrite Hg, Hd. }
  assert (Hstr : forall Q : Providers,
            @streamAIResponse engine env Q message model_id history
            = @streamOpenAIResponse engine Q message history).
  { intros Q. unfold streamAIResponse. now rewrite Hg, Hd. }
  split; [apply Hgen|]. split; [apply Hstr|].
  split; [apply generateAIResponse_completes|].
  split; [rewrite Hstr; apply streamOpenAIResponse_terminal|].
  split; intros Q HQ.
  - rewrite (Hgen Q), (Hgen P). unfold generateOpenAIResponse, chat_params.
    now rewrite HQ.
  - rewrite (Hstr Q), (Hstr P).
    unfold streamOpenAIResponse, streamOpenAIResponse_try, chat_params.
    now rewrite HQ.
Qed.

End Dispatch.

Section AdapterExamples.
Import Types JS Ai Demo.

(** C1: what the adapter does with a stream as the provider sends it.
    The two frames with the deltas [Hi] and [ there] are sent and the
    stream is closed.  Cut by the reads inside the marker of the second
    frame, the second delta is lost without a trace: the final snapshot
    holds [Hi].  Cut inside the payload, the stream ends with the error
    snapshot and the fallback text.  The text sent is the same in both
    and in the stream cut at the line ends, for which the final snapshot
    holds [Hi there].  Closed by the end marker of the provider, the
    stream ends with the error snapshot too. *)
Theorem C1_deepseek_loses_deltas :
  Upstream.text_sent (mkReader Upstream.cut_in_marker_reads None)
  = Upstream.text_sent (mkReader Upstream.whole_reads None)
  /\ Upstream.text_sent (mkReader Upstream.cut_in_payload_reads None)
     = Upstream.text_sent (mkReader Upstream.whole_reads None)
  /\ map frame_delta (Upstream.frames_sent (mkReader Upstream.whole_reads None))
     = [Normal "Hi"; Normal " there"]
  /\ streamAIResponse (providers := hi_there) "Hello" "deepseek-chat" []
     = ([ snap "Hi"; snap "Hi there"; mkAIStreamResponse (VStr "Hi there") true None ],
        Normal tt)
  /\ streamAIResponse (providers := Upstream.cut_in_marker) "Hello" "deepseek-chat" []
     = ([ snap "Hi"; mkAIStreamResponse (VStr "Hi") true None ], Normal tt)
  /\ streamAIResponse (providers := Upstream.cut_in_payload) "Hello" "deepseek-chat" []
     = ([ snap "Hi";
          mkAIStreamResponse
            (VStr "I apologize, but I encountered an error processing your request.")
            true (Some "Unexpected token in JSON") ],
        Normal tt)
  /\ streamAIResponse (providers := hi_there_DONE) "Hello" "deepseek-chat" []
     = ([ snap "Hi"; snap "Hi there";
          mkAIStreamResponse
            (VStr "I apologize, but I encountered an error processing your request.")
            true (Some "Unexpected token in JSON") ],
        Normal tt).
Proof. repeat split. Qed.

Lemma C9_witness :
  generateAIResponse (providers := openai_ok) "Hello" "gpt-4" []
  = generateOpenAIResponse (providers := openai_ok) "Hello" [].
Proof.
  refine (proj1 (@C9_unknown_model_dispatches_to_openai engine env openai_ok
                   "Hello" "gpt-4" [] _ _)); discriminate.
Defined.

(** The end marker of the provider is a frame with the marker [data: ]
    whose payload is not JSON: the two deltas are accumulated, then the
    stream ends with the error snapshot instead of the [done] snapshot
    with the accumulated text. *)
Example deepseek_end_marker :
  streamAIResponse (providers := hi_there_DONE) "Hello" "deepseek-chat" []
  = ([ snap "Hi"; snap "Hi there";
       error_snapshot (ErrorObject "Unexpected token in JSON") ],
     Normal tt).
Proof. reflexivity. Qed.

(** Partial content is not retracted when the connection drops. *)
Example deepseek_connection_drops :
  streamAIResponse (providers := hi_then_drop) "Hello" "deepseek-chat" []
  = ([ snap "Hi"; error_snapshot (ErrorObject "network error") ], Normal tt).
Proof. reflexivity. Qed.

Example deepseek_bad_gateway :
  streamAIResponse (providers := bad_gateway) "Hello" "deepseek-chat" []
  = ([ error_snapshot (ErrorObject "Deepseek API error: Bad Gateway") ], Normal tt).
Proof. reflexivity. Qed.

Example openai_stream_breaks :
  streamAIResponse (providers := openai_breaks) "Hello" "gpt-3.5-turbo" []
  = ([ snap "Hi"; error_snapshot (ErrorObject "Connection error.") ], Normal tt).
Proof. reflexivity. Qed.

Example gemini_single_jump :
  streamAIResponse (providers := openai_ok) "Hello" "gemini" []
  = ([ mkAIStreamResponse (VStr "Bonjour") true None ], Normal tt).
Proof. reflexivity. Qed.

Example single_shot_offline :
  generateAIResponse (providers := hi_there) "Hello" "gpt-3.5-turbo" []
  = Normal (mkAIResponse (VStr fallback) (Some "Failed to fetch")).
Proof. reflexivity. Qed.

End AdapterExamples.

(** ** The conversation relay *)

Section RelayProperties.
Import Types Db Api.
Context {server : Server}.

Lemma send_spec (db : Database) :
  profiles (snd (send db)) = profiles db
  /\ conversations (snd (send db)) = conversations db
  /\ messages (snd (send db)) = messages db
  /\ session (snd (send db)) = session db
  /\ statements (snd (send db)) = statements db
  /\ transport (snd (send db)) = tl (transport db).
Proof. unfold send. destruct db as [p c m s n t]. cbn. destruct t; cbn; repeat split. Qed.

Lemma insert_message_spec (c text : string) (r : Role) (f : option string)
      (db : Database) :
  let out := insert_message c text (Role_text r) f db in
  conversations (fst out) = conversations db
  /\ session (fst out) = session db
  /\ transport (fst out) = tl (transport db)
  /\ match snd out with
     | data row => messages (fst out) = messages db ++ [row]
                   /\ inserted_message c text r f row
     | error _ => messages (fst out) = messages db
     end.
Proof.
  destruct (send_spec db) as (_ & Hc & Hm & Hs & _ & Ht).
  unfold insert_message. destruct (send db) as [[e|] db0]; cbn [snd fst] in *.
  { repeat split; assumption. }
  destruct (owns_conversation db0 c); cbn [negb fst snd].
  2:{ repeat split; assumption. }
  destruct ((Role_text r =? "user")%string || (Role_text r =? "assistant")%string);
    cbn [negb fst snd].
  2:{ repeat split; assumption. }
  cbn. rewrite Hm. split; [assumption|]. split; [assumption|]. split; [assumption|].
  split; [reflexivity|]. repeat split.
  exists (statements db0). repeat split.
Qed.

Lemma is_session_user_eq (db : Database) (u : uuid) :
  is_session_user db (Some u) = true <-> session db = Some u.
Proof.
  unfold is_session_user. destruct (session db) as [uid|]; [|split; discriminate].
  rewrite String.eqb_eq. split; congruence.
Qed.

Lemma touch_sets_last_message (db : Database) (c text : string)
      (rows : list conversations_row) :
  last_message_set (session db) c text rows (map (touch db c text) rows).
Proof.
  unfold last_message_set. rewrite !map_map. repeat split.
  - apply map_ext. intros row. unfold touch. now destruct (_ && _).
  - apply map_ext. intros row. unfold touch. now destruct (_ && _).
  - apply Forall_forall. intros row' Hin Hid Hwho.
    apply in_map_iff in Hin. destruct Hin as (row & <- & _).
    unfold touch in *.
    destruct ((id row =? c)%string && is_session_user db (Some (user_id row))) eqn:E;
      [reflexivity|].
    exfalso. apply andb_false_iff in E. destruct E as [E|E].
    + apply String.eqb_neq in E. contradiction.
    + apply (proj2 (is_session_user_eq _ _)) in Hwho. congruence.
Qed.

Lemma update_last_message_spec (c text : string) (db : Database) :
  let out := update_last_message c text db in
  messages (fst out) = messages db
  /\ session (fst out) = session db
  /\ transport (fst out) = tl (transport db)
  /\ match snd out with
     | data _ => last_message_set (session db) c text
                                  (conversations db) (conversations (fst out))
     | error _ => conversations (fst out) = conversations db
     end.
Proof.
  destruct (send_spec db) as (_ & Hc & Hm & Hs & _ & Ht).
  unfold update_last_message. destruct (send db) as [[e|] db0]; cbn [snd fst] in *.
  { repeat split; assumption. }
  cbn. split; [assumption|]. split; [assumption|]. split; [assumption|].
  rewrite <- Hc, <- Hs. apply touch_sets_last_message.
Qed.

(** C4. [sendMessage] sends the insert of the message row and the update of
    the conversation's [last_message] together and awaits both answers,
    whatever the order in which they reach the store: two requests leave
    the client and nothing else is sent, in particular nothing that would
    undo one of them.  The call throws the error of the insert when the
    insert failed, otherwise the error of the update when the update
    failed, and returns the inserted row, with the identifier and the
    timestamps the server assigned, when both succeeded.  Whatever the
    other answer is, a successful insert leaves its row in the table and a
    successful update leaves [last_message] set. *)
Theorem C4_sendMessage_paired_requests (order : arrival) (conversationId text : string)
        (r : Role) (fileUrl : option string) (db db' : Database)
        (messageResult : answer messages_row) (updateResult : answer unit) :
  sendMessage_requests order conversationId text r fileUrl db
  = (db', messageResult, updateResult) ->
  transport db' = tl (tl (transport db))
  /\ fst (sendMessage order conversationId text r fileUrl db) = db'
  /\ snd (sendMessage order conversationId text r fileUrl db)
     = match messageResult, updateResult with
       | error e, _ => throws e
       | data _, error e => throws e
       | data row, data _ => returns row
       end
  /\ match messageResult with
     | data row => messages db' = messages db ++ [row]
                   /\ inserted_message conversationId text r fileUrl row
     | error _ => messages db' = messages db
     end
  /\ match updateResult with
     | data _ => last_message_set (session db) conversationId text
                                  (conversations db) (conversations db')
     | error _ => conversations db' = conversations db
     end.
Proof.
  intros Hreq.
  assert (Hcall : sendMessage order conversationId text r fileUrl db
                  = (db', match messageResult, updateResult with
                          | error e, _ => throws e
                          | data _, error e => throws e
                          | data row, data _ => returns row
                          end)).
  { unfold sendMessage. rewrite Hreq.
    destruct messageResult, updateResult; reflexivity. }
  rewrite Hcall. cbn [fst snd].
  split; [|split; [reflexivity|split; [reflexivity|]]].
  - unfold sendMessage_requests in Hreq. destruct order.
    + pose proof (insert_message_spec conversationId text r fileUrl db) as (_ & _ & Ht1 & _).
      destruct (insert_message _ _ _ _ db) as [db1 mr].
      pose proof (update_last_message_spec conversationId text db1) as (_ & _ & Ht2 & _).
      destruct (update_last_message _ _ db1) as [db2 ur].
      cbn [fst snd] in *. injection Hreq as <- _ _. now rewrite Ht2, Ht1.
    + pose proof (update_last_message_spec conversationId text db) as (_ & _ & Ht1 & _).
      destruct (update_last_message _ _ db) as [db1 ur].
      pose proof (insert_message_spec conversationId text r fileUrl db1) as (_ & _ & Ht2 & _).
      destruct (insert_message _ _ _ _ db1) as [db2 mr].
      cbn [fst snd] in *. injection Hreq as <- _ _. now rewrite Ht2, Ht1.
  - unfold sendMessage_requests in Hreq. destruct order.
    + pose proof (insert_message_spec conversationId text r fileUrl db)
        as (Hc1 & Hs1 & _ & Hm1).
      destruct (insert_message _ _ _ _ db) as [db1 mr].
      pose proof (update_last_message_spec conversationId text db1)
        as (Hm2 & _ & _ & Hc2).
      destruct (update_last_message _ _ db1) as [db2 ur].
      cbn [fst snd] in *. injection Hreq as <- <- <-.
      rewrite Hm2. split; [exact Hm1|].
      rewrite <- Hc1, <- Hs1. exact Hc2.
    + pose proof (update_last_message_spec conversationId text db)
        as (Hm1 & _ & _ & Hc1).
      destruct (update_last_message _ _ db) as [db1 ur].
      pose proof (insert_message_spec conversationId text r fileUrl db1)
        as (Hc2 & _ & _ & Hm2).
      destruct (insert_message _ _ _ _ db1) as [db2 mr].
      cbn [fst snd] in *. injection Hreq as <- <- <-.
      rewrite Hc2, <- Hm1. split; [exact Hm2 | exact Hc1].
Qed.

(** C5, as the code has it.  [createConversation] does not look at the
    session itself: it reads the user id of the session, which is absent
    when there is none, and sends one insert request in every case.
    Without a session the store refuses the row under the row-level policy
    of [conversations], the call throws that store error and no row is
    inserted.  With a session whose user has a profile row, the store
    inserts a conversation owned by that user and the call returns the
    stored row with the identifier and the timestamps the server assigned.
    Every error the call throws is the store's, and a call that throws has
    inserted nothing. *)
Theorem C5_createConversation_relies_on_the_store (new_title new_model : string)
        (db : Database) :
  transport (fst (createConversation new_title new_model db)) = tl (transport db)
  /\ (session db = None ->
      hd None (transport db) = None ->
      snd (createConversation new_title new_model db)
      = throws (row_level_security "conversations")
      /\ conversations (fst (createConversation new_title new_model db))
         = conversations db)
  /\ (forall uid,
        session db = Some uid ->
        hd None (transport db) = None ->
        has_profile db uid = true ->
        exists row,
          snd (createConversation new_title new_model db) = returns row
          /\ conversations (fst (createConversation new_title new_model db))
             = conversations db ++ [row]
          /\ user_id row = uid
          /\ title row = new_title
          /\ model row = new_model
          /\ last_message row = None
          /\ exists n, id row = gen_random_uuid n
                       /\ created_at row = now n
                       /\ updated_at row = now n)
  /\ (forall e,
        snd (createConversation new_title new_model db) = throws e ->
        error_class e = StoreError
        /\ conversations (fst (createConversation new_title new_model db))
           = conversations db).
Proof.
  unfold createConversation, insert_conversation, auth_getUser_id.
  pose proof (send_spec db) as (Hp & Hc & _ & Hs & _ & Ht).
  assert (Hfault : fst (send db) = hd None (transport db)).
  { unfold send. destruct (transport db); reflexivity. }
  assert (Hprofile : forall u, has_profile (snd (send db)) u = has_profile db u).
  { intros u. unfold has_profile. now rewrite Hp. }
  destruct (send db) as [[fault|] db0]; cbn [fst snd] in *.
  { (* the request fails on the way *)
    split; [exact Ht|]. rewrite <- Hfault.
    split; [intros _ [=]|]. split; [intros uid _ [=]|].
    intros e _. split; [reflexivity | exact Hc]. }
  unfold is_session_user. rewrite Hs.
  destruct (session db) as [uid|].
  - rewrite String.eqb_refl. cbn [negb]. rewrite Hprofile.
    destruct (has_profile db uid) eqn:Hhas; cbn [negb fst snd].
    + split; [exact Ht|]. split; [discriminate|]. split.
      * intros uid' [= <-] _ _. eexists. split; [reflexivity|].
        cbn. rewrite Hc. split; [reflexivity|]. repeat split.
        exists (statements db0). repeat split.
      * intros e [=].
    + split; [exact Ht|]. split; [discriminate|]. split.
      * intros uid' [= <-] _ Hhas'. congruence.
      * intros e _. split; [reflexivity | exact Hc].
  - cbn [negb fst snd]. split; [exact Ht|].
    split; [intros _ _; split; [reflexivity | exact Hc]|].
    split; [discriminate|].
    intros e _. split; [reflexivity | exact Hc].
Qed.

End RelayProperties.

Section RelayExamples.
Import Types Db Api.

Lemma C4_witness :
  snd (sendMessage insert_first "c1" "Hello" role_user None update_lost)
  = throws (request_failed "TypeError: Failed to fetch")
  /\ messages (fst (sendMessage insert_first "c1" "Hello" role_user None update_lost))
     = [mk_message "row-2" "c1" "Hello" "user" None "t2" "t2"].
Proof.
  destruct (C4_sendMessage_paired_requests insert_first "c1" "Hello" role_user None
              update_lost _ _ _ eq_refl) as (_ & Hstate & Hthrown & Hkept & _).
  split; [exact Hthrown|]. rewrite Hstate. exact (proj1 Hkept).
Defined.

Lemma C5_witness :
  exists row,
    snd (createConversation "New Chat" "gemini" signed_in) = returns row
    /\ conversations (fst (createConversation "New Chat" "gemini" signed_in))
       = conversations signed_in ++ [row]
    /\ user_id row = "u1"
    /\ title row = "New Chat"
    /\ model row = "gemini"
    /\ last_message row = None
    /\ exists n, id row = gen_random_uuid n
                 /\ created_at row = now n
                 /\ updated_at row = now n.
Proof.
  exact (proj1 (proj2 (proj2
           (C5_createConversation_relies_on_the_store "New Chat" "gemini" signed_in)))
           "u1" eq_refl eq_refl eq_refl).
Defined.

(** C5, as the specification has it, fails.  Without a session the error
    thrown is the one the store answered, a store error and not
    [AuthRequired]; and with a session nothing is inserted when the request
    gets no answer. *)
Lemma C5_counterexample :
  session signed_out = None
  /\ snd (createConversation "New Chat" "gpt-3.5-turbo" signed_out)
     = throws (row_level_security "conversations")
  /\ error_class (row_level_security "conversations") <> AuthRequired
  /\ session insert_lost = Some "u1"
  /\ snd (createConversation "New Chat" "gpt-3.5-turbo" insert_lost)
     = throws (request_failed "TypeError: Failed to fetch").
Proof. repeat split. discriminate. Qed.

(** Both requests are sent even when the first one to arrive fails: here the
    insert is lost, the call throws its error, and the conversation shows
    a last message that is in no table. *)
Example sendMessage_insert_lost :
  sendMessage insert_first "c1" "Hello" role_user None insert_lost
  = (mk_database [mk_profile "u1" "alice@example.org" "t0" "t0"]
                 [mk_conversation "c1" "New Chat" "u1" "gpt-3.5-turbo" "t1" "t2"
                                  (Some "Hello")]
                 [] (Some "u1") 3 [],
     throws (request_failed "TypeError: Failed to fetch")).
Proof. reflexivity. Qed.

(** When both requests fail, the caller sees the error of the insert. *)
Example sendMessage_both_lost :
  snd (sendMessage update_first "c1" "Hello" role_user None both_lost)
  = throws (request_failed "update")
  /\ snd (sendMessage insert_first "c1" "Hello" role_user None both_lost)
     = throws (request_failed "insert").
Proof. split; reflexivity. Qed.

End RelayExamples.

(** ** Sign-up and sign-in *)

Section AuthProperties.
Import JS Auth.
Context {browser : Browser}.

Lemma call_spec (c : Call) (m : Module_state) :
  call c m
  = match refused c with
    | Some e => (m, rejected e)
    | None =>
        match authRequest m with
        | Some pending => (m, follows (promise pending))
        | None => start (request_of c) m
        end
    end.
Proof.
  destruct c as [email password|email password]; cbn [call refused request_of];
    unfold signUp, signIn.
  - destruct (is_empty email || is_empty password); [reflexivity|].
    destruct (utf16_length password <? 6)%nat; reflexivity.
  - destruct (is_empty email || is_empty password); reflexivity.
Qed.






End AuthProperties.

Section AuthExamples.
Import JS Auth.



(** A sign-up made while a sign-in is in flight is not sent: its caller
    receives the outcome of the sign-in. *)
Example signUp_follows_signIn :
  call (call_signUp "bob@example.org" "hunter22") in_flight = (in_flight, follows 0).
Proof. reflexivity. Qed.

Example wrong_password_settles :
  settle (Normal (mkAuthAnswer (mkAuthData None None) (Some "Invalid login credentials")))
         in_flight
  = (mkState None [signInWithPassword_request "alice@example.org" "secret1"] 1,
     Some (0%nat, Throw (ErrorObject "Invalid email or password. Please try again."), [])).
Proof. reflexivity. Qed.

End AuthExamples.

(** ** The client state store *)

Section StoreProperties.
Import Types Store.

(** ** Helper lemmas on [addMessage] *)

Lemma addMessage_messages (m : Message) (s : ChatStore) :
  messages (addMessage m s) = messages s ++ [m].
Proof. reflexivity. Qed.

Lemma addMessage_conversations (m : Message) (s : ChatStore) :
  conversations (addMessage m s)
  = map (refresh (msg_conversation_id m) (msg_content m)) (conversations s).
Proof. reflexivity. Qed.

Lemma refresh_id (cid text : string) (conv : Conversation) :
  conv_id (refresh cid text conv) = conv_id conv.
Proof. unfold refresh; destruct (conv_id conv =? cid)%string; reflexivity. Qed.

Lemma refresh_hit (cid text : string) (conv : Conversation) :
  conv_id conv = cid -> conv_last_message (refresh cid text conv) = Some text.
Proof.
  intros <-. unfold refresh. now rewrite String.eqb_refl.
Qed.

Lemma refresh_miss (cid text : string) (conv : Conversation) :
  conv_id conv <> cid -> refresh cid text conv = conv.
Proof.
  intros H. unfold refresh.
  destruct (String.eqb_spec (conv_id conv) cid); [contradiction | reflexivity].
Qed.

Lemma last_content_for_snoc (cid : string) (ms : list Message) (m : Message) :
  last_content_for cid (ms ++ [m])
  = if (cid =? msg_conversation_id m)%string
    then Some (msg_content m) else last_content_for cid ms.
Proof.
  unfold last_content_for. rewrite fold_left_app. reflexivity.
Qed.

Lemma run_snoc (ts : list (ChatStore -> ChatStore)) (t : ChatStore -> ChatStore)
      (s : ChatStore) :
  run (ts ++ [t]) s = t (run ts s).
Proof. unfold run. rewrite fold_left_app. reflexivity. Qed.

Lemma run_addMessage_messages (ms : list Message) (s : ChatStore) :
  messages (run (map addMessage ms) s) = messages s ++ ms.
Proof.
  induction ms as [|m ms IH] using rev_ind.
  - cbn. now rewrite app_nil_r.
  - rewrite map_app; cbn [map]. rewrite run_snoc, addMessage_messages, IH.
    now rewrite <- app_assoc.
Qed.

Lemma run_addMessage_ids (ms : list Message) (s : ChatStore) :
  map conv_id (conversations (run (map addMessage ms) s))
  = map conv_id (conversations s).
Proof.
  induction ms as [|m ms IH] using rev_ind; [reflexivity|].
  rewrite map_app; cbn [map]. rewrite run_snoc, addMessage_conversations.
  rewrite map_map. rewrite <- IH. apply map_ext. intros c. apply refresh_id.
Qed.

Lemma run_addMessage_cache (ms : list Message) (s : ChatStore) :
  map conv_last_message (conversations (run (map addMessage ms) s))
  = map (cached ms) (conversations s).
Proof.
  induction ms as [|m ms IH] using rev_ind.
  - cbn. apply map_ext. intros c. reflexivity.
  - rewrite map_app; cbn [map]. rewrite run_snoc, addMessage_conversations.
    pose proof (run_addMessage_ids ms s) as Hids.
    revert IH Hids.
    generalize (conversations (run (map addMessage ms) s)) as now_.
    generalize (conversations s) as old.
    induction old as [|o old IHold]; intros [|c now_] IH Hids;
      try discriminate; [reflexivity|].
    cbn [map] in *. injection IH as Hc IH. injection Hids as Hid Hids.
    f_equal; [|now apply IHold].
    unfold cached. rewrite last_content_for_snoc, <- Hid.
    destruct (String.eqb_spec (conv_id c) (msg_conversation_id m)) as [E|E].
    + now apply refresh_hit.
    + rewrite (refresh_miss _ _ _ E). rewrite Hc. unfold cached.
      now rewrite Hid.
Qed.


(** C7. [addMessage m] is one state change that appends [m] to the message
    list and sets [last_message] of every listed conversation whose id is
    [m.conversation_id] to [m.content]; the other conversations and the
    other fields of the state are untouched.  Hence, after any sequence of
    [addMessage] calls, the cached [last_message] of a listed conversation
    is the content of the message appended last for it. *)
Theorem C7_addMessage_last_message (s : ChatStore) (m : Message) :
  messages (addMessage m s) = messages s ++ [m]
  /\ map conv_id (conversations (addMessage m s)) = map conv_id (conversations s)
  /\ (forall c, In c (conversations (addMessage m s)) ->
                conv_id c = msg_conversation_id m ->
                conv_last_message c = Some (msg_content m))
  /\ (forall c, In c (conversations s) ->
                conv_id c <> msg_conversation_id m ->
                In c (conversations (addMessage m s)))
  /\ (user (addMessage m s) = user s
      /\ currentConversation (addMessage m s) = currentConversation s
      /\ selectedModel (addMessage m s) = selectedModel s
      /\ isDarkMode (addMessage m s) = isDarkMode s
      /\ isAuthenticated (addMessage m s) = isAuthenticated s)
  /\ (forall ms,
        messages (run (map addMessage ms) s) = messages s ++ ms
        /\ map conv_last_message (conversations (run (map addMessage ms) s))
           = map (cached ms) (conversations s)).
Proof.
  split; [apply addMessage_messages|].
  split.
  { rewrite addMessage_conversations, map_map. apply map_ext.
    intros c. apply refresh_id. }
  split.
  { intros c Hin Hid. rewrite addMessage_conversations in Hin.
    apply in_map_iff in Hin. destruct Hin as [c0 [<- _]].
    rewrite refresh_id in Hid. now apply refresh_hit. }
  split.
  { intros c Hin Hid. rewrite addMessage_conversations.
    apply in_map_iff. exists c. split; [now apply refresh_miss | exact Hin]. }
  split; [repeat split|].
  intros ms. split; [apply run_addMessage_messages | apply run_addMessage_cache].
Qed.

Lemma C7_witness :
  conv_last_message (with_last_message chat1 "Hi there") = Some "Hi there".
Proof.
  apply (proj1 (proj2 (proj2 (C7_addMessage_last_message signed_in reply)))
               (with_last_message chat1 "Hi there")).
  - cbn. left. reflexivity.
  - reflexivity.
Defined.

Lemma trace_on_SIGNED_OUT (s : ChatStore) :
  trace on_SIGNED_OUT s =
  [ mkChatStore None (conversations s) (currentConversation s) (messages s)
                (selectedModel s) (isDarkMode s) false;
    mkChatStore None (conversations s) (currentConversation s) (messages s)
                (selectedModel s) (isDarkMode s) false;
    mkChatStore None (conversations s) None (messages s)
                (selectedModel s) (isDarkMode s) false;
    mkChatStore None (conversations s) None []
                (selectedModel s) (isDarkMode s) false;
    mkChatStore None [] None [] (selectedModel s) (isDarkMode s) false ].
Proof. reflexivity. Qed.

(** C6, as the code has it.  [setUser null] clears the user and the
    authentication flag and nothing else.  The logout is the [SIGNED_OUT]
    handler of the application, which calls five setters one after the
    other: five state changes, after the last of which the user, the
    authentication flag, the current conversation, the message list and
    the conversation list are cleared, the selected model and the
    dark-mode flag being kept. *)
Theorem C6_logout_is_five_transitions (s : ChatStore) :
  (user (setUser None s) = None
   /\ isAuthenticated (setUser None s) = false
   /\ currentConversation (setUser None s) = currentConversation s
   /\ messages (setUser None s) = messages s
   /\ conversations (setUser None s) = conversations s)
  /\ List.length (trace on_SIGNED_OUT s) = 5%nat
  /\ last (trace on_SIGNED_OUT s) s = run on_SIGNED_OUT s
  /\ logged_out (run on_SIGNED_OUT s)
  /\ selectedModel (run on_SIGNED_OUT s) = selectedModel s
  /\ isDarkMode (run on_SIGNED_OUT s) = isDarkMode s.
Proof.
  split; [repeat split|].
  rewrite trace_on_SIGNED_OUT. unfold logged_out.
  repeat split.
Qed.

(** C6, as the specification has it, fails: on the signed-in sample state
    [setUser null] leaves the current conversation, the message and the
    two conversations in place. *)
Lemma C6_counterexample : ~ logged_out (setUser None signed_in).
Proof.
  unfold logged_out. intros (_ & _ & H & _). discriminate H.
Qed.

End StoreProperties.


(** ** More on the adapter: the OpenAI stream, growth, frames *)

Section StreamProperties.
Import Types JS Ai Snapshots.
Local Open Scope js_scope.
Context {engine : Engine} {env : Env} {providers : Providers}.

Lemma gen_bind_assoc {Y A B C} (m : Gen Y A) (f : A -> Gen Y B) (g : B -> Gen Y C) :
  bind (bind m f) g = bind m (fun a => bind (f a) g).
Proof.
  destruct m as [ys [a|e]]; [|reflexivity].
  cbn. destruct (f a) as [zs [b|e]]; cbn.
  - destruct (g b) as [ws c]. now rewrite app_assoc.
  - reflexivity.
Qed.

Lemma gen_bind_ret_r {Y A} (m : Gen Y A) : bind m (fun a => ret a) = m.
Proof. destruct m as [ys [a|e]]; cbn; [now rewrite app_nil_r | reflexivity]. Qed.

Lemma chunk_delta_content (chunk : value) (d : string) :
  chunk_delta chunk = Normal d ->
  exists v, chunk_content chunk = Normal v /\ append_value "" v = d.
Proof.
  unfold chunk_delta. destruct (chunk_content chunk) as [v|e]; cbn; [|discriminate].
  intros [= <-]. now exists v.
Qed.

Lemma openai_chunks_deltas (cs : list value) (failure : option thrown)
      (ds : list string) (acc : string) :
  Forall2 (fun chunk d => chunk_delta chunk = Normal d) cs ds ->
  openai_chunks cs failure acc
  = (running acc ds,
     match failure with
     | None => Normal (fold_left String.append ds acc)
     | Some e => Throw e
     end).
Proof.
  revert ds acc. induction cs as [|chunk rest IH]; intros ds acc Hds.
  - inversion Hds; subst. cbn. now destruct failure.
  - inversion Hds as [|c d cs' ds' Hd Hrest]; subst.
    apply chunk_delta_content in Hd. destruct Hd as (v & Hv & Hd).
    cbn [openai_chunks]. rewrite openai_chunk_eq, Hv, gen_bind_normal.
    rewrite (IH ds' _ Hrest), append_value_empty, Hd. reflexivity.
Qed.

(** X1. The OpenAI path of [streamAIResponse] (the [default] case).  When
    the SDK returns a stream whose chunks each carry a delta (the deltas
    being [ds], in order) and that ends normally, the adapter yields one
    snapshot per chunk with the text accumulated so far, then the [done]
    snapshot with the concatenation of all the deltas. *)
Theorem X1_openai_stream_accumulates (message model_id : string) (history : list Turn)
        (s : ChunkStream) (ds : list string) :
  model_id <> "gemini" ->
  model_id <> "deepseek-chat" ->
  openai_create_stream (chat_params "gpt-3.5-turbo" message history (Some true))
  = Normal s ->
  chunks_failure s = None ->
  Forall2 (fun chunk d => chunk_delta chunk = Normal d) (chunks s) ds ->
  streamAIResponse message model_id history
  = (running "" ds ++ [final_snapshot (concat_all ds)], Normal tt)
  /\ List.length (yielded (streamAIResponse message model_id history))
     = S (List.length (chunks s)).
Proof.
  intros Hg Hd Hcreate Hend Hds.
  apply String.eqb_neq in Hg, Hd.
  assert (Hrun : streamAIResponse message model_id history
                 = (running "" ds ++ [final_snapshot (concat_all ds)], Normal tt)).
  { unfold streamAIResponse. rewrite Hg, Hd.
    unfold streamOpenAIResponse, streamOpenAIResponse_try.
    rewrite Hcreate, gen_bind_await.
    rewrite (openai_chunks_deltas _ (chunks_failure s) ds "" Hds), Hend.
    rewrite gen_bind_normal, (fold_append_concat_all ds ""). reflexivity. }
  split; [exact Hrun|].
  rewrite Hrun. cbn [yielded fst]. rewrite length_app, running_length.
  cbn [List.length]. rewrite (Forall2_length Hds). lia.
Qed.

(** X2. Optional chaining makes the OpenAI loop lenient where the Deepseek
    loop is not: a chunk whose [choices] has no first entry, or whose first
    choice has no [delta], contributes the empty text (and a snapshot that
    repeats the text so far), while a frame with such a payload makes the
    Deepseek loop throw. *)
Theorem X2_missing_choice_is_empty_delta (chunk choices : value) (frame : string) :
  get chunk "choices" = Normal choices ->
  get_first choices = Normal VUndefined ->
  chunk_delta chunk = Normal ""
  /\ (forall acc, openai_chunk acc chunk = ([snap acc], Normal acc))
  /\ (parse (slice frame 6) = Normal chunk ->
      frame_content frame
      = Throw (ErrorObject (TypeError_message VUndefined "delta"))).
Proof.
  intros Hc Hf.
  assert (Hcontent : chunk_content chunk = Normal (VStr "")).
  { unfold chunk_content. cbn [bind completion_monad]. rewrite Hc, Hf. reflexivity. }
  split; [unfold chunk_delta; now rewrite Hcontent|]. split.
  - intros acc. rewrite openai_chunk_eq, Hcontent. cbn [append_value].
    now rewrite append_empty_r.
  - intros Hp. unfold frame_content. cbn [bind completion_monad].
    rewrite Hp, Hc, Hf. reflexivity.
Qed.

(** ** Growth of the snapshots on every path *)

Lemma last_default {A} (a d d' : A) (l : list A) :
  last (a :: l) d = last (a :: l) d'.
Proof.
  revert a. induction l as [|b l IH]; intros a; [reflexivity|].
  change (last (b :: l) d = last (b :: l) d'). apply IH.
Qed.

Lemma last_text_cons (acc : string) (s : AIStreamResponse) (t : string)
      (ss : list AIStreamResponse) :
  snapshot_text s = Some t ->
  last_text acc (s :: ss) = last_text t ss.
Proof.
  intros Hs. unfold last_text. cbn [map]. rewrite Hs.
  destruct (map snapshot_text ss) as [|x l]; [reflexivity|].
  change (last (x :: l) (Some acc) = last (x :: l) (Some t)). apply last_default.
Qed.

Lemma extends_previous_app (acc a : string) (ys zs : list AIStreamResponse) :
  extends_previous acc ys ->
  last_text acc ys = Some a ->
  extends_previous a zs ->
  extends_previous acc (ys ++ zs) /\ last_text acc (ys ++ zs) = last_text a zs.
Proof.
  revert acc. induction ys as [|s ys IH]; intros acc Hext Hlast Hzs.
  - cbn in Hlast. injection Hlast as ->. split; [exact Hzs | reflexivity].
  - cbn [extends_previous] in Hext.
    destruct (snapshot_text s) as [t|] eqn:Hs; [|contradiction].
    destruct Hext as [Hp Hext].
    rewrite (last_text_cons acc s t ys Hs) in Hlast.
    destruct (IH t Hext Hlast Hzs) as [H1 H2].
    split.
    + cbn [app extends_previous]. rewrite Hs. split; assumption.
    + cbn [app]. now rewrite (last_text_cons acc s t _ Hs).
Qed.

Lemma grows_from_bind (acc : string) (m : Gen AIStreamResponse string)
      (k : string -> Gen AIStreamResponse string) :
  grows_from acc m ->
  (forall a, grows_from a (k a)) ->
  grows_from acc (bind m k).
Proof.
  intros [Hext Hlast] Hk. destruct m as [ys [a|e]].
  - rewrite gen_bind_normal. destruct (Hk a) as [Hka Hkl].
    unfold yielded, outcome in *. cbn [fst snd] in *.
    specialize (Hlast a eq_refl).
    destruct (extends_previous_app acc a ys (fst (k a)) Hext Hlast Hka) as [H1 H2].
    split; [exact H1|]. intros acc' Hout.
    change (last_text acc (ys ++ fst (k a)) = Some acc').
    rewrite H2. now apply Hkl.
  - split; [exact Hext|]. intros acc' Hout. discriminate Hout.
Qed.

Lemma grows_from_step (acc : string) (v : value) :
  grows_from acc ([snap (append_value acc v)], Normal (append_value acc v)).
Proof.
  split.
  - cbn. rewrite append_value_empty. split; [apply prefix_append | exact I].
  - intros acc' [= <-]. reflexivity.
Qed.

Lemma grows_from_nothing (acc : string) (c : completion string) :
  (forall acc', c = Normal acc' -> acc' = acc) ->
  grows_from acc ([], c).
Proof.
  intros Hc. split; [exact I|]. intros acc' Hout. cbn in *.
  now rewrite (Hc acc' Hout).
Qed.

Lemma deepseek_lines_grow (lines : list string) (acc : string) :
  grows_from acc (deepseek_lines acc lines).
Proof.
  revert acc. induction lines as [|line lines IH]; intros acc.
  - apply grows_from_nothing. now intros acc' [= <-].
  - cbn [deepseek_lines]. apply grows_from_bind; [|exact IH].
    rewrite deepseek_line_eq. destruct (startsWith line "data: ").
    + destruct (frame_content line) as [v|e].
      * apply grows_from_step.
      * apply grows_from_nothing. discriminate.
    + apply grows_from_nothing. now intros acc' [= <-].
Qed.

Lemma deepseek_read_loop_grows (rs : list (list byte)) (failure : option thrown)
      (acc : string) :
  grows_from acc (deepseek_read_loop rs failure acc).
Proof.
  revert acc. induction rs as [|value rest IH]; intros acc.
  - cbn. destruct failure; apply grows_from_nothing;
      [discriminate | now intros acc' [= <-]].
  - cbn [deepseek_read_loop]. apply grows_from_bind; [apply deepseek_lines_grow | exact IH].
Qed.

Lemma openai_chunks_grow (cs : list value) (failure : option thrown) (acc : string) :
  grows_from acc (openai_chunks cs failure acc).
Proof.
  revert acc. induction cs as [|chunk rest IH]; intros acc.
  - cbn. destruct failure; apply grows_from_nothing;
      [discriminate | now intros acc' [= <-]].
  - cbn [openai_chunks]. apply grows_from_bind; [|exact IH].
    rewrite openai_chunk_eq. destruct (chunk_content chunk) as [v|e].
    + apply grows_from_step.
    + apply grows_from_nothing. discriminate.
Qed.

(** A guarded block that runs a loop and then yields the [done] snapshot:
    the snapshots before the last one are those of the loop, and on success
    the last one repeats the text of the one before it. *)
Lemma guarded_loop_grows (loop : Gen AIStreamResponse string) :
  grows_from "" loop ->
  let block := bind loop (fun acc => yield (mkAIStreamResponse (VStr acc) true None)) in
  exists last,
    yielded (gen_try_catch block (fun e => yield (error_snapshot e)))
    = yielded loop ++ [last]
    /\ extends_previous "" (yielded loop)
    /\ match outcome block with
       | Normal _ => snapshot_text last = last_text "" (yielded loop)
       | Throw e => last = error_snapshot e
       end.
Proof.
  intros [Hext Hlast]. destruct loop as [ys [acc|e]]; cbn in *.
  - eexists. split; [reflexivity|]. split; [exact Hext|].
    cbn. symmetry. now apply Hlast.
  - eexists. split; [reflexivity|]. split; [exact Hext | reflexivity].
Qed.

(** X3. On every path and whatever the upstream does, the snapshots before
    the terminal one grow: the content of each is a string that starts with
    the content of the one before.  On the two accumulating paths, when the
    exchange does not fail, the terminal snapshot repeats the text of the
    last snapshot before it (the empty text when there is none). *)
Theorem X3_snapshots_grow (message model_id : string) (history : list Turn) :
  exists pre last,
    yielded (streamAIResponse message model_id history) = pre ++ [last]
    /\ extends_previous "" pre
    /\ (model_id <> "gemini" ->
        stream_failure message model_id history = None ->
        snapshot_text last = last_text "" pre).
Proof.
  unfold streamAIResponse, stream_failure.
  destruct (String.eqb_spec model_id "gemini") as [Hg|Hg].
  { unfold generateGeminiResponse.
    destruct (gemini_chat _ _ _) as [t|e]; cbn;
      eexists [], _; (split; [reflexivity|]); (split; [exact I|]);
      intros Hn; contradiction. }
  destruct (model_id =? "deepseek-chat")%string.
  - unfold streamDeepseekResponse, streamDeepseekResponse_try.
    rewrite gen_bind_await.
    destruct (fetch (deepseek_request message history (Some true))) as [response|e].
    2:{ exists [], (error_snapshot e). cbn. repeat split. intros _ [=]. }
    destruct (ok response); cbn [negb].
    2:{ rewrite gen_bind_await. eexists [], _. cbn. repeat split. intros _ [=]. }
    rewrite gen_bind_ret.
    destruct (body response) as [reader|].
    2:{ rewrite gen_bind_await. eexists [], _. cbn. repeat split. intros _ [=]. }
    rewrite gen_bind_ret.
    destruct (guarded_loop_grows _ (deepseek_read_loop_grows (reads reader)
                                      (read_failure reader) ""))
      as (last & Hy & Hext & Hl).
    exists (yielded (deepseek_read_loop (reads reader) (read_failure reader) "")), last.
    split; [exact Hy|]. split; [exact Hext|]. intros _ Hnone.
    match type of Hl with match ?o with _ => _ end => destruct o end;
      [exact Hl | discriminate Hnone].
  - unfold streamOpenAIResponse, streamOpenAIResponse_try.
    rewrite gen_bind_await.
    destruct (openai_create_stream _) as [s|e].
    2:{ exists [], (error_snapshot e). cbn. repeat split. intros _ [=]. }
    destruct (guarded_loop_grows _ (openai_chunks_grow (chunks s) (chunks_failure s) ""))
      as (last & Hy & Hext & Hl).
    exists (yielded (openai_chunks (chunks s) (chunks_failure s) "")), last.
    split; [exact Hy|]. split; [exact Hext|]. intros _ Hnone.
    match type of Hl with match ?o with _ => _ end => destruct o end;
      [exact Hl | discriminate Hnone].
Qed.

(** ** The Deepseek stream is a function of its frames *)

Lemma deepseek_lines_app (l1 l2 : list string) (acc : string) :
  deepseek_lines acc (l1 ++ l2)
  = bind (deepseek_lines acc l1) (fun acc' => deepseek_lines acc' l2).
Proof.
  revert acc. induction l1 as [|line l1 IH]; intros acc.
  - cbn [app deepseek_lines]. now rewrite gen_bind_ret.
  - cbn [app deepseek_lines]. rewrite gen_bind_assoc.
    destruct (deepseek_line acc line) as [ys [a|e]]; [|reflexivity].
    cbn. now rewrite IH.
Qed.

Lemma deepseek_lines_marked (lines : list string) (acc : string) :
  deepseek_lines acc lines
  = deepseek_lines acc (filter (fun line => startsWith line "data: ") lines).
Proof.
  revert acc. induction lines as [|line lines IH]; intros acc; [reflexivity|].
  cbn [filter]. destruct (startsWith line "data: ") eqn:Hm.
  - cbn [deepseek_lines].
    destruct (deepseek_line acc line) as [ys [a|e]]; [|reflexivity].
    cbn. now rewrite IH.
  - cbn [deepseek_lines]. rewrite deepseek_line_eq, Hm.
    etransitivity; [apply (gen_bind_ret acc (fun a => deepseek_lines a lines)) | apply IH].
Qed.

Lemma deepseek_read_loop_frames (rs : list (list byte)) (failure : option thrown)
      (acc : string) :
  deepseek_read_loop rs failure acc
  = bind (deepseek_lines acc (frames rs)) (end_of_stream failure).
Proof.
  revert acc. induction rs as [|value rest IH]; intros acc.
  - cbn. destruct failure; reflexivity.
  - rewrite frames_cons, deepseek_lines_app, gen_bind_assoc.
    cbn [deepseek_read_loop].
    rewrite (deepseek_lines_marked (lines_of_chunk (TextDecoder_decode value))).
    change (filter (fun line => startsWith line "data: ")
                   (lines_of_chunk (TextDecoder_decode value)))
      with (frames_of_chunk value).
    destruct (deepseek_lines acc (frames_of_chunk value)) as [ys [a|e]]; [|reflexivity].
    cbn. now rewrite IH.
Qed.

(** X5. For the model ['gemini'] the stream is the single-shot response in
    one jump: exactly one snapshot, with [done = true], carrying the content
    and the error of what [generateAIResponse] returns for the same
    input. *)
Theorem X5_gemini_stream_is_single_shot (message : string) (history : list Turn) :
  exists r,
    generateAIResponse message "gemini" history = Normal r
    /\ streamAIResponse message "gemini" history
       = ([mkAIStreamResponse (content r) true (error r)], Normal tt).
Proof.
  unfold generateAIResponse, streamAIResponse. cbn [String.eqb Ascii.eqb Bool.eqb].
  unfold generateGeminiResponse.
  destruct (gemini_chat _ _ _) as [t|e]; eexists; split; reflexivity.
Qed.

(** X6. A response of the Deepseek endpoint with a non-success status is
    reported with the status text, in both modes, without its body being
    read: the single-shot call returns the fallback record and the stream is
    the single error snapshot, whatever [json] and [body] hold. *)
Theorem X6_deepseek_non_success_status (message : string) (history : list Turn)
        (single streamed : Response) :
  fetch (deepseek_request message history None) = Normal single ->
  ok single = false ->
  fetch (deepseek_request message history (Some true)) = Normal streamed ->
  ok streamed = false ->
  generateAIResponse message "deepseek-chat" history
  = Normal (mkAIResponse (VStr fallback)
                         (Some ("Deepseek API error: " ++ statusText single)%string))
  /\ streamAIResponse message "deepseek-chat" history
     = ([mkAIStreamResponse (VStr fallback) true
           (Some ("Deepseek API error: " ++ statusText streamed)%string)],
        Normal tt).
Proof.
  intros Hf1 Hok1 Hf2 Hok2. split.
  - unfold generateAIResponse. cbn [String.eqb Ascii.eqb Bool.eqb].
    rewrite generateDeepseekResponse_eq. cbn [bind completion_monad].
    now rewrite Hf1, Hok1.
  - now rewrite (deepseek_non_success_status message history streamed Hf2 Hok2).
Qed.

End StreamProperties.


Section StreamExamples.
Import Types JS Ai Snapshots Demo Samples.

Lemma X1_witness :
  streamAIResponse (providers := openai_ok) "Hello" "gpt-4" []
  = ([snap "Hi"; snap "Hi there"; final_snapshot "Hi there"], Normal tt).
Proof.
  refine (proj1 (@X1_openai_stream_accumulates engine env openai_ok "Hello" "gpt-4" []
                   (mkChunkStream [delta_chunk "Hi"; delta_chunk " there"] None)
                   ["Hi"; " there"] _ _ eq_refl eq_refl _));
    [discriminate | discriminate | repeat constructor].
Defined.

Lemma X2_witness :
  chunk_delta no_choice = Normal ""
  /\ frame_content (json_text "data: {'choices':[],'usage':{}}")
     = Throw (ErrorObject (TypeError_message VUndefined "delta")).
Proof.
  destruct (@X2_missing_choice_is_empty_delta engine no_choice (VArr [])
              (json_text "data: {'choices':[],'usage':{}}") eq_refl eq_refl)
    as (Hdelta & _ & Hframe).
  split; [exact Hdelta | exact (Hframe eq_refl)].
Defined.

Lemma X3_witness :
  exists pre last,
    yielded (streamAIResponse (providers := openai_ok) "Hello" "gpt-4" [])
    = pre ++ [last]
    /\ extends_previous "" pre
    /\ snapshot_text last = last_text "" pre.
Proof.
  destruct (@X3_snapshots_grow engine env openai_ok "Hello" "gpt-4" [])
    as (pre & last & Hy & Hext & Hlast).
  exists pre, last. split; [exact Hy|]. split; [exact Hext|].
  apply Hlast; [discriminate | reflexivity].
Defined.

Lemma X6_witness :
  generateAIResponse (providers := bad_gateway) "Hello" "deepseek-chat" []
  = Normal (mkAIResponse (VStr fallback) (Some "Deepseek API error: Bad Gateway")).
Proof.
  exact (proj1 (@X6_deepseek_non_success_status engine env bad_gateway "Hello" []
                  _ _ eq_refl eq_refl eq_refl eq_refl)).
Defined.

End StreamExamples.

(** ** Reading from the store *)

Section OrderBy.
Context {A : Type} (leb : A -> A -> bool).
Hypothesis leb_total : forall a b, leb a b = true \/ leb b a = true.

Import Reads.

Lemma insert_ordered_perm (x : A) (l : list A) :
  Permutation (insert_ordered leb x l) (x :: l).
Proof.
  induction l as [|y l IH]; cbn; [reflexivity|].
  destruct (leb x y); [reflexivity|].
  rewrite IH. apply perm_swap.
Qed.

Lemma order_by_perm (l : list A) : Permutation (order_by leb l) l.
Proof.
  induction l as [|x l IH]; cbn; [constructor|].
  rewrite insert_ordered_perm. now constructor.
Qed.

Lemma insert_ordered_sorted (x : A) (l : list A) :
  Sorted (fun a b => leb a b = true) l ->
  Sorted (fun a b => leb a b = true) (insert_ordered leb x l).
Proof.
  induction l as [|y l IH]; intros Hs; cbn.
  - repeat constructor.
  - destruct (leb x y) eqn:Hxy.
    + constructor; [exact Hs | constructor; exact Hxy].
    + inversion Hs as [|? ? Hl Hhd]; subst.
      constructor; [now apply IH|].
      destruct l as [|z l]; cbn.
      * constructor. destruct (leb_total x y); congruence.
      * destruct (leb x z).
        -- constructor. destruct (leb_total x y); congruence.
        -- inversion Hhd; subst. now constructor.
Qed.

Lemma order_by_sorted (l : list A) :
  Sorted (fun a b => leb a b = true) (order_by leb l).
Proof.
  induction l as [|x l IH]; cbn; [constructor | now apply insert_ordered_sorted].
Qed.

End OrderBy.

Section ReadProperties.
Import Types Db Api Reads.
Context {server : Server} {chronology : Chronology}.

Lemma send_fault (db : Database) : fst (send db) = hd None (transport db).
Proof. unfold send. destruct (transport db); reflexivity. Qed.

Lemma owns_conversation_send (db : Database) (c : uuid) :
  owns_conversation (snd (send db)) c = owns_conversation db c.
Proof.
  destruct (send_spec db) as (_ & Hc & _ & Hs & _).
  unfold owns_conversation, is_session_user. now rewrite Hc, Hs.
Qed.

Lemma readable_messages_send (db : Database) :
  readable_messages (snd (send db)) = readable_messages db.
Proof.
  destruct (send_spec db) as (_ & _ & Hm & _).
  unfold readable_messages. rewrite Hm.
  apply filter_ext. intros m. apply owns_conversation_send.
Qed.

Lemma readable_conversations_send (db : Database) :
  readable_conversations (snd (send db)) = readable_conversations db.
Proof.
  destruct (send_spec db) as (_ & Hc & _ & Hs & _).
  unfold readable_conversations, is_session_user. now rewrite Hc, Hs.
Qed.

Lemma getMessages_eq (conversationId : string) (db : Database) :
  getMessages conversationId db
  = (snd (send db),
     match hd None (transport db) with
     | Some e => throws e
     | None =>
         returns (order_by (fun a b => not_after (message_created_at a)
                                                  (message_created_at b))
                           (filter (fun m => (conversation_id m =? conversationId)%string)
                                   (readable_messages db)))
     end).
Proof.
  unfold getMessages. rewrite <- send_fault, <- readable_messages_send.
  destruct (send db) as [[e|] db0]; reflexivity.
Qed.

Lemma getConversations_eq (db : Database) :
  getConversations db
  = (snd (send db),
     match hd None (transport db) with
     | Some e => throws e
     | None =>
         returns (order_by (fun a b => not_after (updated_at b) (updated_at a))
                           (readable_conversations db))
     end).
Proof.
  unfold getConversations. rewrite <- send_fault, <- readable_conversations_send.
  destruct (send db) as [[e|] db0]; reflexivity.
Qed.

Section Ordered.
Hypothesis not_after_total : forall a b, not_after a b = true \/ not_after b a = true.

(** X13. [getMessages] changes no table.  What it returns is the messages
    of the requested conversation that the session may read, each exactly
    once, in ascending order of [created_at]; for a conversation the
    session does not own this is the empty list, not an error. *)
Theorem X13_getMessages_filtered_and_ordered (conversationId : string) (db : Database) :
  conversations (fst (getMessages conversationId db)) = conversations db
  /\ messages (fst (getMessages conversationId db)) = messages db
  /\ (forall l,
        snd (getMessages conversationId db) = returns l ->
        Permutation l (filter (fun m => (conversation_id m =? conversationId)%string)
                              (readable_messages db))
        /\ Sorted (fun a b => not_after (message_created_at a) (message_created_at b) = true) l
        /\ Forall (fun m => conversation_id m = conversationId
                            /\ In m (messages db)
                            /\ owns_conversation db conversationId = true) l)
  /\ (owns_conversation db conversationId = false ->
      hd None (transport db) = None ->
      snd (getMessages conversationId db) = returns []).
Proof.
  rewrite getMessages_eq. cbn [fst snd].
  destruct (send_spec db) as (_ & Hc & Hm & _).
  split; [exact Hc|]. split; [exact Hm|]. split.
  - intros l Hl. destruct (hd None (transport db)); [discriminate Hl|].
    injection Hl as <-.
    split; [apply order_by_perm|].
    split; [apply order_by_sorted; intros a b; apply not_after_total|].
    apply Forall_forall. intros m Hin.
    apply (Permutation_in _ (order_by_perm _ _)) in Hin.
    apply filter_In in Hin. destruct Hin as [Hin Hid].
    apply String.eqb_eq in Hid.
    unfold readable_messages in Hin. apply filter_In in Hin.
    destruct Hin as [Hin Hown]. rewrite Hid in Hown. repeat split; assumption.
  - intros Hown ->. f_equal.
    assert (Hnone : filter (fun m => (conversation_id m =? conversationId)%string)
                           (readable_messages db) = []).
    { unfold readable_messages. clear Hm.
      induction (messages db) as [|m ms IH]; [reflexivity|].
      cbn [filter]. destruct (owns_conversation db (conversation_id m)) eqn:Hm';
        [|exact IH].
      cbn [filter]. destruct (String.eqb_spec (conversation_id m) conversationId) as [E|E];
        [|exact IH].
      rewrite E in Hm'. congruence. }
    now rewrite Hnone.
Qed.

(** X14. [getConversations] changes no table.  What it returns is the
    conversations owned by the user of the session, each exactly once, the
    most recently updated first; conversations of other users never
    appear. *)
Theorem X14_getConversations_own_and_ordered (db : Database) :
  conversations (fst (getConversations db)) = conversations db
  /\ messages (fst (getConversations db)) = messages db
  /\ forall l,
       snd (getConversations db) = returns l ->
       Permutation l (readable_conversations db)
       /\ Sorted (fun a b => not_after (updated_at b) (updated_at a) = true) l
       /\ Forall (fun c => In c (conversations db) /\ session db = Some (user_id c)) l.
Proof.
  rewrite getConversations_eq. cbn [fst snd].
  destruct (send_spec db) as (_ & Hc & Hm & _).
  split; [exact Hc|]. split; [exact Hm|].
  intros l Hl. destruct (hd None (transport db)); [discriminate Hl|].
  injection Hl as <-.
  split; [apply order_by_perm|].
  split; [apply order_by_sorted; intros a b; apply not_after_total|].
  apply Forall_forall. intros c Hin.
  apply (Permutation_in _ (order_by_perm _ _)) in Hin.
  unfold readable_conversations in Hin. apply filter_In in Hin.
  destruct Hin as [Hin Hown]. split; [exact Hin|].
  now apply is_session_user_eq.
Qed.

End Ordered.

End ReadProperties.

Section RoundTrips.
Import Types Db Api Reads.
Context {server : Server} {chronology : Chronology}.

Lemma insert_message_data (c text new_role : string) (f : option string)
      (db db1 : Database) (row : messages_row) :
  insert_message c text new_role f db = (db1, data row) ->
  owns_conversation db c = true
  /\ conversation_id row = c
  /\ messages db1 = messages db ++ [row]
  /\ conversations db1 = conversations db
  /\ session db1 = session db.
Proof.
  unfold insert_message.
  destruct (send_spec db) as (_ & Hc & Hm & Hs & _).
  pose proof (owns_conversation_send db c) as Hown.
  destruct (send db) as [[e|] db0]; cbn [snd] in *; [discriminate|].
  destruct (owns_conversation db0 c); cbn [negb]; [|discriminate].
  destruct (negb _); [discriminate|].
  intros [= <- <-]. cbn. rewrite Hm, Hc, Hs. repeat split. now symmetry.
Qed.

Lemma owns_conversation_same (db1 db2 : Database) (c : uuid) :
  map id (conversations db2) = map id (conversations db1) ->
  map user_id (conversations db2) = map user_id (conversations db1) ->
  session db2 = session db1 ->
  owns_conversation db2 c = owns_conversation db1 c.
Proof.
  unfold owns_conversation, is_session_user. intros Hid Hu ->.
  revert Hid Hu. generalize (conversations db1) as l1, (conversations db2) as l2.
  induction l1 as [|r1 l1 IH]; intros [|r2 l2] Hid Hu; try discriminate; [reflexivity|].
  cbn in *. injection Hid as Hid1 Hid. injection Hu as Hu1 Hu.
  now rewrite Hid1, Hu1, (IH l2 Hid Hu).
Qed.

Lemma update_last_message_keeps (c text : string) (db db1 : Database) (a : answer unit) :
  update_last_message c text db = (db1, a) ->
  messages db1 = messages db
  /\ session db1 = session db
  /\ map id (conversations db1) = map id (conversations db)
  /\ map user_id (conversations db1) = map user_id (conversations db).
Proof.
  intros Hu. pose proof (update_last_message_spec c text db) as (Hm & Hs & _ & Hc).
  rewrite Hu in Hm, Hs, Hc. cbn [fst snd] in *.
  split; [exact Hm|]. split; [exact Hs|].
  destruct a as [u|e].
  - destruct Hc as (Hid & Huid & _). split; assumption.
  - rewrite Hc. split; reflexivity.
Qed.

(** X15. What [sendMessage] returns can be read back: after a call that
    returned a row, whichever of its two requests reached the store first,
    a [getMessages] for the same conversation that reaches the store
    returns a list that contains that row. *)
Theorem X15_sent_message_is_listed (order : arrival) (conversationId text : string)
        (r : Role) (fileUrl : option string) (db db' : Database) (row : messages_row) :
  sendMessage order conversationId text r fileUrl db = (db', returns row) ->
  hd None (transport db') = None ->
  exists l,
    snd (getMessages conversationId db') = returns l
    /\ In row l
    /\ content row = text.
Proof.
  intros Hsend Hgo.
  assert (Hrow : In row (messages db')
                 /\ conversation_id row = conversationId
                 /\ owns_conversation db' conversationId = true
                 /\ content row = text).
  { unfold sendMessage, sendMessage_requests in Hsend. destruct order.
    - destruct (insert_message conversationId text (Role_text r) fileUrl db)
        as [db1 mr] eqn:Hi.
      destruct (update_last_message conversationId text db1) as [db2 ur] eqn:Hu.
      destruct mr as [row'|e]; [|discriminate Hsend].
      destruct ur as [u|e]; [|discriminate Hsend].
      injection Hsend as <- <-.
      pose proof (insert_message_spec conversationId text r fileUrl db) as (_ & _ & _ & Hspec).
      rewrite Hi in Hspec. cbn [fst snd] in Hspec. destruct Hspec as (_ & _ & Htext & _).
      destruct (insert_message_data _ _ _ _ _ _ _ Hi) as (Hown & Hcid & Hm1 & Hc1 & Hs1).
      destruct (update_last_message_keeps _ _ _ _ _ Hu) as (Hm2 & Hs2 & Hid2 & Hu2).
      split; [rewrite Hm2, Hm1; apply in_or_app; right; now left|].
      split; [exact Hcid|]. split; [|exact Htext].
      rewrite <- Hown. apply owns_conversation_same.
      + now rewrite Hid2, Hc1.
      + now rewrite Hu2, Hc1.
      + now rewrite Hs2, Hs1.
    - destruct (update_last_message conversationId text db) as [db1 ur] eqn:Hu.
      destruct (insert_message conversationId text (Role_text r) fileUrl db1)
        as [db2 mr] eqn:Hi.
      destruct mr as [row'|e]; [|discriminate Hsend].
      destruct ur as [u|e]; [|discriminate Hsend].
      injection Hsend as <- <-.
      pose proof (insert_message_spec conversationId text r fileUrl db1) as (_ & _ & _ & Hspec).
      rewrite Hi in Hspec. cbn [fst snd] in Hspec. destruct Hspec as (_ & _ & Htext & _).
      destruct (insert_message_data _ _ _ _ _ _ _ Hi) as (Hown & Hcid & Hm1 & Hc1 & Hs1).
      split; [rewrite Hm1; apply in_or_app; right; now left|].
      split; [exact Hcid|]. split; [|exact Htext].
      rewrite <- Hown. apply owns_conversation_same; [now rewrite Hc1 .. | exact Hs1]. }
  destruct Hrow as (Hin & Hcid & Hown & Htext).
  rewrite getMessages_eq, Hgo. cbn [snd].
  eexists. split; [reflexivity|]. split; [|exact Htext].
  apply (Permutation_in _ (Permutation_sym (order_by_perm _ _))).
  apply filter_In. split.
  - unfold readable_messages. apply filter_In. split; [exact Hin|]. now rewrite Hcid.
  - now apply String.eqb_eq.
Qed.

End RoundTrips.

Section MoreRoundTrips.
Import Types Db Api Reads.
Context {server : Server} {chronology : Chronology}.

Lemma createConversation_returns (new_title new_model : string) (db db' : Database)
      (row : conversations_row) :
  createConversation new_title new_model db = (db', returns row) ->
  conversations db' = conversations db ++ [row]
  /\ messages db' = messages db
  /\ session db' = session db
  /\ session db = Some (user_id row)
  /\ title row = new_title
  /\ model row = new_model
  /\ last_message row = None.
Proof.
  unfold createConversation, insert_conversation, auth_getUser_id.
  destruct (send_spec db) as (_ & Hc & Hm & Hs & _).
  destruct (send db) as [[e|] db0]; cbn [snd] in *; [discriminate|].
  unfold is_session_user. rewrite Hs.
  destruct (session db) as [uid|]; [|discriminate].
  rewrite String.eqb_refl. cbn [negb].
  destruct (negb (has_profile db0 uid)); [discriminate|].
  intros [= <- <-]. cbn. rewrite Hc, Hm, Hs. repeat split.
Qed.

(** X16. What [createConversation] returns can be read back: after a call
    that returned a row, a [getConversations] that reaches the store returns
    a list that contains that row, which belongs to the user of the session
    and has the title and the model that were given. *)
Theorem X16_created_conversation_is_listed (new_title new_model : string)
        (db db' : Database) (row : conversations_row) :
  createConversation new_title new_model db = (db', returns row) ->
  hd None (transport db') = None ->
  exists l,
    snd (getConversations db') = returns l
    /\ In row l
    /\ session db' = Some (user_id row)
    /\ title row = new_title
    /\ model row = new_model.
Proof.
  intros Hcreate Hgo.
  destruct (createConversation_returns _ _ _ _ _ Hcreate)
    as (Hc & _ & Hs & Hu & Ht & Hmo & _).
  rewrite getConversations_eq, Hgo. cbn [snd].
  eexists. split; [reflexivity|].
  split; [|split; [now rewrite Hs | split; assumption]].
  apply (Permutation_in _ (Permutation_sym (order_by_perm _ _))).
  unfold readable_conversations. apply filter_In. split.
  - rewrite Hc. apply in_or_app. right. now left.
  - apply is_session_user_eq. now rewrite Hs.
Qed.

Lemma filter_unique {A} (key : A -> string) (l : list A) (x : A) :
  NoDup (map key l) ->
  In x l ->
  filter (fun y => (key y =? key x)%string) l = [x].
Proof.
  induction l as [|y l IH]; intros Hnd Hin; [destruct Hin|].
  cbn [map] in Hnd. inversion Hnd as [|? ? Hnotin Hnd']; subst.
  cbn [filter]. destruct Hin as [->|Hin].
  - rewrite String.eqb_refl. f_equal.
    clear IH Hnd Hnd'. induction l as [|z l IH]; [reflexivity|].
    cbn [filter]. destruct (String.eqb_spec (key z) (key x)) as [E|E].
    + exfalso. apply Hnotin. cbn. left. exact E.
    + apply IH. intros Hin. apply Hnotin. cbn. now right.
  - destruct (String.eqb_spec (key y) (key x)) as [E|E].
    + exfalso. apply Hnotin. rewrite E. now apply in_map.
    + now apply IH.
Qed.

(** X17. [getCurrentUser].  Without a session it answers [null] and asks
    nothing of the store.  A profile it returns is a row of [profiles]
    whose id is the user of the session, never somebody else's.  With a
    session, a request that reaches the store and a profile row for the
    user (the ids of [profiles] being a primary key), it returns that
    profile; in every other case it answers [null]. *)
Theorem X17_getCurrentUser_own_profile (db : Database) :
  (session db = None -> getCurrentUser db = (db, None))
  /\ (forall p,
        snd (getCurrentUser db) = Some p ->
        In p (profiles db) /\ session db = Some (profile_id p))
  /\ (forall p,
        session db = Some (profile_id p) ->
        hd None (transport db) = None ->
        NoDup (map profile_id (profiles db)) ->
        In p (profiles db) ->
        snd (getCurrentUser db) = Some p)
  /\ (forall uid,
        session db = Some uid ->
        has_profile db uid = false ->
        snd (getCurrentUser db) = None).
Proof.
  unfold getCurrentUser, auth_getUser_id, select_profile.
  destruct (send_spec db) as (Hp & _ & _ & Hs & _).
  pose proof (send_fault db) as Hfault.
  assert (Hread : readable_profiles (snd (send db)) = readable_profiles db).
  { unfold readable_profiles, is_session_user. now rewrite Hp, Hs. }
  split; [intros ->; reflexivity|].
  destruct (session db) as [uid|] eqn:Hsession.
  2:{ split; [intros p [=]|]. split; [intros p [=]|]. intros uid' [=]. }
  destruct (send db) as [[e|] db0]; cbn [fst snd] in *.
  { split; [intros p [=]|]. rewrite <- Hfault.
    split; [intros p _ [=]|]. intros uid' _ _. reflexivity. }
  rewrite Hread.
  assert (Hsel : forall p,
            In p (filter (fun p => (profile_id p =? uid)%string) (readable_profiles db)) ->
            In p (profiles db) /\ profile_id p = uid).
  { intros p Hin. apply filter_In in Hin. destruct Hin as [Hin Hid].
    apply String.eqb_eq in Hid. unfold readable_profiles in Hin.
    apply filter_In in Hin. now destruct Hin. }
  split; [|split].
  - intros p Hsome.
    destruct (filter _ (readable_profiles db)) as [|q [|q' l]]; cbn in Hsome;
      try discriminate Hsome.
    injection Hsome as <-.
    destruct (Hsel q (or_introl eq_refl)) as [Hin Hid]. now rewrite Hid.
  - intros p [= Hid] _ Hnd Hin. subst uid.
    assert (Hall : readable_profiles db
                   = filter (fun q => (profile_id q =? profile_id p)%string) (profiles db)).
    { unfold readable_profiles, is_session_user. rewrite Hsession.
      apply filter_ext. intros q. apply String.eqb_sym. }
    rewrite Hall.
    assert (Hone : filter (fun q => (profile_id q =? profile_id p)%string) (profiles db) = [p])
      by now apply filter_unique.
    rewrite Hone. cbn. now rewrite String.eqb_refl.
  - intros uid' [= <-] Hnone.
    destruct (filter _ (readable_profiles db)) as [|q [|q' l]] eqn:Hf; try reflexivity.
    exfalso. destruct (Hsel q) as [Hin Hid]; [try rewrite Hf; now left|].
    unfold has_profile in Hnone.
    assert (Hex : existsb (fun p => (profile_id p =? uid)%string) (profiles db) = true).
    { apply existsb_exists. exists q. split; [exact Hin | now apply String.eqb_eq]. }
    congruence.
Qed.

End MoreRoundTrips.

Section ReadExamples.
Import Types Db Api Reads.

Lemma X13_witness : snd (getMessages "c2" two_messages) = returns [].
Proof.
  exact (proj2 (proj2 (proj2
           (@X13_getMessages_filtered_and_ordered chronology String.leb_total
              "c2" two_messages))) eq_refl eq_refl).
Defined.

Lemma X14_witness :
  Forall (fun c => In c (conversations two_messages)
                   /\ session two_messages = Some (user_id c))
         [ mk_conversation "c3" "Notes" "u1" "gemini" "t3" "t6" None;
           mk_conversation "c1" "New Chat" "u1" "gpt-3.5-turbo" "t1" "t5" (Some "Hi") ].
Proof.
  exact (proj2 (proj2 (proj2 (proj2
           (@X14_getConversations_own_and_ordered chronology String.leb_total
              two_messages)) _ eq_refl))).
Defined.

Lemma X15_witness :
  exists l,
    snd (getMessages "c1"
           (fst (sendMessage update_first "c1" "Hello" role_user None signed_in)))
    = returns l
    /\ In (mk_message "row-3" "c1" "Hello" "user" None "t3" "t3") l
    /\ content (mk_message "row-3" "c1" "Hello" "user" None "t3" "t3") = "Hello".
Proof.
  exact (@X15_sent_message_is_listed server chronology update_first "c1" "Hello"
           role_user None signed_in _ _ eq_refl eq_refl).
Defined.

Lemma X16_witness :
  exists l,
    snd (getConversations (fst (createConversation "New Chat" "gemini" signed_in)))
    = returns l
    /\ In (mk_conversation "row-2" "New Chat" "u1" "gemini" "t2" "t2" None) l
    /\ session (fst (createConversation "New Chat" "gemini" signed_in)) = Some "u1"
    /\ "New Chat" = "New Chat"
    /\ "gemini" = "gemini".
Proof.
  exact (@X16_created_conversation_is_listed server chronology "New Chat" "gemini"
           signed_in _ _ eq_refl eq_refl).
Defined.

Lemma X17_witness :
  snd (getCurrentUser two_messages)
  = Some (mk_profile "u1" "alice@example.org" "t0" "t0").
Proof.
  refine (proj1 (proj2 (proj2 (X17_getCurrentUser_own_profile two_messages)))
            (mk_profile "u1" "alice@example.org" "t0" "t0") eq_refl eq_refl _ _).
  - repeat constructor; cbn; intuition discriminate.
  - cbn. now left.
Defined.

End ReadExamples.

(** ** What the writes of the relay keep *)

Section WriteProperties.
Import Types Db Api Schema.
Context {server : Server}.

Lemma touch_foreign (db : Database) (c text : string) (row : conversations_row) :
  session db <> Some (user_id row) -> touch db c text row = row.
Proof.
  intros Hf. unfold touch.
  destruct (is_session_user db (Some (user_id row))) eqn:E.
  - apply is_session_user_eq in E. contradiction.
  - now rewrite andb_false_r.
Qed.

Lemma touch_keys (db : Database) (c text : string) (row : conversations_row) :
  id (touch db c text row) = id row /\ user_id (touch db c text row) = user_id row.
Proof. unfold touch. destruct (_ && _); split; reflexivity. Qed.

(** What one update request does to the tables. *)
Lemma update_last_message_effect (c text : string) (db : Database) :
  let db' := fst (update_last_message c text db) in
  profiles db' = profiles db
  /\ messages db' = messages db
  /\ session db' = session db
  /\ map id (conversations db') = map id (conversations db)
  /\ map user_id (conversations db') = map user_id (conversations db)
  /\ (forall row, In row (conversations db) -> session db <> Some (user_id row) ->
                  In row (conversations db'))
  /\ (session db = None -> conversations db' = conversations db).
Proof.
  destruct (send_spec db) as (Hp & Hc & Hm & Hs & _).
  unfold update_last_message. destruct (send db) as [[e|] db0]; cbn [fst snd] in *.
  { rewrite Hc. repeat split; try assumption. intros; assumption. }
  cbn. rewrite Hc.
  split; [exact Hp|]. split; [exact Hm|]. split; [exact Hs|].
  split; [rewrite map_map; apply map_ext; intros r; apply touch_keys|].
  split; [rewrite map_map; apply map_ext; intros r; apply touch_keys|].
  split.
  - intros row Hin Hf. apply in_map_iff. exists row. split; [|exact Hin].
    apply touch_foreign. now rewrite Hs.
  - intros Hnone. rewrite <- (map_id (conversations db)) at 2.
    apply map_ext. intros row. apply touch_foreign. rewrite Hs, Hnone. discriminate.
Qed.

(** What one insert request into [messages] does to the tables. *)
Lemma insert_message_effect (c text new_role : string) (f : option string)
      (db : Database) :
  let db' := fst (insert_message c text new_role f db) in
  profiles db' = profiles db
  /\ conversations db' = conversations db
  /\ session db' = session db
  /\ (messages db' = messages db
      \/ exists row,
           messages db' = messages db ++ [row]
           /\ conversation_id row = c
           /\ role row = new_role
           /\ owns_conversation db c = true
           /\ (new_role = "user" \/ new_role = "assistant")).
Proof.
  destruct (send_spec db) as (Hp & Hc & Hm & Hs & _).
  pose proof (owns_conversation_send db c) as Hown.
  unfold insert_message. destruct (send db) as [[e|] db0]; cbn [fst snd] in *.
  { repeat split; try assumption. now left. }
  destruct (owns_conversation db0 c); cbn [negb fst].
  2:{ repeat split; try assumption. now left. }
  destruct ((new_role =? "user")%string || (new_role =? "assistant")%string) eqn:Hr;
    cbn [negb fst].
  2:{ repeat split; try assumption. now left. }
  cbn. rewrite Hm. repeat split; try assumption. right. eexists.
  split; [reflexivity|]. split; [reflexivity|]. split; [reflexivity|].
  split; [now symmetry|].
  apply orb_true_iff in Hr. destruct Hr as [Hr|Hr]; apply String.eqb_eq in Hr; auto.
Qed.

Lemma owns_conversation_listed (db : Database) (c : uuid) :
  owns_conversation db c = true -> In c (map id (conversations db)).
Proof.
  unfold owns_conversation. intros H. apply existsb_exists in H.
  destruct H as (row & Hin & Hrow). apply andb_true_iff in Hrow.
  destruct Hrow as [Hid _]. apply String.eqb_eq in Hid. subst c. now apply in_map.
Qed.

Lemma owns_conversation_session (db : Database) (c : uuid) :
  owns_conversation db c = true -> session db <> None.
Proof.
  unfold owns_conversation, is_session_user. intros H Hnone. rewrite Hnone in H.
  induction (conversations db) as [|row l IH]; [discriminate H|].
  cbn in H. rewrite andb_false_r in H. now apply IH.
Qed.

(** What the two requests of [sendMessage] do to the tables, in either
    order. *)
Lemma sendMessage_effect (order : arrival) (c text : string) (r : Role)
      (f : option string) (db : Database) :
  let db' := fst (sendMessage order c text r f db) in
  profiles db' = profiles db
  /\ session db' = session db
  /\ map id (conversations db') = map id (conversations db)
  /\ map user_id (conversations db') = map user_id (conversations db)
  /\ (forall row, In row (conversations db) -> session db <> Some (user_id row) ->
                  In row (conversations db'))
  /\ (session db = None -> conversations db' = conversations db)
  /\ (messages db' = messages db
      \/ exists row,
           messages db' = messages db ++ [row]
           /\ conversation_id row = c
           /\ role row = Role_text r
           /\ owns_conversation db c = true).
Proof.
  assert (Hstate : fst (sendMessage order c text r f db)
                   = fst (fst (sendMessage_requests order c text r f db))).
  { unfold sendMessage.
    destruct (sendMessage_requests order c text r f db) as [[db' mr] ur].
    destruct mr, ur; reflexivity. }
  cbn zeta. rewrite Hstate. unfold sendMessage_requests. destruct order.
  - pose proof (insert_message_effect c text (Role_text r) f db) as (Hp1 & Hc1 & Hs1 & Hm1).
    destruct (insert_message c text (Role_text r) f db) as [db1 mr]. cbn [fst] in *.
    pose proof (update_last_message_effect c text db1)
      as (Hp2 & Hm2 & Hs2 & Hid2 & Hu2 & Hf2 & Hn2).
    destruct (update_last_message c text db1) as [db2 ur]. cbn [fst] in *.
    split; [congruence|]. split; [congruence|].
    split; [now rewrite Hid2, Hc1|]. split; [now rewrite Hu2, Hc1|].
    split; [|split].
    + intros row Hin Hforeign. apply Hf2; [now rewrite Hc1 | now rewrite Hs1].
    + intros Hnone. rewrite Hn2; [exact Hc1 | now rewrite Hs1].
    + rewrite Hm2.
      destruct Hm1 as [Hm1|(row & Hm1 & Hcid & Hrole & Hown & _)]; [now left|].
      right. exists row. repeat split; assumption.
  - pose proof (update_last_message_effect c text db)
      as (Hp1 & Hm1 & Hs1 & Hid1 & Hu1 & Hf1 & Hn1).
    destruct (update_last_message c text db) as [db1 ur]. cbn [fst] in *.
    pose proof (insert_message_effect c text (Role_text r) f db1) as (Hp2 & Hc2 & Hs2 & Hm2).
    destruct (insert_message c text (Role_text r) f db1) as [db2 mr]. cbn [fst] in *.
    split; [congruence|]. split; [congruence|].
    split; [now rewrite Hc2|]. split; [now rewrite Hc2|].
    split; [|split].
    + intros row Hin Hforeign. rewrite Hc2. now apply Hf1.
    + intros Hnone. rewrite Hc2. now apply Hn1.
    + destruct Hm2 as [Hm2|(row & Hm2 & Hcid & Hrole & Hown & _)].
      * left. now rewrite Hm2.
      * right. exists row. rewrite Hm2, Hm1. repeat split; try assumption.
        rewrite <- Hown. symmetry. apply owns_conversation_same; assumption.
Qed.

(** What [createConversation] does to the tables. *)
Lemma createConversation_effect (new_title new_model : string) (db : Database) :
  let db' := fst (createConversation new_title new_model db) in
  profiles db' = profiles db
  /\ messages db' = messages db
  /\ session db' = session db
  /\ (conversations db' = conversations db
      \/ exists row,
           conversations db' = conversations db ++ [row]
           /\ session db = Some (user_id row)
           /\ has_profile db (user_id row) = true).
Proof.
  unfold createConversation, insert_conversation, auth_getUser_id.
  destruct (send_spec db) as (Hp & Hc & Hm & Hs & _).
  assert (Hprofile : forall u, has_profile (snd (send db)) u = has_profile db u).
  { intros u. unfold has_profile. now rewrite Hp. }
  destruct (send db) as [[e|] db0]; cbn [fst snd] in *.
  { repeat split; try assumption. now left. }
  unfold is_session_user. rewrite Hs.
  destruct (session db) as [uid|].
  2:{ cbn. repeat split; try assumption. now left. }
  rewrite String.eqb_refl. cbn [negb]. rewrite Hprofile.
  destruct (has_profile db uid) eqn:Hhas; cbn.
  - rewrite Hc. repeat split; try assumption. right. eexists.
    split; [reflexivity|]. split; [reflexivity | exact Hhas].
  - repeat split; try assumption. now left.
Qed.

End WriteProperties.

Section WriteSeries.
Import Types Db Api Schema Writes.
Context {server : Server}.

Lemma owns_conversation_more (db : Database) (rows : list conversations_row)
      (extra : conversations_row) (c : uuid) :
  existsb (fun row => (id row =? c)%string && is_session_user db (Some (user_id row))) rows
  = true ->
  existsb (fun row => (id row =? c)%string && is_session_user db (Some (user_id row)))
          (rows ++ [extra]) = true.
Proof. intros H. rewrite existsb_app, H. reflexivity. Qed.

(** What one write does, in the terms the series need. *)
Lemma write_effect (w : Write) (db : Database) :
  profiles (write w db) = profiles db
  /\ session (write w db) = session db
  /\ (forall row, In row (conversations db) -> session db <> Some (user_id row) ->
                  In row (conversations (write w db)))
  /\ (session db = None ->
      conversations (write w db) = conversations db
      /\ messages (write w db) = messages db)
  /\ (forall c, owns_conversation db c = true -> owns_conversation (write w db) c = true)
  /\ (forall c, In c (map id (conversations db)) ->
                In c (map id (conversations (write w db))))
  /\ (Forall (fun c => has_profile db (user_id c) = true) (conversations db) ->
      Forall (fun c => has_profile (write w db) (user_id c) = true)
             (conversations (write w db)))
  /\ (exists new,
        messages (write w db) = messages db ++ new
        /\ Forall (fun m => owns_conversation (write w db) (conversation_id m) = true
                            /\ (role m = "user" \/ role m = "assistant")) new).
Proof.
  destruct w as [new_title new_model|order c text r f]; cbn [write].
  - pose proof (createConversation_effect new_title new_model db) as (Hp & Hm & Hs & Hc).
    cbn zeta in *.
    set (db' := fst (createConversation new_title new_model db)) in *.
    assert (Hhas : forall u, has_profile db' u = has_profile db u).
    { intros u. unfold has_profile. now rewrite Hp. }
    split; [exact Hp|]. split; [exact Hs|].
    destruct Hc as [Hc|(row & Hc & Hrow & Hprofile)].
    + split; [intros row Hin _; now rewrite Hc|].
      split; [intros _; split; assumption|].
      split; [intros c Hown; rewrite <- Hown; apply owns_conversation_same;
              [now rewrite Hc .. | exact Hs]|].
      split; [intros c Hin; now rewrite Hc|].
      split.
      * rewrite Hc. intros Hall. eapply Forall_impl; [|exact Hall].
        intros c Hc'. now rewrite Hhas.
      * exists []. rewrite app_nil_r. split; [exact Hm | constructor].
    + split; [intros row' Hin _; rewrite Hc; apply in_or_app; now left|].
      split; [intros Hnone; rewrite Hnone in Hrow; discriminate Hrow|].
      split.
      { intros c Hown. unfold owns_conversation, is_session_user in *.
        rewrite Hc, Hs. now apply (owns_conversation_more db). }
      split; [intros c Hin; rewrite Hc, map_app; apply in_or_app; now left|].
      split.
      * rewrite Hc. intros Hall. apply Forall_app. split.
        -- eapply Forall_impl; [|exact Hall]. intros c Hc'. now rewrite Hhas.
        -- constructor; [now rewrite Hhas | constructor].
      * exists []. rewrite app_nil_r. split; [exact Hm | constructor].
  - pose proof (sendMessage_effect order c text r f db)
      as (Hp & Hs & Hid & Hu & Hforeign & Hnone & Hm).
    cbn zeta in *.
    set (db' := fst (sendMessage order c text r f db)) in *.
    assert (Hown : forall c', owns_conversation db' c' = owns_conversation db c').
    { intros c'. now apply owns_conversation_same. }
    split; [exact Hp|]. split; [exact Hs|]. split; [exact Hforeign|].
    split.
    { intros Hn. split; [now apply Hnone|].
      destruct Hm as [Hm|(row & _ & _ & _ & Ho)]; [exact Hm|].
      apply owns_conversation_session in Ho. contradiction. }
    split; [intros c' Ho; now rewrite Hown|].
    split; [intros c' Hin; now rewrite Hid|].
    split.
    { intros Hall.
      apply (Forall_map user_id (fun u => has_profile db' u = true)).
      rewrite Hu. apply (Forall_map user_id (fun u => has_profile db' u = true)).
      eapply Forall_impl; [|exact Hall].
      intros c' Hc'. cbn. unfold has_profile in *. now rewrite Hp. }
    destruct Hm as [Hm|(row & Hm & Hcid & Hrole & Ho)].
    + exists []. rewrite app_nil_r. split; [exact Hm | constructor].
    + exists [row]. split; [exact Hm|]. constructor; [|constructor].
      split; [rewrite Hcid, Hown; exact Ho|].
      rewrite Hrole. destruct r; [now left | now right].
Qed.

End WriteSeries.

Section WriteSeriesTheorems.
Import Types Db Api Schema Writes.
Context {server : Server}.

Lemma writes_cons (w : Write) (ws : list Write) (db : Database) :
  writes (w :: ws) db = writes ws (write w db).
Proof. reflexivity. Qed.

Lemma writes_session (ws : list Write) (db : Database) :
  session (writes ws db) = session db /\ profiles (writes ws db) = profiles db.
Proof.
  revert db. induction ws as [|w ws IH]; intros db; [split; reflexivity|].
  rewrite writes_cons. destruct (IH (write w db)) as [Hs Hp].
  destruct (write_effect w db) as (Hp1 & Hs1 & _). split; congruence.
Qed.

Lemma writes_keep_ownership (ws : list Write) (db : Database) (c : uuid) :
  owns_conversation db c = true -> owns_conversation (writes ws db) c = true.
Proof.
  revert db. induction ws as [|w ws IH]; intros db Hown; [exact Hown|].
  rewrite writes_cons. apply IH.
  now apply (proj1 (proj2 (proj2 (proj2 (proj2 (write_effect w db)))))).
Qed.

(** X18. The foreign keys and the role check of the schema are kept by the
    relay: from tables where every message belongs to a listed
    conversation, every conversation to a user with a profile and every
    role is ['user'] or ['assistant'], any series of [createConversation]
    and [sendMessage] calls, whether they return or throw and in whatever
    order their requests arrive, leads to tables with the same
    properties. *)
Theorem X18_writes_keep_references (ws : list Write) (db : Database) :
  references_hold db -> references_hold (writes ws db).
Proof.
  revert db. induction ws as [|w ws IH]; intros db Href; [exact Href|].
  rewrite writes_cons. apply IH. clear IH.
  destruct Href as (Hmsg & Hconv & Hrole).
  destruct (write_effect w db)
    as (_ & _ & _ & _ & _ & Hlisted & Hprofiles & new & Hnew & Hall).
  split; [|split].
  - rewrite Hnew. apply Forall_app. split.
    + eapply Forall_impl; [|exact Hmsg]. intros m Hm. now apply Hlisted.
    + eapply Forall_impl; [|exact Hall]. intros m [Hown _].
      now apply owns_conversation_listed.
  - now apply Hprofiles.
  - rewrite Hnew. apply Forall_app. split; [exact Hrole|].
    eapply Forall_impl; [|exact Hall]. now intros m [_ Hr].
Qed.

(** X19. The relay cannot touch what belongs to other users.  Through any
    series of [createConversation] and [sendMessage] calls, a conversation
    the session's user does not own stays in the table as it is, no message
    is removed or changed, and every message added lies in a conversation
    the session's user owns. *)
Theorem X19_writes_are_confined_to_the_session (ws : list Write) (db : Database) :
  (forall row, In row (conversations db) -> session db <> Some (user_id row) ->
               In row (conversations (writes ws db)))
  /\ exists new,
       messages (writes ws db) = messages db ++ new
       /\ Forall (fun m => owns_conversation (writes ws db) (conversation_id m) = true) new.
Proof.
  revert db. induction ws as [|w ws IH]; intros db.
  - split; [now intros|]. exists []. rewrite app_nil_r. split; [reflexivity | constructor].
  - rewrite writes_cons.
    destruct (write_effect w db) as (_ & Hs & Hforeign & _ & _ & _ & _ & new1 & Hnew1 & Hall1).
    destruct (IH (write w db)) as (Hkeep & new2 & Hnew2 & Hall2).
    split.
    + intros row Hin Hf. apply Hkeep; [now apply Hforeign | now rewrite Hs].
    + exists (new1 ++ new2). split; [now rewrite Hnew2, Hnew1, app_assoc|].
      apply Forall_app. split; [|exact Hall2].
      eapply Forall_impl; [|exact Hall1]. intros m [Hown _].
      now apply writes_keep_ownership.
Qed.

(** X20. Without a session nothing is written: whatever series of
    [createConversation] and [sendMessage] calls an anonymous client makes,
    the three tables stay as they were. *)
Theorem X20_anonymous_writes_nothing (ws : list Write) (db : Database) :
  session db = None ->
  profiles (writes ws db) = profiles db
  /\ conversations (writes ws db) = conversations db
  /\ messages (writes ws db) = messages db.
Proof.
  revert db. induction ws as [|w ws IH]; intros db Hnone; [repeat split|].
  rewrite writes_cons.
  destruct (write_effect w db) as (Hp & Hs & _ & Hanon & _).
  destruct (Hanon Hnone) as [Hc Hm].
  destruct (IH (write w db)) as (Hp' & Hc' & Hm'); [now rewrite Hs|].
  repeat split; congruence.
Qed.

(** X21. The [CHECK] on [role]: an insert into [messages] with a role other
    than ['user'] and ['assistant'] is answered with an error and leaves the
    table as it is, even for a conversation the session owns; the roles
    [sendMessage] can pass are the two admitted ones. *)
Theorem X21_role_check (c text new_role : string) (f : option string) (db : Database) :
  new_role <> "user" ->
  new_role <> "assistant" ->
  messages (fst (insert_message c text new_role f db)) = messages db
  /\ (exists e, snd (insert_message c text new_role f db) = error e)
  /\ (hd None (transport db) = None ->
      owns_conversation db c = true ->
      snd (insert_message c text new_role f db)
      = error (check_violation "messages" "messages_role_check"))
  /\ forall r : Role, Role_text r = "user" \/ Role_text r = "assistant".
Proof.
  intros Hu Ha. apply String.eqb_neq in Hu, Ha.
  destruct (send_spec db) as (_ & _ & Hm & _).
  pose proof (send_fault db) as Hfault.
  pose proof (owns_conversation_send db c) as Hown.
  unfold insert_message. destruct (send db) as [[e|] db0]; cbn [fst snd] in *.
  - split; [exact Hm|]. split; [now exists e|]. rewrite <- Hfault.
    split; [intros [=]|]. intros []; [now left | now right].
  - rewrite Hown, Hu, Ha. cbn [orb negb].
    destruct (owns_conversation db c); cbn [negb fst snd].
    + split; [exact Hm|]. split; [eexists; reflexivity|].
      split; [reflexivity|]. intros []; [now left | now right].
    + split; [exact Hm|]. split; [eexists; reflexivity|].
      split; [intros _ [=]|]. intros []; [now left | now right].
Qed.

End WriteSeriesTheorems.

Section WriteExamples.
Import Types Db Api Schema Writes Reads.

Lemma X18_witness :
  references_hold
    (writes [ create "New Chat" "gemini";
              send_message update_first "c1" "Hello" role_user None;
              send_message insert_first "c2" "Hi" role_assistant None ] two_messages).
Proof.
  apply X18_writes_keep_references.
  unfold references_hold.
  split; [|split]; repeat (apply Forall_cons || apply Forall_nil); cbn; tauto.
Defined.

Lemma X19_witness :
  In (mk_conversation "c2" "Plans" "u2" "gemini" "t2" "t4" None)
     (conversations
        (writes [ send_message insert_first "c2" "Hi" role_user None;
                  send_message update_first "c2" "Hi" role_user None ] two_messages)).
Proof.
  apply (proj1 (X19_writes_are_confined_to_the_session
                  [ send_message insert_first "c2" "Hi" role_user None;
                    send_message update_first "c2" "Hi" role_user None ] two_messages)).
  - cbn. right. left. reflexivity.
  - cbn. discriminate.
Defined.

Lemma X20_witness :
  messages (writes [ create "New Chat" "gemini";
                     send_message insert_first "c1" "Hello" role_user None ] signed_out)
  = messages signed_out.
Proof.
  exact (proj2 (proj2
           (X20_anonymous_writes_nothing
              [ create "New Chat" "gemini";
                send_message insert_first "c1" "Hello" role_user None ] signed_out
              eq_refl))).
Defined.

Lemma X21_witness :
  snd (insert_message "c1" "You are a pirate" "system" None signed_in)
  = error (check_violation "messages" "messages_role_check").
Proof.
  refine (proj1 (proj2 (proj2
            (X21_role_check "c1" "You are a pirate" "system" None signed_in _ _)))
            eq_refl eq_refl); discriminate.
Defined.

End WriteExamples.

(** ** The application component *)

Section TitleProperties.
Import Types JS App.

Lemma split_on_not_empty (sep : ascii) (s : string) : split_on sep s <> [].
Proof.
  destruct s as [|c rest]; cbn; [discriminate|].
  destruct (c =? sep)%char; [discriminate|].
  destruct (split_on sep rest); discriminate.
Qed.

(** Joining the pieces with the separator gives the string back. *)
Lemma concat_split_on (sep : ascii) (s : string) :
  String.concat (String sep "") (split_on sep s) = s.
Proof.
  induction s as [|c rest IH]; [reflexivity|].
  cbn [split_on]. destruct (Ascii.eqb_spec c sep) as [->|Hc].
  - pose proof (split_on_not_empty sep rest) as Hne.
    destruct (split_on sep rest) as [|piece pieces]; [contradiction|].
    change (String.concat (String sep "") ("" :: piece :: pieces))
      with (String sep (String.concat (String sep "") (piece :: pieces))).
    now rewrite IH.
  - pose proof (split_on_not_empty sep rest) as Hne.
    destruct (split_on sep rest) as [|piece pieces]; [contradiction|].
    destruct pieces as [|piece' pieces].
    + cbn in *. now rewrite IH.
    + change (String.concat (String sep "") (String c piece :: piece' :: pieces))
        with (String c (String.concat (String sep "") (piece :: piece' :: pieces))).
      now rewrite IH.
Qed.

Lemma concat_firstn_prefix (sep : string) (l : list string) (k : nat) :
  exists rest,
    String.concat sep l = (String.concat sep (firstn k l) ++ rest)%string.
Proof.
  revert k. induction l as [|x l IH]; intros k.
  - exists "". now destruct k.
  - destruct k as [|k]; [now exists (String.concat sep (x :: l))|].
    cbn [firstn]. destruct l as [|y l].
    + exists "". rewrite firstn_nil. cbn. now rewrite append_empty_r.
    + destruct (IH k) as [rest Hrest].
      destruct k as [|k].
      * exists (sep ++ String.concat sep (y :: l))%string. reflexivity.
      * exists rest.
        change (String.concat sep (x :: y :: l))
          with (x ++ sep ++ String.concat sep (y :: l))%string.
        change (String.concat sep (x :: firstn (S k) (y :: l)))
          with (x ++ sep ++ String.concat sep (firstn (S k) (y :: l)))%string.
        rewrite Hrest. now rewrite !append_assoc.
Qed.

(** X7. [generateTitle].  A content of fewer than four pieces (separated by
    single spaces) is its own title, unchanged.  Otherwise the title is the
    first four pieces joined by spaces, which is a prefix of the content,
    followed by three dots: also when the content has exactly four pieces
    and nothing is cut. *)
Theorem X7_generateTitle (content : string) :
  ((List.length (split_on " " content) < 4)%nat -> generateTitle content = content)
  /\ ((4 <= List.length (split_on " " content))%nat ->
      exists head rest,
        head = String.concat " " (firstn 4 (split_on " " content))
        /\ generateTitle content = (head ++ "...")%string
        /\ content = (head ++ rest)%string).
Proof.
  unfold generateTitle. split.
  - intros Hlt. rewrite firstn_all2 by lia.
    destruct (Nat.leb_spec 4 (List.length (split_on " " content))); [lia|].
    now rewrite append_empty_r, concat_split_on.
  - intros Hge. rewrite length_firstn, Nat.min_l by exact Hge. cbn [Nat.leb].
    destruct (concat_firstn_prefix " " (split_on " " content) 4) as [rest Hrest].
    rewrite concat_split_on in Hrest.
    exists (String.concat " " (firstn 4 (split_on " " content))), rest.
    split; [reflexivity|]. split; [reflexivity | exact Hrest].
Qed.

Lemma X7_witness :
  generateTitle "Hello" = "Hello"
  /\ exists head rest,
       head = String.concat " " (firstn 4 (split_on " " "a b c d"))
       /\ generateTitle "a b c d" = (head ++ "...")%string
       /\ "a b c d" = (head ++ rest)%string.
Proof.
  split.
  - apply (proj1 (X7_generateTitle "Hello")). cbn. lia.
  - apply (proj2 (X7_generateTitle "a b c d")). cbn. lia.
Defined.

End TitleProperties.

Section FormProperties.
Import Types JS App.
Context {browser : Auth.Browser}.

Lemma trim_empty : trim "" = "".
Proof. reflexivity. Qed.

(** X8. The form check of the component is at least as strict as the
    checks of [signIn] and [signUp]: the call [handleAuth] makes for a form
    that [validateForm] accepts is never refused by the argument checks of
    the function called, and for a form that [validateForm] rejects
    nothing is called, so no request is sent. *)
Theorem X8_validateForm_covers_auth_checks (email password : string)
        (isRegistering : bool) (m : Auth.Module_state) :
  (validateForm email password isRegistering = None ->
   Auth.refused (auth_call email password isRegistering) = None
   /\ exists r, handleAuth_call email password isRegistering m
                = (fst (Auth.call (auth_call email password isRegistering) m), Some r)
                /\ forall e, r <> Auth.rejected e)
  /\ (forall message,
        validateForm email password isRegistering = Some message ->
        handleAuth_call email password isRegistering m = (m, None)).
Proof.
  split.
  - intros Hv.
    assert (Hok : Auth.refused (auth_call email password isRegistering) = None).
    { unfold validateForm in Hv.
      destruct (trim email =? "")%string eqn:He; [discriminate|].
      destruct (String.eqb_spec (trim password) "") as [Hp|Hp]; [discriminate|].
      assert (Hpw : Auth.is_empty password = false).
      { unfold Auth.is_empty. apply String.eqb_neq. intros ->. now apply Hp. }
      unfold auth_call. destruct isRegistering; cbn [andb] in Hv.
      - destruct (utf16_length password <? 6)%nat eqn:Hl; [discriminate|].
        cbn [Auth.refused]. unfold Auth.is_empty at 1. now rewrite He, Hpw, Hl.
      - cbn [Auth.refused]. unfold Auth.is_empty at 1. now rewrite He, Hpw. }
    split; [exact Hok|].
    unfold handleAuth_call. rewrite Hv.
    pose proof (call_spec (auth_call email password isRegistering) m) as Hcall.
    rewrite Hok in Hcall.
    destruct (Auth.call (auth_call email password isRegistering) m) as [m' r].
    exists r. split; [reflexivity|].
    intros e ->. destruct (Auth.authRequest m); discriminate Hcall.
  - intros message Hv. unfold handleAuth_call. now rewrite Hv.
Qed.

End FormProperties.

Section FormExamples.
Import Types JS App.

Lemma X8_witness :
  Auth.refused (auth_call " alice@example.org " "secret1" true) = None.
Proof.
  exact (proj1 (proj1 (@X8_validateForm_covers_auth_checks Auth.browser
                         " alice@example.org " "secret1" true Auth.idle) eq_refl)).
Defined.

End FormExamples.

Section ReplyProperties.
Import Types JS Ai Snapshots App.
Local Open Scope js_scope.
Context {engine : Engine} {env : Env} {providers : Providers}.

(** A guarded accumulation ends with a snapshot whose content is a string:
    the accumulated text, or the fallback text. *)
Lemma guarded_accumulation_text (loop : Gen AIStreamResponse string) :
  Forall partial (yielded loop) ->
  let block := bind loop (fun acc => yield (mkAIStreamResponse (VStr acc) true None)) in
  exists last,
    yielded (gen_try_catch block (fun e => yield (error_snapshot e)))
    = yielded loop ++ [last]
    /\ done last = true
    /\ match outcome block with
       | Throw e => last = error_snapshot e
       | Normal _ => stream_error last = None /\ exists t, stream_content last = VStr t
       end.
Proof.
  destruct loop as [ys [acc|e]]; intros Hys; cbn.
  - eexists. repeat split. now exists acc.
  - eexists. repeat split.
Qed.

(** The shape of every stream: snapshots that are not done and carry no
    error, then one terminal snapshot, which is the error snapshot when the
    exchange failed and a [done] snapshot with a string otherwise. *)
Lemma streamAIResponse_shape (message model_id : string) (history : list Turn) :
  exists pre last,
    yielded (streamAIResponse message model_id history) = pre ++ [last]
    /\ Forall partial pre
    /\ done last = true
    /\ match stream_failure message model_id history with
       | Some e => last = error_snapshot e
       | None => stream_error last = None /\ exists t, stream_content last = VStr t
       end.
Proof.
  unfold streamAIResponse, stream_failure, single_shot_exchange.
  destruct (model_id =? "gemini")%string.
  { unfold generateGeminiResponse.
    destruct (gemini_chat _ _ _) as [t|e]; cbn; eexists [], _;
      (split; [reflexivity|]); (split; [constructor|]); (split; [reflexivity|]).
    - split; [reflexivity|]. now exists t.
    - reflexivity. }
  destruct (model_id =? "deepseek-chat")%string.
  - unfold streamDeepseekResponse, streamDeepseekResponse_try.
    rewrite gen_bind_await.
    destruct (fetch (deepseek_request message history (Some true))) as [response|e].
    2:{ exists [], (error_snapshot e). repeat split. constructor. }
    destruct (ok response); cbn [negb].
    2:{ rewrite gen_bind_await. eexists [], _. cbn. repeat split. constructor. }
    rewrite gen_bind_ret.
    destruct (body response) as [reader|].
    2:{ rewrite gen_bind_await. eexists [], _. cbn. repeat split. constructor. }
    rewrite gen_bind_ret.
    pose proof (deepseek_read_loop_partial (reads reader) (read_failure reader) "") as Hp.
    destruct (guarded_accumulation_text _ Hp) as (last & Hy & Hd & Hl).
    exists (yielded (deepseek_read_loop (reads reader) (read_failure reader) "")), last.
    split; [exact Hy|]. split; [exact Hp|]. split; [exact Hd|].
    match type of Hl with match ?o with _ => _ end => destruct o end; exact Hl.
  - unfold streamOpenAIResponse, streamOpenAIResponse_try.
    rewrite gen_bind_await.
    destruct (openai_create_stream _) as [s|e].
    2:{ exists [], (error_snapshot e). repeat split. constructor. }
    pose proof (openai_chunks_partial (chunks s) (chunks_failure s) "") as Hp.
    destruct (guarded_accumulation_text _ Hp) as (last & Hy & Hd & Hl).
    exists (yielded (openai_chunks (chunks s) (chunks_failure s) "")), last.
    split; [exact Hy|]. split; [exact Hp|]. split; [exact Hd|].
    match type of Hl with match ?o with _ => _ end => destruct o end; exact Hl.
Qed.

Lemma consume_until_terminal (pre : list AIStreamResponse) (last : AIStreamResponse)
      (st : Reply) :
  Forall partial pre ->
  done last = true ->
  consume (pre ++ [last]) st
  = mkReply (VStr "") (stream_content last)
            (if truthy_text (stream_error last)
             then Some "Failed to get AI response. Please try again."
             else banner st).
Proof.
  intros Hpre Hdone. revert st. induction Hpre as [|s pre [Hnd Hne] Hpre IH]; intros st.
  - cbn. rewrite Hdone. now destruct (truthy_text (stream_error last)).
  - cbn [app consume]. rewrite Hnd, Hne. cbn [truthy_text]. now rewrite IH.
Qed.

(** X9. The loop of [handleSendMessage] over a stream of
    [streamAIResponse], for every model and whatever the upstream does.
    The stream being [pre ++ [last]], when the loop ends the streaming
    text is cleared, [finalContent] is the content of [last], and the
    banner is raised exactly when [last] carries an error with a message
    that is not empty.  A last snapshot with an error holds the fallback
    text: so when the exchange with the provider fails, [finalContent] is
    the fallback text, which is not empty, and the apology is what is
    then sent to [sendMessage] as the assistant's message.  Without a
    failure no banner is raised, the content of [last] is a string, and
    nothing is saved exactly when that string is empty. *)
Theorem X9_reply_saved_after_the_stream (message model_id : string)
        (history : list Turn) :
  let st := consume (yielded (streamAIResponse message model_id history)) no_reply in
  exists pre last,
    yielded (streamAIResponse message model_id history) = pre ++ [last]
    /\ streamingContent st = VStr ""
    /\ finalContent st = stream_content last
    /\ banner st = (if truthy_text (stream_error last)
                    then Some "Failed to get AI response. Please try again."
                    else None)
    /\ (stream_error last <> None ->
        stream_content last
        = VStr "I apologize, but I encountered an error processing your request."
        /\ reply_to_save st
           = Some (VStr "I apologize, but I encountered an error processing your request."))
    /\ match stream_failure message model_id history with
       | Some e =>
           stream_error last = Some (error_message e)
           /\ finalContent st = VStr fallback
           /\ reply_to_save st = Some (VStr fallback)
           /\ banner st = (if (error_message e =? "")%string then None
                           else Some "Failed to get AI response. Please try again.")
       | None =>
           stream_error last = None
           /\ banner st = None
           /\ exists t, stream_content last = VStr t
                        /\ finalContent st = VStr t
                        /\ reply_to_save st = (if (t =? "")%string then None
                                               else Some (VStr t))
       end.
Proof.
  cbn zeta.
  destruct (streamAIResponse_shape message model_id history)
    as (pre & last & Hy & Hpre & Hdone & Hlast).
  exists pre, last. split; [exact Hy|].
  rewrite Hy, (consume_until_terminal pre last no_reply Hpre Hdone).
  cbn [streamingContent finalContent banner no_reply].
  split; [reflexivity|]. split; [reflexivity|]. split; [reflexivity|].
  destruct (stream_failure message model_id history) as [e|].
  - subst last. cbn [error_snapshot stream_content stream_error truthy_text].
    split; [intros _; split; reflexivity|].
    split; [reflexivity|]. split; [reflexivity|]. split; [reflexivity|].
    now destruct (error_message e =? "")%string.
  - destruct Hlast as [Hne (t & Ht)]. rewrite Hne, Ht. cbn [truthy_text].
    split; [intros H; now contradiction H|].
    split; [reflexivity|]. split; [reflexivity|]. exists t.
    split; [reflexivity|]. split; [reflexivity|].
    unfold reply_to_save. cbn [finalContent truthy].
    now destruct (t =? "")%string.
Qed.

End ReplyProperties.

Section NewChatProperties.
Import Types App.
Context {server : Db.Server}.

(** X10. [handleNewChat].  When the store says the user is not
    authenticated, the sign-in dialog is shown and nothing is asked of the
    relay.  When [createConversation] throws, the client state is left as
    it was and only the error banner is set.  When it returns a row, that
    conversation, titled ['New Chat'], with the model selected in the
    store and owned by the user of the session, becomes the current
    conversation and the first of the list, and the message list is
    emptied; the other fields of the store are kept. *)
Theorem X10_handleNewChat (db : Db.Database) (store : Store.ChatStore) (screen : Screen) :
  (Store.isAuthenticated store = false ->
   handleNewChat db store screen = (db, store, mkScreen true (error screen)))
  /\ (Store.isAuthenticated store = true ->
      forall db' e,
        Api.createConversation "New Chat" (Store.selectedModel store) db
        = (db', Api.throws e) ->
        handleNewChat db store screen
        = (db', store,
           mkScreen (showAuthModal screen) "Failed to create new chat. Please try again."))
  /\ (Store.isAuthenticated store = true ->
      forall db' row,
        Api.createConversation "New Chat" (Store.selectedModel store) db
        = (db', Api.returns row) ->
        exists store',
          handleNewChat db store screen = (db', store', screen)
          /\ Store.currentConversation store' = Some (Conversation_of_row row)
          /\ Store.conversations store' = Conversation_of_row row :: Store.conversations store
          /\ Store.messages store' = []
          /\ Store.user store' = Store.user store
          /\ Store.selectedModel store' = Store.selectedModel store
          /\ Store.isAuthenticated store' = true
          /\ conv_title (Conversation_of_row row) = "New Chat"
          /\ conv_model (Conversation_of_row row) = Store.selectedModel store
          /\ Db.session db = Some (conv_user_id (Conversation_of_row row))
          /\ conv_last_message (Conversation_of_row row) = None).
Proof.
  unfold handleNewChat. split; [intros ->; reflexivity|]. split.
  - intros -> db' e ->. reflexivity.
  - intros Hauth db' row Hcreate. rewrite Hauth, Hcreate. cbn [negb].
    destruct (createConversation_returns _ _ _ _ _ Hcreate)
      as (_ & _ & _ & Hu & Ht & Hm & Hl).
    eexists. split; [reflexivity|]. cbn.
    repeat split; assumption.
Qed.

End NewChatProperties.

Section StoreInvariant.
Import Types Store App.

Lemma setter_keeps_consistent (a : Setter) (s : ChatStore) :
  consistent s -> consistent (setter a s).
Proof.
  unfold consistent. destruct a; cbn; intros H; try exact H. reflexivity.
Qed.

(** X11. The flag [isAuthenticated] and the user agree ([isAuthenticated]
    is true exactly when [user] is not null) after [setUser], whatever the
    state before; every setter other than [setIsAuthenticated] keeps them
    in agreement, and so does any series of such setters; the handlers of
    the mount effect and of [SIGNED_OUT] leave them in agreement.  The
    handler of [SIGNED_IN] does so only when a profile was found: with a
    null profile it leaves a state that is authenticated without a
    user. *)
Theorem X11_flag_agrees_with_user (s : ChatStore) :
  (forall u, consistent (setUser u s))
  /\ (forall calls, consistent s -> consistent (run (map setter calls) s))
  /\ consistent (run on_SIGNED_OUT s)
  /\ (forall u, consistent (run (on_mount u) s))
  /\ (forall profile, consistent (run (on_SIGNED_IN profile) s) <-> profile <> None)
  /\ (isAuthenticated (run (on_SIGNED_IN None) s) = true
      /\ user (run (on_SIGNED_IN None) s) = None).
Proof.
  split; [intros u; reflexivity|]. split.
  { intros calls. revert s. induction calls as [|a calls IH]; intros s Hs; [exact Hs|].
    cbn [map]. change (run (setter a :: map setter calls) s)
      with (run (map setter calls) (setter a s)).
    apply IH. now apply setter_keeps_consistent. }
  split; [reflexivity|]. split; [intros u; now destruct u|]. split.
  - intros [u|]; unfold consistent; cbn; split; intros H; congruence.
  - split; reflexivity.
Qed.

Lemma X11_witness :
  consistent (run (map setter [ add_message hello; set_messages []; toggle_dark;
                                 set_user None; set_model "gemini" ]) signed_in).
Proof.
  apply (proj1 (proj2 (X11_flag_agrees_with_user signed_in))). reflexivity.
Defined.

(** X12. [addMessage] for a conversation that is not in the list appends
    the message and leaves the conversation list as it is; and it appends
    without looking at what the list holds: a message that is delivered
    twice is listed twice. *)
Theorem X12_addMessage_unknown_conversation_and_duplicates (m : Message) (s : ChatStore) :
  (~ In (msg_conversation_id m) (map conv_id (conversations s)) ->
   conversations (addMessage m s) = conversations s
   /\ messages (addMessage m s) = messages s ++ [m])
  /\ (In m (messages s) -> ~ NoDup (messages (addMessage m s)))
  /\ messages (addMessage m (addMessage m s)) = messages s ++ [m; m].
Proof.
  split; [|split].
  - intros Hnot. split; [|reflexivity].
    rewrite addMessage_conversations.
    rewrite <- (map_id (conversations s)) at 2. apply map_ext_in.
    intros c Hin. apply refresh_miss. intros Hid. apply Hnot.
    rewrite <- Hid. now apply in_map.
  - intros Hin Hnd. rewrite addMessage_messages in Hnd.
    apply NoDup_remove_2 in Hnd. rewrite app_nil_r in Hnd. contradiction.
  - rewrite !addMessage_messages. now rewrite <- app_assoc.
Qed.

Lemma X12_witness :
  conversations (addMessage (mkMessage "m9" "c9" "Hi" role_user "2024-01-05" None) signed_in)
  = conversations signed_in
  /\ ~ NoDup (messages (addMessage hello signed_in)).
Proof.
  split.
  - apply (proj1 (X12_addMessage_unknown_conversation_and_duplicates
                    (mkMessage "m9" "c9" "Hi" role_user "2024-01-05" None) signed_in)).
    cbn. intros [H|[H|[]]]; discriminate H.
  - apply (proj1 (proj2 (X12_addMessage_unknown_conversation_and_duplicates
                           hello signed_in))).
    cbn. now left.
Defined.

End StoreInvariant.

Section NewChatExamples.
Import Types App.

Lemma X10_witness :
  exists store',
    handleNewChat (server := Api.server) Api.signed_in Store.signed_in (mkScreen false "")
    = (fst (Api.createConversation (server := Api.server)
              "New Chat" "gpt-3.5-turbo" Api.signed_in), store',
       mkScreen false "")
    /\ Store.currentConversation store'
       = Some (mkConversation "row-2" "New Chat" "u1" "gpt-3.5-turbo" "t2" None)
    /\ Store.messages store' = [].
Proof.
  destruct (proj2 (proj2 (@X10_handleNewChat Api.server Api.signed_in Store.signed_in
                            (mkScreen false ""))) eq_refl _ _ eq_refl)
    as (store' & Hrun & Hcur & _ & Hmsg & _).
  exists store'. split; [exact Hrun|]. split; [exact Hcur | exact Hmsg].
Defined.

End NewChatExamples.

(** ** Series of sign-in and sign-up calls and answers *)

Section AuthTraceProperties.
Import JS Auth AuthTrace.
Context {browser : Browser}.
Local Open Scope nat_scope.

Lemma settle_spec (a : completion AuthAnswer) (m : Module_state) :
  fst (settle a m) = match authRequest m with
                     | Some _ => mkState None (sent m) (created m)
                     | None => m
                     end.
Proof.
  unfold settle. destruct (authRequest m) as [pending|]; [|reflexivity].
  destruct a as [answer|e]; [|reflexivity].
  destruct (request pending);
    [destruct (signUp_then answer) | destruct (signIn_then answer)]; reflexivity.
Qed.

Lemma step_well_formed (e : Event) (m : Module_state) :
  well_formed m ->
  well_formed (step e m)
  /\ List.length (sent (step e m)) + pending_count m
     = List.length (sent m) + pending_count (step e m)
       + match e, authRequest m with
         | answered _, Some _ => 1
         | _, _ => 0
         end.
Proof.
  intros [Hc Hp]. destruct e as [c|a]; cbn [step].
  - rewrite call_spec. destruct (refused c) as [err|]; cbn [fst].
    { split; [split; assumption|]. destruct (authRequest m); lia. }
    destruct (authRequest m) as [pending|] eqn:Hreq; cbn [fst].
    { split; [split; [exact Hc | now rewrite Hreq]|].
      unfold pending_count. rewrite Hreq. lia. }
    unfold start. cbn [fst]. split.
    + split; cbn; [rewrite length_app; cbn; lia|].
      intros pending [= <-]. cbn. split; [reflexivity|].
      rewrite Hc, nth_error_app2, Nat.sub_diag by lia. reflexivity.
    + unfold pending_count. rewrite Hreq. cbn. rewrite length_app. cbn. lia.
  - rewrite settle_spec. destruct (authRequest m) as [pending|] eqn:Hreq.
    + split; [split; [exact Hc | intros p [=]]|]. unfold pending_count.
      rewrite Hreq. cbn. lia.
    + split; [split; [exact Hc | now rewrite Hreq]|].
      unfold pending_count. rewrite Hreq. lia.
Qed.

(** X22. At most one request is outstanding, at any time.  Starting with
    nothing in flight, after any series of [signUp] and [signIn] calls and
    of answers of the authentication service, the number of requests sent
    is the number of answers that settled a promise, plus one when a
    promise is pending; the promises created correspond to the requests
    sent, and the pending promise is the one created last, for the request
    sent last. *)
Theorem X22_one_request_at_a_time (es : list Event) :
  List.length (sent (after es idle)) = settled es idle + pending_count (after es idle)
  /\ created (after es idle) = List.length (sent (after es idle))
  /\ forall pending,
       authRequest (after es idle) = Some pending ->
       S (promise pending) = created (after es idle)
       /\ nth_error (sent (after es idle)) (promise pending) = Some (request pending).
Proof.
  assert (Hgen : forall es m,
            well_formed m ->
            well_formed (after es m)
            /\ List.length (sent (after es m)) + pending_count m
               = List.length (sent m) + settled es m + pending_count (after es m)).
  { clear es. induction es as [|e es IH]; intros m Hwf.
    - cbn. split; [exact Hwf | lia].
    - destruct (step_well_formed e m Hwf) as [Hwf' Hcount].
      destruct (IH (step e m) Hwf') as [Hwf'' Hcount'].
      change (after (e :: es) m) with (after es (step e m)).
      split; [exact Hwf''|].
      cbn [settled]. destruct e as [c|a]; [lia|].
      destruct (authRequest m); lia. }
  assert (Hidle : well_formed idle).
  { split; [reflexivity | intros pending [=]]. }
  destruct (Hgen es idle Hidle) as [[Hc Hp] Hcount].
  cbn in Hcount. split; [lia|]. split; [exact Hc | exact Hp].
Qed.

(** X23. How a pending promise settles.  The module goes back to idle, so
    that the next call that passes the checks sends a new request, for a
    promise other than the one settled.  The promise is fulfilled exactly
    when the service answered without an error, and then with the data of
    the answer; an error whose message contains the known phrase is
    replaced by the message meant for the user, any other error is passed
    on with its message.  Only a successful sign-up with a user sends a
    request to the store, the insert of the profile. *)
Theorem X23_settlement (a : completion AuthAnswer) (m : Module_state) (pending : Pending) :
  authRequest m = Some pending ->
  exists how requests,
    settle a m = (mkState None (sent m) (created m), Some (promise pending, how, requests))
    /\ (forall c, refused c = None ->
          call c (fst (settle a m))
          = (mkState (Some (mkPending (created m) (request_of c)))
                     (sent m ++ [request_of c]) (S (created m)),
             follows (created m)))
    /\ (forall d, how = Normal d <->
                  exists answer, a = Normal answer /\ answer_error answer = None
                                 /\ d = answer_data answer)
    /\ (forall answer message,
          a = Normal answer -> answer_error answer = Some message ->
          how = Throw (ErrorObject
                  (match request pending with
                   | signUp_request _ _ _ =>
                       if includes message "already registered"
                       then "This email is already registered. Please sign in instead."
                       else message
                   | signInWithPassword_request _ _ =>
                       if includes message "Invalid login credentials"
                       then "Invalid email or password. Please try again."
                       else message
                   end)))
    /\ (requests <> [] ->
        exists answer u email password origin,
          a = Normal answer
          /\ request pending = signUp_request email password origin
          /\ answer_error answer = None
          /\ auth_user (answer_data answer) = Some u
          /\ requests = [insert_profile (auth_user_id u) (auth_user_email u)]).
Proof.
  intros Hp.
  assert (Hnext : forall c, refused c = None ->
            call c (mkState None (sent m) (created m))
            = (mkState (Some (mkPending (created m) (request_of c)))
                       (sent m ++ [request_of c]) (S (created m)),
               follows (created m))).
  { intros c Hok. rewrite call_spec, Hok. reflexivity. }
  unfold settle. rewrite Hp.
  destruct a as [answer|e].
  2:{ exists (Throw e), []. split; [reflexivity|]. split; [exact Hnext|].
      split; [intros d; split; [discriminate | intros (answer & [=] & _)]|].
      split; [intros answer message [=]|]. intros H. now contradiction H. }
  destruct (request pending) as [email password origin|email password].
  - unfold signUp_then. destruct (answer_error answer) as [message|] eqn:He.
    + destruct (includes message "already registered") eqn:Hi;
        eexists _, []; (split; [reflexivity|]); (split; [exact Hnext|]);
        (split; [intros d; split; [discriminate
                                  | intros (ans & [= <-] & Hnone & _); congruence]|]);
        (split; [intros ans msg [= <-] Hm; rewrite He in Hm; injection Hm as <-;
                 now rewrite Hi|]);
        intros H; now contradiction H.
    + destruct (auth_user (answer_data answer)) as [u|] eqn:Hu.
      * eexists _, _. split; [reflexivity|]. split; [exact Hnext|].
        split; [intros d; split;
                [intros [= <-]; exists answer; repeat split; assumption
                | intros (ans & [= <-] & _ & ->); reflexivity]|].
        split; [intros ans msg [= <-] Hm; congruence|].
        intros _. exists answer, u, email, password, origin. repeat split; assumption.
      * eexists _, []. split; [reflexivity|]. split; [exact Hnext|].
        split; [intros d; split;
                [intros [= <-]; exists answer; repeat split; assumption
                | intros (ans & [= <-] & _ & ->); reflexivity]|].
        split; [intros ans msg [= <-] Hm; congruence|].
        intros H. now contradiction H.
  - unfold signIn_then. destruct (answer_error answer) as [message|] eqn:He.
    + destruct (includes message "Invalid login credentials") eqn:Hi;
        eexists _, []; (split; [reflexivity|]); (split; [exact Hnext|]);
        (split; [intros d; split; [discriminate
                                  | intros (ans & [= <-] & Hnone & _); congruence]|]);
        (split; [intros ans msg [= <-] Hm; rewrite He in Hm; injection Hm as <-;
                 now rewrite Hi|]);
        intros H; now contradiction H.
    + eexists _, []. split; [reflexivity|]. split; [exact Hnext|].
      split; [intros d; split;
              [intros [= <-]; exists answer; repeat split; assumption
              | intros (ans & [= <-] & _ & ->); reflexivity]|].
      split; [intros ans msg [= <-] Hm; congruence|].
      intros H. now contradiction H.
Qed.

End AuthTraceProperties.

Section AuthTraceExamples.
Import JS Auth AuthTrace.

Lemma X23_witness :
  exists how requests,
    settle (Normal (mkAuthAnswer (mkAuthData None None) (Some "Email not confirmed")))
           in_flight
    = (mkState None (sent in_flight) (created in_flight), Some (0%nat, how, requests))
    /\ how = Throw (ErrorObject "Email not confirmed").
Proof.
  destruct (@X23_settlement browser
              (Normal (mkAuthAnswer (mkAuthData None None) (Some "Email not confirmed")))
              in_flight _ eq_refl)
    as (how & requests & Hs & _ & _ & Hmsg & _).
  exists how, requests. split; [exact Hs|].
  exact (Hmsg _ _ eq_refl eq_refl).
Defined.

End AuthTraceExamples.

(** ** [handleSendMessage]: what one exchange leaves in the store *)

Section RelayReturns.
Import Types Db Api.
Context {server : Server}.

Lemma touch_title (db : Database) (c text : string) (row : conversations_row) :
  title (touch db c text row) = title row.
Proof. unfold touch. now destruct (_ && _). Qed.

Lemma update_last_message_titles (c text : string) (db : Database) :
  map title (conversations (fst (update_last_message c text db)))
  = map title (conversations db).
Proof.
  destruct (send_spec db) as (_ & Hc & _).
  unfold update_last_message. destruct (send db) as [[e|] db0]; cbn [fst snd] in *.
  { now rewrite Hc. }
  cbn. rewrite Hc, map_map. apply map_ext. intros row. apply touch_title.
Qed.

Lemma sendMessage_state (order : arrival) (c text : string) (r : Role)
      (f : option string) (db : Database) :
  fst (sendMessage order c text r f db)
  = fst (fst (sendMessage_requests order c text r f db)).
Proof.
  unfold sendMessage.
  destruct (sendMessage_requests order c text r f db) as [[db' mr] ur].
  destruct mr, ur; reflexivity.
Qed.

Lemma sendMessage_titles (order : arrival) (c text : string) (r : Role)
      (f : option string) (db : Database) :
  map title (conversations (fst (sendMessage order c text r f db)))
  = map title (conversations db).
Proof.
  rewrite sendMessage_state. unfold sendMessage_requests. destruct order.
  - pose proof (insert_message_spec c text r f db) as (Hc & _).
    destruct (insert_message c text (Role_text r) f db) as [db1 mr]. cbn [fst] in Hc.
    pose proof (update_last_message_titles c text db1) as Ht.
    destruct (update_last_message c text db1) as [db2 ur]. cbn [fst] in *.
    now rewrite Ht, Hc.
  - pose proof (update_last_message_titles c text db) as Ht.
    destruct (update_last_message c text db) as [db1 ur]. cbn [fst] in Ht.
    pose proof (insert_message_spec c text r f db1) as (Hc & _).
    destruct (insert_message c text (Role_text r) f db1) as [db2 mr]. cbn [fst] in *.
    now rewrite Hc, Ht.
Qed.

Lemma sendMessage_transport (order : arrival) (c text : string) (r : Role)
      (f : option string) (db : Database) :
  transport (fst (sendMessage order c text r f db)) = tl (tl (transport db)).
Proof.
  rewrite sendMessage_state. unfold sendMessage_requests. destruct order.
  - pose proof (insert_message_spec c text r f db) as (_ & _ & Ht1 & _).
    destruct (insert_message c text (Role_text r) f db) as [db1 mr]. cbn [fst] in Ht1.
    pose proof (update_last_message_spec c text db1) as (_ & _ & Ht2 & _).
    destruct (update_last_message c text db1) as [db2 ur]. cbn [fst] in *.
    now rewrite Ht2, Ht1.
  - pose proof (update_last_message_spec c text db) as (_ & _ & Ht1 & _).
    destruct (update_last_message c text db) as [db1 ur]. cbn [fst] in Ht1.
    pose proof (insert_message_spec c text r f db1) as (_ & _ & Ht2 & _).
    destruct (insert_message c text (Role_text r) f db1) as [db2 mr]. cbn [fst] in *.
    now rewrite Ht2, Ht1.
Qed.

(** What a call of [sendMessage] that returned has stored. *)
Lemma sendMessage_returned (order : arrival) (c text : string) (r : Role)
      (f : option string) (db db' : Database) (row : messages_row) :
  sendMessage order c text r f db = (db', returns row) ->
  messages db' = messages db ++ [row]
  /\ conversation_id row = c
  /\ content row = text
  /\ role row = Role_text r
  /\ owns_conversation db c = true
  /\ last_message_set (session db) c text (conversations db) (conversations db').
Proof.
  unfold sendMessage, sendMessage_requests. destruct order.
  - pose proof (insert_message_spec c text r f db) as (Hc1 & Hs1 & _ & Hrow).
    destruct (insert_message c text (Role_text r) f db) as [db1 mr] eqn:Hi.
    cbn [fst snd] in *.
    pose proof (update_last_message_spec c text db1) as (Hm2 & _ & _ & Hset).
    destruct (update_last_message c text db1) as [db2 ur]. cbn [fst snd] in *.
    destruct mr as [row'|e]; [|discriminate].
    destruct ur as [u|e]; [|discriminate].
    intros [= <- <-]. destruct Hrow as (Hm1 & Hcid & Hcontent & Hrole & _).
    destruct (insert_message_data _ _ _ _ _ _ _ Hi) as (Hown & _).
    split; [congruence|]. split; [exact Hcid|]. split; [exact Hcontent|].
    split; [exact Hrole|]. split; [exact Hown|].
    now rewrite Hs1, Hc1 in Hset.
  - pose proof (update_last_message_spec c text db) as (Hm1 & Hs1 & _ & Hset).
    destruct (update_last_message c text db) as [db1 ur] eqn:Hu. cbn [fst snd] in *.
    pose proof (insert_message_spec c text r f db1) as (Hc2 & _ & _ & Hrow).
    destruct (insert_message c text (Role_text r) f db1) as [db2 mr] eqn:Hi.
    cbn [fst snd] in *.
    destruct mr as [row'|e]; [|discriminate].
    destruct ur as [u|e]; [|discriminate].
    intros [= <- <-]. destruct Hrow as (Hm2 & Hcid & Hcontent & Hrole & _).
    destruct (insert_message_data _ _ _ _ _ _ _ Hi) as (Hown & _).
    destruct (update_last_message_keeps _ _ _ _ _ Hu) as (_ & _ & Hid & Huid).
    split; [congruence|]. split; [exact Hcid|]. split; [exact Hcontent|].
    split; [exact Hrole|].
    split; [now rewrite <- (owns_conversation_same db db1 c Hid Huid Hs1)|].
    now rewrite Hc2.
Qed.

(** With every request reaching the store, [sendMessage] returns for a
    conversation the session owns. *)
Lemma sendMessage_goes_through (order : arrival) (c text : string) (r : Role)
      (f : option string) (db : Database) :
  transport db = [] ->
  owns_conversation db c = true ->
  exists db' row, sendMessage order c text r f db = (db', returns row).
Proof.
  intros Ht Hown.
  assert (Hsend : forall d, transport d = [] -> send d = (None, d)).
  { intros d Hd. unfold send. now rewrite Hd. }
  assert (Hrole : ((Role_text r =? "user")%string || (Role_text r =? "assistant")%string)
                  = true) by now destruct r.
  unfold sendMessage, sendMessage_requests. destruct order.
  - unfold insert_message. rewrite (Hsend db Ht), Hown, Hrole. cbn [negb].
    unfold update_last_message. rewrite Hsend by exact Ht.
    eexists _, _. reflexivity.
  - unfold update_last_message. rewrite (Hsend db Ht).
    unfold insert_message. rewrite Hsend by exact Ht.
    assert (Hown' : owns_conversation
                      (with_tables db (map (touch db c text) (conversations db))
                                   (messages db)) c = true).
    { rewrite <- Hown. apply owns_conversation_same; cbn.
      - rewrite map_map. apply map_ext. intros row. apply touch_keys.
      - rewrite map_map. apply map_ext. intros row. apply touch_keys.
      - reflexivity. }
    rewrite Hown', Hrole. cbn [negb]. eexists _, _. reflexivity.
Qed.

End RelayReturns.

Section RelayStores.
Import Types Db Api Chat.
Context {server : Server}.

Lemma same_frame_refl (db : Database) : same_frame db db.
Proof. repeat split. Qed.

Lemma same_frame_trans (db1 db2 db3 : Database) :
  same_frame db1 db2 -> same_frame db2 db3 -> same_frame db1 db3.
Proof.
  intros (Hp & Hs & Hi & Hu) (Hp' & Hs' & Hi' & Hu'). repeat split; congruence.
Qed.

Lemma same_frame_owns (db db' : Database) (c : uuid) :
  same_frame db db' -> owns_conversation db' c = owns_conversation db c.
Proof. intros (_ & Hs & Hi & Hu). now apply owns_conversation_same. Qed.

(** What a call of [sendMessage] has stored, whether it returned or
    threw. *)
Lemma sendMessage_stored (order : arrival) (c text : string) (r : Role)
      (f : option string) (db : Database) :
  let db' := fst (sendMessage order c text r f db) in
  same_frame db db'
  /\ (messages db' = messages db
      \/ exists row,
           messages db' = messages db ++ [row]
           /\ conversation_id row = c
           /\ content row = text
           /\ role row = Role_text r
           /\ owns_conversation db c = true).
Proof.
  cbn zeta.
  pose proof (sendMessage_effect order c text r f db) as (Hp & Hs & Hi & Hu & _).
  split; [repeat split; assumption|].
  rewrite sendMessage_state. unfold sendMessage_requests. destruct order.
  - pose proof (insert_message_spec c text r f db) as (_ & _ & _ & Hrow).
    destruct (insert_message c text (Role_text r) f db) as [db1 mr] eqn:Hins.
    cbn [fst snd] in *.
    pose proof (update_last_message_spec c text db1) as (Hm2 & _).
    destruct (update_last_message c text db1) as [db2 ur]. cbn [fst snd] in *.
    rewrite Hm2. destruct mr as [row|e]; [|now left].
    destruct Hrow as (Hm1 & Hcid & Hcontent & Hrole & _).
    destruct (insert_message_data _ _ _ _ _ _ _ Hins) as (Hown & _).
    right. exists row. repeat split; assumption.
  - pose proof (update_last_message_spec c text db) as (Hm1 & Hs1 & _).
    destruct (update_last_message c text db) as [db1 ur] eqn:Hupd. cbn [fst snd] in *.
    pose proof (insert_message_spec c text r f db1) as (_ & _ & _ & Hrow).
    destruct (insert_message c text (Role_text r) f db1) as [db2 mr] eqn:Hins.
    cbn [fst snd] in *.
    destruct mr as [row|e]; [|left; congruence].
    destruct Hrow as (Hm2 & Hcid & Hcontent & Hrole & _).
    destruct (insert_message_data _ _ _ _ _ _ _ Hins) as (Hown & _).
    destruct (update_last_message_keeps _ _ _ _ _ Hupd) as (_ & _ & Hid & Huid).
    right. exists row. split; [congruence|]. split; [exact Hcid|].
    split; [exact Hcontent|]. split; [exact Hrole|].
    now rewrite <- (owns_conversation_same db db1 c Hid Huid Hs1).
Qed.

End RelayStores.

Section TitleUpdate.
Import Types JS Db Api Reads Chat.
Context {server : Server}.

Lemma retitle_keys (db : Database) (c t : string) (row : conversations_row) :
  id (retitle db c t row) = id row /\ user_id (retitle db c t row) = user_id row.
Proof. unfold retitle. destruct (_ && _); split; reflexivity. Qed.

(** The update of the title adds and removes nothing. *)
Lemma update_title_keeps (c t : string) (db : Database) :
  let db' := fst (update_title c t db) in
  same_frame db db'
  /\ messages db' = messages db
  /\ transport db' = tl (transport db).
Proof.
  destruct (send_spec db) as (Hp & Hc & Hm & Hs & _ & Ht).
  unfold update_title. destruct (send db) as [[e|] db0]; cbn [fst snd] in *.
  { unfold same_frame. rewrite Hc. repeat split; assumption. }
  destruct (filter _ (conversations db0)) as [|row [|row' rest]]; cbn [fst].
  - unfold same_frame. rewrite Hc. repeat split; assumption.
  - unfold same_frame. cbn. rewrite Hc. repeat split; try assumption.
    + rewrite map_map. apply map_ext. intros r. apply retitle_keys.
    + rewrite map_map. apply map_ext. intros r. apply retitle_keys.
  - unfold same_frame. rewrite Hc. repeat split; assumption.
Qed.

Lemma same_key_same_row {A} (key : A -> string) (l : list A) (x y : A) :
  NoDup (map key l) -> In x l -> In y l -> key x = key y -> x = y.
Proof.
  induction l as [|z l IH]; intros Hnd Hx Hy Hk; [destruct Hx|].
  cbn [map] in Hnd. inversion Hnd as [|? ? Hnotin Hnd']; subst.
  destruct Hx as [->|Hx], Hy as [->|Hy].
  - reflexivity.
  - exfalso. apply Hnotin. rewrite Hk. now apply in_map.
  - exfalso. apply Hnotin. rewrite <- Hk. now apply in_map.
  - now apply IH.
Qed.

(** The rows an update [WHERE id = c] reaches, the ids being a primary
    key: the one row with this id, when the session owns it. *)
Lemma owned_rows (db : Database) (c : uuid) :
  NoDup (map id (conversations db)) ->
  owns_conversation db c = true ->
  exists row,
    In row (conversations db)
    /\ id row = c
    /\ session db = Some (user_id row)
    /\ filter (fun r => (id r =? c)%string && is_session_user db (Some (user_id r)))
              (conversations db) = [row].
Proof.
  intros Hnd Hown. unfold owns_conversation in Hown.
  apply existsb_exists in Hown. destruct Hown as (row & Hin & Hrow).
  apply andb_true_iff in Hrow. destruct Hrow as [Hid Hsess].
  apply String.eqb_eq in Hid. exists row.
  split; [exact Hin|]. split; [exact Hid|].
  split; [now apply is_session_user_eq|].
  rewrite <- (filter_unique id (conversations db) row Hnd Hin).
  apply filter_ext_in. intros r Hr. rewrite Hid.
  destruct (String.eqb_spec (id r) c) as [E|E]; [|reflexivity].
  assert (r = row) as -> by (apply (same_key_same_row id (conversations db)); try assumption; congruence).
  now rewrite Hsess.
Qed.

(** The titles after the update of the title of a conversation the session
    owns, the request reaching the store. *)
Lemma update_title_goes_through (c t : string) (db : Database) :
  hd None (transport db) = None ->
  NoDup (map id (conversations db)) ->
  owns_conversation db c = true ->
  exists db' row,
    update_title c t db = (db', found row)
    /\ id row = c
    /\ title row = t
    /\ session db = Some (user_id row)
    /\ map title (conversations db')
       = map (fun r => if (id r =? c)%string then t else title r) (conversations db).
Proof.
  intros Ht Hnd Hown.
  destruct (send_spec db) as (_ & Hc & _ & Hs & _).
  pose proof (send_fault db) as Hf. rewrite Ht in Hf.
  pose proof (owns_conversation_send db c) as Hown'. rewrite Hown in Hown'.
  unfold update_title. destruct (send db) as [fault db0]. cbn [fst snd] in *. subst fault.
  rewrite <- Hc in Hnd.
  destruct (owned_rows db0 c Hnd Hown') as (row & Hin & Hid & Hsess & Hfilter).
  rewrite Hfilter.
  assert (Hrow : (id row =? c)%string && is_session_user db0 (Some (user_id row)) = true).
  { apply andb_true_iff. split; [now apply String.eqb_eq | now apply is_session_user_eq]. }
  eexists _, _. split; [reflexivity|].
  split; [now rewrite (proj1 (retitle_keys db0 c t row))|].
  split; [unfold retitle; now rewrite Hrow|].
  split; [rewrite <- Hs; unfold retitle; now rewrite Hrow|].
  cbn. rewrite map_map, <- Hc. apply map_ext_in. intros r Hr.
  unfold retitle. destruct (String.eqb_spec (id r) c) as [E|E]; [|reflexivity].
  assert (r = row) as -> by (apply (same_key_same_row id (conversations db0)); try assumption; congruence).
  cbn [andb]. apply andb_true_iff in Hrow. destruct Hrow as [_ Hsu]. now rewrite Hsu.
Qed.

(** What the block that sets the title leaves of the store of the client
    and of the tables. *)
Lemma title_first_message_keeps (conv : Conversation) (text : string)
      (db : Database) (store : Store.ChatStore) :
  let out := title_first_message conv text db store in
  same_frame db (fst out)
  /\ messages (fst out) = messages db
  /\ Store.messages (snd out) = Store.messages store
  /\ (Store.messages store <> [] -> out = (db, store)).
Proof.
  unfold title_first_message. destruct (Store.messages store) as [|m ms] eqn:Hms.
  2:{ cbn. split; [apply same_frame_refl|]. repeat split; assumption. }
  pose proof (update_title_keeps (conv_id conv) (App.generateTitle text) db)
    as (Hframe & Hm & _).
  destruct (update_title _ _ db) as [db' [row|e]]; cbn [fst snd] in *.
  - split; [exact Hframe|]. split; [exact Hm|]. split; [exact Hms|].
    intros H. now contradiction H.
  - split; [exact Hframe|]. split; [exact Hm|]. split; [exact Hms|].
    intros H. now contradiction H.
Qed.

End TitleUpdate.

Section StreamLoop.
Import Types JS Ai Snapshots App Chat.
Local Open Scope js_scope.
Context {engine : Engine} {env : Env} {providers : Providers}.

Lemma streamAIResponse_returns (message model_id : string) (history : list Turn) :
  outcome (streamAIResponse message model_id history) = Normal tt.
Proof.
  assert (Hcatch : forall (m : Gen AIStreamResponse unit),
            outcome (gen_try_catch m (fun e => yield (error_snapshot e))) = Normal tt).
  { intros [ys [[]|e]]; reflexivity. }
  unfold streamAIResponse.
  destruct (model_id =? "gemini")%string.
  { unfold generateGeminiResponse. destruct (gemini_chat _ _ _); reflexivity. }
  destruct (model_id =? "deepseek-chat")%string; apply Hcatch.
Qed.

(** The loop over a stream of [streamAIResponse] does not throw, and the
    text it leaves to save is a string. *)
Lemma for_await_stream (message model_id : string) (history : list Turn) :
  exists t,
    for_await (streamAIResponse message model_id history)
    = Normal (consume (yielded (streamAIResponse message model_id history)) no_reply)
    /\ finalContent (consume (yielded (streamAIResponse message model_id history)) no_reply)
       = VStr t
    /\ match stream_failure message model_id history with
       | Some e =>
           t = fallback
           /\ banner (consume (yielded (streamAIResponse message model_id history))
                              no_reply)
              = (if (error_message e =? "")%string then None
                 else Some "Failed to get AI response. Please try again.")
       | None =>
           banner (consume (yielded (streamAIResponse message model_id history)) no_reply)
           = None
       end.
Proof.
  destruct (streamAIResponse_shape message model_id history)
    as (pre & last & Hy & Hpre & Hdone & Hlast).
  assert (Hloop : for_await (streamAIResponse message model_id history)
                  = Normal (consume (yielded (streamAIResponse message model_id history))
                                    no_reply)).
  { unfold for_await. rewrite streamAIResponse_returns. now destruct (existsb _ _). }
  rewrite Hy, (consume_until_terminal pre last no_reply Hpre Hdone) in *.
  cbn [finalContent banner].
  destruct (stream_failure message model_id history) as [e|].
  - subst last. exists fallback. split; [exact Hloop|]. split; [reflexivity|].
    split; [reflexivity|]. cbn [error_snapshot stream_error truthy_text].
    now destruct (error_message e =? "")%string.
  - destruct Hlast as [Hne (t & Ht)]. exists t. split; [exact Hloop|].
    split; [exact Ht|]. now rewrite Hne.
Qed.

End StreamLoop.

Section ExchangeProperties.
Import Types JS Chat.
Context {engine : Engine} {env : Ai.Env} {providers : Ai.Providers}
        {server : Db.Server}.

(** X24. What one run of [handleSendMessage] leaves, every request and
    every read of the stream being taken to settle.  The text it saves as
    the reply is a string (no run reaches the part that is not
    modelled).  What it adds to the table of messages is nothing, or the
    user's message, or the user's message followed by the assistant's: a
    reply is never stored without its question, both lie in the current
    conversation, the question is the trimmed input and the reply is not
    empty.  Something is stored only when there is a current conversation
    that the session owns, the store of the client says the user is
    authenticated and the input is not blank.  No conversation is added or
    removed, and the handler itself adds no message to the list of the
    client. *)
Theorem X24_handleSendMessage_exchange (first second : Api.arrival)
        (db : Db.Database) (store : Store.ChatStore) (ui : Composer) :
  exists db' store' ui',
    handleSendMessage first second db store ui = Some (db', store', ui')
    /\ same_frame db db'
    /\ Store.messages store' = Store.messages store
    /\ exists new,
         Db.messages db' = Db.messages db ++ new
         /\ match Store.currentConversation store with
            | None => new = []
            | Some conv =>
                exchange (conv_id conv) (trim (messageInput ui)) new
                /\ (new <> [] ->
                    Store.isAuthenticated store = true
                    /\ trim (messageInput ui) <> ""
                    /\ Db.owns_conversation db (conv_id conv) = true)
            end.
Proof.
  unfold handleSendMessage. cbn zeta.
  destruct (Store.currentConversation store) as [conv|].
  2:{ exists db, store, ui. split; [reflexivity|]. split; [apply same_frame_refl|].
      split; [reflexivity|]. exists []. split; [now rewrite app_nil_r | reflexivity]. }
  assert (Hnone : forall d, Db.messages d = Db.messages db ->
            exists new,
              Db.messages d = Db.messages db ++ new
              /\ exchange (conv_id conv) (trim (messageInput ui)) new
              /\ (new <> [] ->
                  Store.isAuthenticated store = true
                  /\ trim (messageInput ui) <> ""
                  /\ Db.owns_conversation db (conv_id conv) = true)).
  { intros d Hd. exists []. split; [now rewrite app_nil_r|].
    split; [constructor|]. intros H. now contradiction H. }
  destruct (String.eqb_spec (trim (messageInput ui)) "") as [Hblank|Hblank]; cbn [orb].
  { exists db, store, ui. split; [reflexivity|]. split; [apply same_frame_refl|].
    split; [reflexivity|]. now apply Hnone. }
  destruct (Store.isAuthenticated store) eqn:Hauth; cbn [negb].
  2:{ exists db, store, ui. split; [reflexivity|]. split; [apply same_frame_refl|].
      split; [reflexivity|]. now apply Hnone. }
  pose proof (sendMessage_stored first (conv_id conv) (trim (messageInput ui))
                                 role_user None db) as (Hf1 & Hm1).
  destruct (Api.sendMessage first (conv_id conv) (trim (messageInput ui)) role_user None db)
    as [db1 [q|e1]] eqn:Hsend1; cbn [fst] in Hf1, Hm1.
  2:{ eexists db1, store, _. split; [reflexivity|]. split; [exact Hf1|].
      split; [reflexivity|].
      destruct Hm1 as [Hm1|(row & Hm1 & Hcid & Hcontent & Hrole & Hown)];
        [now apply Hnone|].
      exists [row]. split; [exact Hm1|]. split; [now constructor|].
      intros _. repeat split; assumption. }
  clear Hm1.
  destruct (sendMessage_returned _ _ _ _ _ _ _ _ Hsend1)
    as (Hm1 & Hqc & Hqt & Hqr & Hown & _).
  pose proof (title_first_message_keeps conv (trim (messageInput ui)) db1 store)
    as (Hf2 & Hm2 & Hsm & _).
  destruct (title_first_message conv (trim (messageInput ui)) db1 store)
    as [db2 store2]. cbn [fst snd] in Hf2, Hm2, Hsm.
  destruct (for_await_stream (trim (messageInput ui)) (conv_model conv)
                             (history_of (Store.messages store)))
    as (t & Hloop & Hfinal & _).
  unfold stream_and_save.
  rewrite Hloop. unfold App.reply_to_save. rewrite Hfinal. cbn [truthy].
  assert (Hquestion : forall d, Db.messages d = Db.messages db2 ->
            exists new,
              Db.messages d = Db.messages db ++ new
              /\ exchange (conv_id conv) (trim (messageInput ui)) new
              /\ (new <> [] ->
                  true = true
                  /\ trim (messageInput ui) <> ""
                  /\ Db.owns_conversation db (conv_id conv) = true)).
  { intros d Hd. exists [q]. split; [congruence|]. split; [now constructor|].
    intros _. repeat split; assumption. }
  destruct (String.eqb_spec t "") as [Ht|Ht]; cbn [negb].
  { eexists db2, store2, _. split; [reflexivity|].
    split; [exact (same_frame_trans _ _ _ Hf1 Hf2)|]. split; [exact Hsm|].
    now apply Hquestion. }
  pose proof (sendMessage_stored second (conv_id conv) t role_assistant None db2)
    as (Hf3 & Hm3).
  assert (Hframe : forall d, same_frame db2 d -> same_frame db d).
  { intros d Hd. exact (same_frame_trans _ _ _ (same_frame_trans _ _ _ Hf1 Hf2) Hd). }
  assert (Hboth : forall d a,
            Db.messages d = Db.messages db2 ++ [a] ->
            Db.conversation_id a = conv_id conv ->
            Db.content a = t ->
            Db.role a = "assistant" ->
            exists new,
              Db.messages d = Db.messages db ++ new
              /\ exchange (conv_id conv) (trim (messageInput ui)) new
              /\ (new <> [] ->
                  true = true
                  /\ trim (messageInput ui) <> ""
                  /\ Db.owns_conversation db (conv_id conv) = true)).
  { intros d a Hd Hac Hat Har. exists [q; a].
    split; [rewrite Hd, Hm2, Hm1, <- app_assoc; reflexivity|].
    split; [apply both_stored; solve [assumption | exact Hqr | congruence]|].
    intros _. repeat split; assumption. }
  destruct (Api.sendMessage second (conv_id conv) t role_assistant None db2)
    as [db3 [a|e3]]; cbn [fst] in Hf3, Hm3;
    (eexists db3, store2, _; split; [reflexivity|]; split; [now apply Hframe|];
     split; [exact Hsm|];
     destruct Hm3 as [Hm3|(row & Hm3 & Hcid & Hcontent & Hrole & _)];
     [now apply Hquestion | now apply (Hboth db3 row)]).
Qed.

(** X25. When the exchange with the provider fails, the apology is stored
    as the assistant's message.  With a current conversation that the
    session owns, an authenticated user, an input that is not blank and
    every request reaching the store, the handler stores the question and
    then the fallback text as the reply, which becomes the conversation's
    [last_message]; the banner tells of the failure unless the error has an
    empty message, the input is cleared and nothing is left streaming. *)
Theorem X25_apology_is_stored (first second : Api.arrival)
        (db : Db.Database) (store : Store.ChatStore) (ui : Composer)
        (conv : Conversation) (e : thrown) :
  Store.currentConversation store = Some conv ->
  Store.isAuthenticated store = true ->
  trim (messageInput ui) <> "" ->
  Db.transport db = [] ->
  Db.owns_conversation db (conv_id conv) = true ->
  Ai.stream_failure (trim (messageInput ui)) (conv_model conv)
                    (history_of (Store.messages store)) = Some e ->
  exists db' store' q a,
    handleSendMessage first second db store ui
    = Some (db', store',
            mkComposer "" false (VStr "")
                       (if (Ai.error_message e =? "")%string then ""
                        else "Failed to get AI response. Please try again."))
    /\ Db.messages db' = Db.messages db ++ [q; a]
    /\ Db.role q = "user"
    /\ Db.content q = trim (messageInput ui)
    /\ Db.role a = "assistant"
    /\ Db.content a = Ai.fallback
    /\ Forall (fun row => Db.id row = conv_id conv ->
                          Db.session db = Some (Db.user_id row) ->
                          Db.last_message row = Some Ai.fallback)
              (Db.conversations db').
Proof.
  intros Hconv Hauth Hblank Htransport Hown Hfail.
  unfold handleSendMessage. cbn zeta. rewrite Hconv, Hauth.
  destruct (String.eqb_spec (trim (messageInput ui)) "") as [E|_]; [contradiction|].
  cbn [orb negb].
  destruct (sendMessage_goes_through first (conv_id conv) (trim (messageInput ui))
                                     role_user None db Htransport Hown)
    as (db1 & q & Hsend1).
  pose proof (sendMessage_stored first (conv_id conv) (trim (messageInput ui))
                                 role_user None db) as (Hf1 & _).
  pose proof (sendMessage_transport first (conv_id conv) (trim (messageInput ui))
                                    role_user None db) as Ht1.
  rewrite Hsend1 in Hf1, Ht1 |- *. cbn [fst] in Hf1, Ht1.
  rewrite Htransport in Ht1. cbn [tl] in Ht1.
  destruct (sendMessage_returned _ _ _ _ _ _ _ _ Hsend1)
    as (Hm1 & _ & Hqt & Hqr & _).
  pose proof (title_first_message_keeps conv (trim (messageInput ui)) db1 store)
    as (Hf2 & Hm2 & _).
  assert (Ht2 : Db.transport
                  (fst (title_first_message conv (trim (messageInput ui)) db1 store)) = []).
  { unfold title_first_message. destruct (Store.messages store); [|exact Ht1].
    pose proof (update_title_keeps (conv_id conv)
                  (App.generateTitle (trim (messageInput ui))) db1) as (_ & _ & Ht).
    destruct (update_title _ _ db1) as [d [row|err]]; cbn [fst] in *;
      rewrite Ht, Ht1; reflexivity. }
  destruct (title_first_message conv (trim (messageInput ui)) db1 store)
    as [db2 store2]. cbn [fst snd] in Hf2, Hm2, Ht2.
  destruct (for_await_stream (trim (messageInput ui)) (conv_model conv)
                             (history_of (Store.messages store)))
    as (t & Hloop & Hfinal & Hbanner).
  rewrite Hfail in Hbanner. destruct Hbanner as [-> Hbanner].
  unfold stream_and_save.
  rewrite Hloop. unfold App.reply_to_save. rewrite Hfinal, Hbanner.
  cbn [truthy Ai.fallback String.eqb Ascii.eqb Bool.eqb negb].
  assert (Hown2 : Db.owns_conversation db2 (conv_id conv) = true).
  { rewrite (same_frame_owns db db2); [exact Hown|].
    exact (same_frame_trans _ _ _ Hf1 Hf2). }
  destruct (sendMessage_goes_through second (conv_id conv) Ai.fallback
                                     role_assistant None db2 Ht2 Hown2)
    as (db3 & a & Hsend2).
  change "I apologize, but I encountered an error processing your request."
    with Ai.fallback.
  rewrite Hsend2.
  destruct (sendMessage_returned _ _ _ _ _ _ _ _ Hsend2)
    as (Hm3 & _ & Hat & Har & _ & (_ & _ & Hlast)).
  exists db3, store2, q, a.
  split; [now destruct (Ai.error_message e =? "")%string|].
  split; [rewrite Hm3, Hm2, Hm1, <- app_assoc; reflexivity|].
  split; [exact Hqr|]. split; [exact Hqt|]. split; [exact Har|]. split; [exact Hat|].
  destruct Hf1 as (_ & Hs1 & _), Hf2 as (_ & Hs2 & _).
  rewrite Hs2, Hs1 in Hlast. exact Hlast.
Qed.

(** X26. The title of a conversation is made from its first message, as
    the client sees it.  With a current conversation that the session owns,
    an authenticated user, an input that is not blank, every request
    reaching the store and the ids of the conversations being a primary
    key: when the list of messages of the client is empty, the handler sets
    the title of the current conversation to [generateTitle] of the trimmed
    input and leaves the other titles, and the conversation with the new
    title becomes the current conversation of the client and replaces the
    one with its id in the list; when the list is not empty, no title is
    changed and the store of the client is left as it is. *)
Theorem X26_title_from_first_message (first second : Api.arrival)
        (db : Db.Database) (store : Store.ChatStore) (ui : Composer)
        (conv : Conversation) :
  Store.currentConversation store = Some conv ->
  Store.isAuthenticated store = true ->
  trim (messageInput ui) <> "" ->
  Db.transport db = [] ->
  NoDup (map Db.id (Db.conversations db)) ->
  Db.owns_conversation db (conv_id conv) = true ->
  exists db' store' ui',
    handleSendMessage first second db store ui = Some (db', store', ui')
    /\ (Store.messages store = [] ->
        map Db.title (Db.conversations db')
        = map (fun r => if (Db.id r =? conv_id conv)%string
                        then App.generateTitle (trim (messageInput ui))
                        else Db.title r)
              (Db.conversations db)
        /\ exists row,
             Db.id row = conv_id conv
             /\ Db.title row = App.generateTitle (trim (messageInput ui))
             /\ Store.currentConversation store' = Some (App.Conversation_of_row row)
             /\ Store.conversations store'
                = map (replace_conversation (App.Conversation_of_row row))
                      (Store.conversations store))
    /\ (Store.messages store <> [] ->
        map Db.title (Db.conversations db') = map Db.title (Db.conversations db)
        /\ store' = store).
Proof.
  intros Hconv Hauth Hblank Htransport Hnd Hown.
  unfold handleSendMessage. cbn zeta. rewrite Hconv, Hauth.
  destruct (String.eqb_spec (trim (messageInput ui)) "") as [E|_]; [contradiction|].
  cbn [orb negb].
  destruct (sendMessage_goes_through first (conv_id conv) (trim (messageInput ui))
                                     role_user None db Htransport Hown)
    as (db1 & q & Hsend1).
  pose proof (sendMessage_stored first (conv_id conv) (trim (messageInput ui))
                                 role_user None db) as (Hf1 & _).
  pose proof (sendMessage_transport first (conv_id conv) (trim (messageInput ui))
                                    role_user None db) as Ht1.
  pose proof (sendMessage_titles first (conv_id conv) (trim (messageInput ui))
                                 role_user None db) as Htitles1.
  rewrite Hsend1 in Hf1, Ht1, Htitles1 |- *. cbn [fst] in Hf1, Ht1, Htitles1.
  rewrite Htransport in Ht1. cbn [tl] in Ht1.
  assert (Hown1 : Db.owns_conversation db1 (conv_id conv) = true)
    by now rewrite (same_frame_owns db db1 _ Hf1).
  assert (Hnd1 : NoDup (map Db.id (Db.conversations db1))).
  { destruct Hf1 as (_ & _ & Hid & _). now rewrite Hid. }
  assert (Hids : forall l1 l2 : list Db.conversations_row,
            map Db.id l1 = map Db.id l2 -> map Db.title l1 = map Db.title l2 ->
            forall (c : string) (t : string),
              map (fun r => if (Db.id r =? c)%string then t else Db.title r) l1
              = map (fun r => if (Db.id r =? c)%string then t else Db.title r) l2).
  { induction l1 as [|r1 l1 IH]; intros [|r2 l2] Hi Htt c t; try discriminate;
      [reflexivity|].
    cbn in *. injection Hi as Hi1 Hi. injection Htt as Ht1' Htt.
    now rewrite Hi1, Ht1', (IH l2 Hi Htt). }
  assert (Hrest : forall d s2,
            exists d' u',
              stream_and_save second conv (trim (messageInput ui)) (Store.messages store)
                              d s2 = Some (d', s2, u')
              /\ map Db.title (Db.conversations d') = map Db.title (Db.conversations d)).
  { intros d s2. unfold stream_and_save.
    destruct (for_await_stream (trim (messageInput ui)) (conv_model conv)
                               (history_of (Store.messages store)))
      as (t & Hloop & Hfinal & _).
    rewrite Hloop. unfold App.reply_to_save. rewrite Hfinal. cbn [truthy].
    destruct (negb (t =? "")%string); [|eexists _, _; split; reflexivity].
    pose proof (sendMessage_titles second (conv_id conv) t role_assistant None d) as Htt.
    destruct (Api.sendMessage second (conv_id conv) t role_assistant None d)
      as [db3 [a|e3]]; cbn [fst] in Htt; eexists _, _; (split; [reflexivity | exact Htt]). }
  unfold title_first_message.
  destruct (Store.messages store) as [|m ms] eqn:Hms.
  - assert (Hhd : hd None (Db.transport db1) = None) by now rewrite Ht1.
    destruct (update_title_goes_through (conv_id conv)
                (App.generateTitle (trim (messageInput ui))) db1 Hhd Hnd1 Hown1)
      as (db2 & row & Hupd & Hrid & Hrt & _ & Htitles2).
    rewrite Hupd.
    destruct (Hrest db2 (Store.run
                [ Store.setConversations
                    (map (replace_conversation (App.Conversation_of_row row))
                         (Store.conversations store));
                  Store.setCurrentConversation (Some (App.Conversation_of_row row)) ]
                store))
      as (d' & u' & Hout & Htt).
    eexists d', _, u'. split; [exact Hout|]. split.
    + intros _. split.
      * rewrite Htt, Htitles2. apply Hids; [|exact Htitles1].
        now destruct Hf1 as (_ & _ & Hid & _).
      * exists row. repeat split; assumption.
    + intros H. now contradiction H.
  - destruct (Hrest db1 store) as (d' & u' & Hout & Htt).
    exists d', store, u'. split; [exact Hout|]. split; [discriminate|].
    intros _. split; [congruence | reflexivity].
Qed.

End ExchangeProperties.

Section ExchangeExamples.
Import Types JS Chat.

(** The stream breaks after the first chunk: the question and the apology
    are stored, and the banner tells of the failure. *)
Lemma X25_witness :
  exists db' store' q a,
    handleSendMessage (engine := Demo.engine) (env := Demo.env)
                      (providers := Demo.openai_breaks) (server := Api.server)
                      Api.insert_first Api.update_first
                      Api.signed_in chatting (typed " Hello ")
    = Some (db', store',
            mkComposer "" false (VStr "") "Failed to get AI response. Please try again.")
    /\ Db.messages db' = [q; a]
    /\ Db.content q = "Hello"
    /\ Db.content a = Ai.fallback.
Proof.
  destruct (@X25_apology_is_stored Demo.engine Demo.env Demo.openai_breaks Api.server
              Api.insert_first Api.update_first Api.signed_in chatting (typed " Hello ")
              Store.chat1 (ErrorObject "Connection error."))
    as (db' & store' & q & a & Hrun & Hm & _ & Hq & _ & Ha & _);
    try reflexivity; [discriminate|].
  exists db', store', q, a.
  split; [exact Hrun|]. split; [exact Hm|]. split; [exact Hq | exact Ha].
Defined.

(** The first message of a conversation gives it its title. *)
Lemma X26_witness :
  exists db' store' ui',
    handleSendMessage (engine := Demo.engine) (env := Demo.env)
                      (providers := Demo.openai_ok) (server := Api.server)
                      Api.insert_first Api.insert_first
                      Api.signed_in chatting (typed "What is a monad in Haskell?")
    = Some (db', store', ui')
    /\ map Db.title (Db.conversations db') = ["What is a monad..."]
    /\ option_map conv_title (Store.currentConversation store')
       = Some "What is a monad...".
Proof.
  destruct (@X26_title_from_first_message Demo.engine Demo.env Demo.openai_ok Api.server
              Api.insert_first Api.insert_first Api.signed_in chatting
              (typed "What is a monad in Haskell?") Store.chat1)
    as (db' & store' & ui' & Hrun & Hfirst & _);
    try reflexivity; [discriminate | repeat constructor; cbn; tauto|].
  destruct (Hfirst eq_refl) as (Htitles & row & _ & Htitle & Hcurrent & _).
  exists db', store', ui'.
  split; [exact Hrun|]. split; [exact Htitles|].
  rewrite Hcurrent. cbn. now rewrite Htitle.
Defined.

Example exchange_with_openai :
  match handleSendMessage (engine := Demo.engine) (env := Demo.env)
                          (providers := Demo.openai_ok) (server := Api.server)
                          Api.insert_first Api.insert_first
                          Api.signed_in chatting (typed "Hello") with
  | Some (db', _, ui') =>
      map (fun m => (Db.role m, Db.content m)) (Db.messages db')
      = [("user", "Hello"); ("assistant", "Hi there")]
      /\ map Db.last_message (Db.conversations db') = [Some "Hi there"]
      /\ ui' = typed ""
  | None => False
  end.
Proof. vm_compute. repeat split. Qed.

(** The update of [last_message] gets no answer: the question is stored,
    the handler reports that it was not sent and asks no reply. *)
Example question_stored_but_reported_lost :
  match handleSendMessage (engine := Demo.engine) (env := Demo.env)
                          (providers := Demo.openai_ok) (server := Api.server)
                          Api.insert_first Api.insert_first
                          Api.update_lost chatting (typed "Hello") with
  | Some (db', _, ui') =>
      map (fun m => (Db.role m, Db.content m)) (Db.messages db') = [("user", "Hello")]
      /\ ui' = mkComposer "Hello" false (VStr "") failed_to_send
  | None => False
  end.
Proof. vm_compute. repeat split. Qed.

End ExchangeExamples.

(** ** Every failure of a streaming exchange is reported *)

Section FailureProperties.
Import Types JS Ai Snapshots Upstream.
Local Open Scope js_scope.
Context {engine : Engine} {env : Env} {providers : Providers}.













End FailureProperties.

(** ** The Deepseek stream in terms of the text the upstream sent *)

Section WholeLines.
Import Types JS Ai Snapshots Upstream.
Local Open Scope js_scope.
Context {engine : Engine}.

Lemma split_lines_not_nil (s : string) : split_lines s <> [].
Proof.
  destruct s as [|c s]; cbn; [discriminate|].
  destruct (c =? "010")%char; [discriminate|].
  destruct (split_lines s); discriminate.
Qed.

(** The lines of a text that continues after a line end. *)
Lemma split_lines_app (body rest : string) :
  split_lines ((body ++ String "010" "") ++ rest)
  = split_lines body ++ split_lines rest.
Proof.
  induction body as [|c body IH]; [reflexivity|].
  cbn [String.append split_lines]. rewrite IH.
  destruct (c =? "010")%char; [reflexivity|].
  pose proof (split_lines_not_nil body) as Hne.
  destruct (split_lines body) as [|line lines]; [now contradiction Hne | reflexivity].
Qed.

Lemma split_lines_line_end (body : string) :
  split_lines (body ++ String "010" "") = split_lines body ++ [""].
Proof.
  change [""] with (split_lines ""). rewrite <- (split_lines_app body ""). f_equal.
  generalize (body ++ String "010" "")%string. intros s.
  induction s as [|c s IH]; cbn; [reflexivity | now rewrite <- IH].
Qed.

Lemma marked_lines_app (text rest : string) :
  text = "" \/ (exists body, text = (body ++ String "010" "")%string) ->
  filter (fun line => startsWith line "data: ") (split_lines (text ++ rest))
  = filter (fun line => startsWith line "data: ") (split_lines text)
    ++ filter (fun line => startsWith line "data: ") (split_lines rest).
Proof.
  intros [->|(body & ->)]; [reflexivity|].
  rewrite split_lines_app, split_lines_line_end, !filter_app. cbn [filter].
  now rewrite app_nil_r.
Qed.

(** Read by read or as a whole, the frames are the same when each read
    ends at a line end. *)
Lemma frames_whole_lines (reader : Reader) :
  Forall whole_lines (reads reader) ->
  frames (reads reader) = frames_sent reader.
Proof.
  unfold frames_sent, text_sent.
  induction 1 as [|value rs Hvalue _ IH]; [reflexivity|].
  rewrite frames_cons, frames_of_chunk_eq, IH. cbn [map fold_right].
  symmetry. now apply marked_lines_app.
Qed.

End WholeLines.

Section SentFrames.
Import Types JS Ai Snapshots Upstream.
Context {engine : Engine} {env : Env}.

(** X27. The Deepseek (event-frame) path of [streamAIResponse] on a stream
    whose reads end at line ends.  When the request is answered with a
    success status and a readable body, every read ends where a line ends,
    the upstream closes the stream, and every frame of the text sent
    carries a delta (the deltas being [ds], in order; so the text holds no
    end marker), then the adapter yields one snapshot per frame, the [k]-th
    holding the concatenation of the first [k] deltas, and a final snapshot
    with [done = true] that holds the concatenation of all the deltas; the
    generator then ends normally. *)
Theorem X27_deepseek_accumulates_whole_lines {providers : Providers}
        (message : string) (history : list Turn)
        (response : Response) (reader : Reader) (ds : list string) :
  fetch (deepseek_request message history (Some true)) = Normal response ->
  ok response = true ->
  body response = Some reader ->
  read_failure reader = None ->
  Forall whole_lines (reads reader) ->
  Forall2 (fun frame d => frame_delta frame = Normal d) (frames_sent reader) ds ->
  outcome (streamAIResponse message "deepseek-chat" history) = Normal tt
  /\ yielded (streamAIResponse message "deepseek-chat" history)
     = running "" ds ++ [mkAIStreamResponse (VStr (concat_all ds)) true None]
  /\ List.length (yielded (streamAIResponse message "deepseek-chat" history))
     = S (List.length (frames_sent reader))
  /\ (forall k, (k < List.length ds)%nat ->
        nth_error (yielded (streamAIResponse message "deepseek-chat" history)) k
        = Some (snap (concat_all (firstn (S k) ds)))).
Proof.
  intros Hfetch Hok Hbody Hclosed Hwhole Hds.
  rewrite <- (frames_whole_lines reader Hwhole) in Hds |- *.
  destruct (deepseek_accumulates message history response reader ds
              Hfetch Hok Hbody Hclosed Hds) as (H1 & H2 & H3 & H4 & _).
  repeat split; assumption.
Qed.

(** X4. On streams whose reads end at line ends, the Deepseek stream is a
    function of the frames sent: two upstreams that both answer with a
    success status and a readable body, whose texts hold the same frames
    in the same order and end the same way, give the same sequence of
    snapshots, however the lines are grouped into reads and whatever other
    lines (blank lines, comments, event names) lie between the frames. *)
Theorem X4_deepseek_stream_depends_on_frames (P Q : Providers)
        (message : string) (history : list Turn)
        (answerP answerQ : Response) (readerP readerQ : Reader) :
  @fetch P (deepseek_request message history (Some true)) = Normal answerP ->
  @fetch Q (deepseek_request message history (Some true)) = Normal answerQ ->
  ok answerP = true -> ok answerQ = true ->
  body answerP = Some readerP -> body answerQ = Some readerQ ->
  Forall whole_lines (reads readerP) ->
  Forall whole_lines (reads readerQ) ->
  frames_sent readerP = frames_sent readerQ ->
  read_failure readerP = read_failure readerQ ->
  @streamAIResponse engine env P message "deepseek-chat" history
  = @streamAIResponse engine env Q message "deepseek-chat" history.
Proof.
  intros HfP HfQ HokP HokQ HbP HbQ HwP HwQ Hframes Hend.
  rewrite <- (frames_whole_lines readerP HwP), <- (frames_whole_lines readerQ HwQ)
    in Hframes.
  unfold streamAIResponse. cbn [String.eqb Ascii.eqb Bool.eqb].
  unfold streamDeepseekResponse, streamDeepseekResponse_try.
  rewrite HfP, HfQ, !gen_bind_await, HokP, HokQ. cbn [negb].
  rewrite !gen_bind_ret, HbP, HbQ, !gen_bind_ret.
  now rewrite !deepseek_read_loop_frames, Hframes, Hend.
Qed.

End SentFrames.

Section SentExamples.
Import Types JS Ai Snapshots Upstream Demo Samples.

Lemma whole_lines_bytes (body : string) :
  whole_lines (bytes (body ++ String "010" "")).
Proof.
  right. exists (json_text body). unfold bytes. cbn [TextDecoder_decode engine].
  rewrite string_of_list_byte_of_string.
  induction body as [|c body IH]; [reflexivity|].
  cbn [String.append json_text]. now rewrite IH.
Qed.

Lemma X27_witness :
  yielded (streamAIResponse (providers := hi_there) "Hello" "deepseek-chat" [])
  = [ snap "Hi"; snap "Hi there"; mkAIStreamResponse (VStr "Hi there") true None ].
Proof.
  refine (proj1 (proj2
    (@X27_deepseek_accumulates_whole_lines engine env hi_there "Hello" []
       (streaming_body hi_there_reads None)
       (mkReader hi_there_reads None) ["Hi"; " there"]
       eq_refl eq_refl eq_refl eq_refl _ _))).
  - apply Forall_cons;
      [exact (whole_lines_bytes "data: {'choices':[{'delta':{'content':'Hi'}}]}")|].
    apply Forall_cons; [|apply Forall_nil].
    exact (whole_lines_bytes "
data: {'choices':[{'index':0,'delta':{'content':' there'}}]}
").
  - repeat constructor.
Defined.

(** The two frames in two reads, and in one read with a comment line and
    an event line between them. *)
Lemma X4_witness :
  streamAIResponse (providers := hi_there) "Hello" "deepseek-chat" []
  = streamAIResponse (providers := hi_there_one_chunk) "Hello" "deepseek-chat" [].
Proof.
  refine (@X4_deepseek_stream_depends_on_frames engine env hi_there hi_there_one_chunk
            "Hello" [] _ _ _ _ eq_refl eq_refl eq_refl eq_refl eq_refl eq_refl
            _ _ eq_refl eq_refl).
  - apply Forall_cons;
      [exact (whole_lines_bytes "data: {'choices':[{'delta':{'content':'Hi'}}]}")|].
    apply Forall_cons; [|apply Forall_nil].
    exact (whole_lines_bytes "
data: {'choices':[{'index':0,'delta':{'content':' there'}}]}
").
  - apply Forall_cons; [|apply Forall_nil].
    exact (whole_lines_bytes ": keep-alive
data: {'choices':[{'delta':{'content':'Hi'}}]}
event: message
data: {'choices':[{'index':0,'delta':{'content':' there'}}]}").
Defined.

End SentExamples.

(** ** The failures on concrete upstreams *)

Section FailureExamples.
Import Types JS Ai Snapshots Upstream Demo.


Lemma C3_witness :
  generateAIResponse (providers := bad_gateway) "Hello" "deepseek-chat" []
  = Normal (mkAIResponse
              (VStr "I apologize, but I encountered an error processing your request.")
              (Some "Deepseek API error: Bad Gateway")).
Proof.
  destruct (@C3_single_shot_fails_soft engine env bad_gateway "Hello" "deepseek-chat" [])
    as (_ & _ & _ & _ & Hdeepseek).
  destruct (Hdeepseek eq_refl) as (_ & Hresponse).
  exact (proj1 (Hresponse _ eq_refl) eq_refl).
Defined.

(** C3, as the specification has it, fails: the client rejects with an
    object that has a message but is no [Error]; the record does not carry
    that message. *)
Lemma C3_counterexample :
  openai_create (Providers := rejects_with_plain_object)
                (chat_params "gpt-3.5-turbo" "Hello" [] None)
  = Throw (Thrown (VObj [("message", VStr "Rate limit reached"); ("status", VNum 429)]))
  /\ generateAIResponse (providers := rejects_with_plain_object) "Hello" "gpt-3.5-turbo" []
     = Normal (mkAIResponse
                 (VStr "I apologize, but I encountered an error processing your request.")
                 (Some "Unknown error occurred"))
  /\ (forall r,
        generateAIResponse (providers := rejects_with_plain_object)
                           "Hello" "gpt-3.5-turbo" [] = Normal r ->
        error r <> Some "Rate limit reached").
Proof.
  split; [reflexivity|]. split; [reflexivity|]. intros r [= <-]. discriminate.
Qed.

End FailureExamples.

(** ** Characters outside ASCII in the forms *)

Section CharacterExamples.
Import Types JS.

(** A password of three letters with an accent has three characters:
    [validateForm] and [signUp] refuse it, though its text has six
    bytes. *)
Example short_password_with_accents :
  App.validateForm "alice@example.org"
                   (text_of_bytes [195; 169; 195; 169; 195; 169]%nat) true
  = Some "Password must be at least 6 characters long"
  /\ Auth.refused (Auth.call_signUp "bob@example.org"
                                    (text_of_bytes [195; 169; 195; 169; 195; 169]%nat))
     = Some (ErrorObject "Password must be at least 6 characters long")
  /\ snd (Auth.call (browser := Auth.browser)
                    (Auth.call_signUp "bob@example.org"
                                      (text_of_bytes [195; 169; 195; 169; 195; 169]%nat))
                    Auth.in_flight)
     = Auth.rejected (ErrorObject "Password must be at least 6 characters long").
Proof. repeat split. Qed.

(** An email or an input of one no-break space is blank. *)
Example blank_with_no_break_space :
  App.validateForm (text_of_bytes [194; 160]%nat) "secret1" false
  = Some "Email is required"
  /\ Chat.handleSendMessage (engine := Demo.engine) (env := Demo.env)
                            (providers := Demo.openai_ok) (server := Api.server)
                            Api.insert_first Api.insert_first
                            Api.signed_in Chat.chatting
                            (Chat.typed (text_of_bytes [194; 160]%nat))
     = Some (Api.signed_in, Chat.chatting, Chat.typed (text_of_bytes [194; 160]%nat)).
Proof. split; reflexivity. Qed.

End CharacterExamples.
